(** * PyNAM network module: batch composition and result demultiplexing

    Shallow embedding of [pynam/network.py] (Python 2, NumPy): the spike
    matching and splitting primitives of [NetworkInstance], the spatial
    multiplex of [NetworkPool], the metrics of [NetworkAnalysis] and the
    topology and spike train construction of [NetworkBuilder].

    Conventions of the embedding.
    - Spike times, offsets and time windows are float64 in the source. The
      code only compares, adds and subtracts them, so time stamps are kept
      as exact integers of a fixed time grid ([Z]).  [np.inf] and NaN get
      constructors of their own where the source can produce them.
    - Sample tags are Python integers; [flatten] stores them in an
      [np.int32] array, which is written out as [wrap32].
    - Synapse weights and probabilities are rationals ([Q]).
    - A raised Python exception is a value [Raise e] of the [result] type.
    - Draws from NumPy's global random generator are read from an explicit
      generator state that is threaded through the builder. *)

From stdpp Require Import base option list strings gmap.
From Stdlib Require Import ZArith Lia QArith Permutation Sorted.

#[local] Open Scope Z_scope.

(* ================================================================== *)
(** * Part I: the program *)
(* ================================================================== *)

(** ** Exceptions *)

Inductive exn : Set := TypeError | IndexError | ValueError | KeyError.

Inductive result (A : Type) : Type :=
| Ok (a : A)
| Raise (e : exn).
Arguments Ok {A} a.
Arguments Raise {A} e.

Definition bind {A B : Type} (r : result A) (k : A -> result B) : result B :=
  match r with
  | Ok a => k a
  | Raise e => Raise e
  end.

Notation "x <- r ;; k" := (bind r (fun x => k))
  (at level 100, r at next level, right associativity, only parsing).

Fixpoint mapM {A B : Type} (f : A -> result B) (l : list A) : result (list B) :=
  match l with
  | [] => Ok []
  | x :: l' => y <- f x;; ys <- mapM f l';; Ok (y :: ys)
  end.

(** [l[i]] for a non-negative index. *)
Definition getitem {A : Type} (l : list A) (i : nat) : result A :=
  match l !! i with
  | Some x => Ok x
  | None => Raise IndexError
  end.

(** [min(xs)] and [max(xs)] of the Python built-ins: the first smallest
    (largest) element, [ValueError] on an empty sequence. *)
Definition py_min (xs : list Z) : result Z :=
  match xs with
  | [] => Raise ValueError
  | x :: xs' => Ok (fold_left (fun m y => if decide (y < m) then y else m) xs' x)
  end.

Definition py_max (xs : list Z) : result Z :=
  match xs with
  | [] => Raise ValueError
  | x :: xs' => Ok (fold_left (fun m y => if decide (m < y) then y else m) xs' x)
  end.

(** ** The [bisect] module of the Python standard library *)

Module Bisect.

(** [while lo < hi: mid = (lo+hi)//2; if a[mid] < x: lo = mid+1 else: hi = mid].
    The loop is run on a counter that bounds the number of iterations. *)
Fixpoint bisect_left_loop (fuel : nat) (a : list Z) (x : Z) (lo hi : nat) : nat :=
  match fuel with
  | O => lo
  | S fuel' =>
      if decide (lo < hi)%nat then
        let mid := ((lo + hi) / 2)%nat in
        match a !! mid with
        | Some y =>
            if decide (y < x) then bisect_left_loop fuel' a x (mid + 1) hi
            else bisect_left_loop fuel' a x lo mid
        | None => lo
        end
      else lo
  end.

Definition bisect_left (a : list Z) (x : Z) : nat :=
  bisect_left_loop (length a) a x 0 (length a).

(** [while lo < hi: mid = (lo+hi)//2; if x < a[mid]: hi = mid else: lo = mid+1]. *)
Fixpoint bisect_right_loop (fuel : nat) (a : list Z) (x : Z) (lo hi : nat) : nat :=
  match fuel with
  | O => lo
  | S fuel' =>
      if decide (lo < hi)%nat then
        let mid := ((lo + hi) / 2)%nat in
        match a !! mid with
        | Some y =>
            if decide (x < y) then bisect_right_loop fuel' a x lo mid
            else bisect_right_loop fuel' a x (mid + 1) hi
        | None => lo
        end
      else lo
  end.

Definition bisect_right (a : list Z) (x : Z) : nat :=
  bisect_right_loop (length a) a x 0 (length a).

End Bisect.

(** ** NumPy sorting: [np.argsort] and [np.lexsort] *)

Module Numpy.

(** The value an [np.int32] array cell holds after an integer that fits
    a C long is stored in it: the low 32 bits, read as a signed number.
    (NumPy refuses larger Python integers with an [OverflowError]; the
    statements about [flatten] are made for tags in the int32 range,
    where the cell holds the tag itself.) *)
Definition wrap32 (k : Z) : Z := (k + 2 ^ 31) mod 2 ^ 32 - 2 ^ 31.

Section StableSort.
Context {A : Type} (leb : A -> A -> bool).

(** [x] goes in front of the first element that is not smaller: elements
    that compare equal keep their order. *)
Fixpoint insert_sorted (x : A) (l : list A) : list A :=
  match l with
  | [] => [x]
  | y :: l' => if leb x y then x :: y :: l' else y :: insert_sorted x l'
  end.

Definition stable_sort (l : list A) : list A := foldr insert_sorted [] l.

End StableSort.

End Numpy.

(** ** NetworkInstance: flattening, matching and temporal splitting *)

Module NetworkInstance.

(** One entry of the flat arrays: [(tF[c], kF[c], nF[c])]. *)
Definition flat_spike : Type := Z * Z * nat.

Definition fs_time (s : flat_spike) : Z := s.1.1.
Definition fs_tag (s : flat_spike) : Z := s.1.2.
Definition fs_neuron (s : flat_spike) : nat := s.2.

(** [count = reduce(lambda x, y: x + y, map(len, times))]: without an
    initial value [reduce] raises [TypeError] on an empty sequence. *)
Definition spike_count (times : list (list Z)) : result nat :=
  match map length times with
  | [] => Raise TypeError
  | n :: ns => Ok (fold_left Nat.add ns n)
  end.

(** The inner loop of [flatten] for neuron [i]: [tF[c] = times[i][j]],
    [kF[c] = indices[i][j]], [nF[c] = i].  A missing tag is an
    [IndexError]. *)
Fixpoint flatten_train (i : nat) (ts ks : list Z) : result (list flat_spike) :=
  match ts with
  | [] => Ok []
  | t :: ts' =>
      match ks with
      | [] => Raise IndexError
      | k :: ks' =>
          rest <- flatten_train i ts' ks';;
          Ok ((t, Numpy.wrap32 k, i) :: rest)
      end
  end.

(** The outer loop over the neurons [i = i0, i0+1, ...].  [indices[i]] is
    only evaluated when [times[i]] has a spike. *)
Fixpoint flatten_rows (i : nat) (times indices : list (list Z))
  : result (list flat_spike) :=
  match times with
  | [] => Ok []
  | ts :: times' =>
      row <- match ts, indices with
             | [], _ => Ok []
             | _ :: _, [] => Raise IndexError
             | _ :: _, ks :: _ => flatten_train i ts ks
             end;;
      rest <- flatten_rows (S i) times' (tail indices);;
      Ok (row ++ rest)
  end.

(** Sort keys.  [np.argsort(tF)] orders by time; [np.lexsort((kF, tF))]
    takes its LAST key, [tF], as the primary one and [kF] as the
    secondary one.  [np.lexsort] is stable; the order [np.argsort]
    gives to spikes of equal time is not specified by NumPy, the
    embedding keeps them in their original order, and no statement
    below depends on that choice. *)
Definition time_leb (a b : flat_spike) : bool := bool_decide (fs_time a <= fs_time b).

Definition lexsort_leb (a b : flat_spike) : bool :=
  bool_decide (fs_time a < fs_time b \/ (fs_time a = fs_time b /\ fs_tag a <= fs_tag b)).

Definition flatten (times indices : list (list Z)) (sort_by_sample : bool)
  : result (list Z * list Z * list nat) :=
  _ <- spike_count times;;
  flat <- flatten_rows 0 times indices;;
  let sorted :=
    if sort_by_sample then Numpy.stable_sort lexsort_leb flat
    else Numpy.stable_sort time_leb flat in
  Ok (map fs_time sorted, map fs_tag sorted, map fs_neuron sorted).

(** The body of the inner loop of [match_static] for one output spike. *)
Definition match_spike (tIn kIn : list Z) (t : Z) : result Z :=
  let idx := Bisect.bisect_left tIn t in
  let idx := if decide (0 < idx)%nat then (idx - 1)%nat else idx in
  if decide (idx < length tIn)%nat then getitem kIn idx else Ok 0.

Definition match_static (input_times input_indices output_times : list (list Z))
  : result (list (list Z) * list (list Z)) :=
  flat <- flatten input_times input_indices false;;
  let '(tIn, kIn, _) := flat in
  output_indices <- mapM (mapM (match_spike tIn kIn)) output_times;;
  Ok (output_times, output_indices).

(** [split]: one neuron.  Events are visited in order and kept when
    [k0 <= indices[i][j] < k1]. *)
Fixpoint split_train (ts ks : list Z) (k0 k1 : Z) : result (list Z * list Z) :=
  match ts with
  | [] => Ok ([], [])
  | t :: ts' =>
      match ks with
      | [] => Raise IndexError
      | k :: ks' =>
          rest <- split_train ts' ks' k0 k1;;
          if decide (k0 <= k /\ k < k1) then Ok (t :: rest.1, (k - k0) :: rest.2)
          else Ok rest
      end
  end.

(** [split]: all neurons.  [times_part] has [len(times)] rows and
    [indices_part] has [len(indices)] rows. *)
Fixpoint split_rows (times indices : list (list Z)) (k0 k1 : Z)
  : result (list (list Z) * list (list Z)) :=
  match times with
  | [] => Ok ([], map (fun _ => []) indices)
  | ts :: times' =>
      match indices with
      | [] =>
          match ts with
          | [] => rest <- split_rows times' [] k0 k1;; Ok ([] :: rest.1, rest.2)
          | _ :: _ => Raise IndexError
          end
      | ks :: indices' =>
          row <- split_train ts ks k0 k1;;
          rest <- split_rows times' indices' k0 k1;;
          Ok (row.1 :: rest.1, row.2 :: rest.2)
      end
  end.

Definition split (times indices : list (list Z)) (k0 k1 : Z)
  : result (list (list Z) * list (list Z)) :=
  split_rows times indices k0 k1.

End NetworkInstance.

(** ** Parameter structs and records *)

(** A sample matrix is either a NumPy array, which has a [shape], or a
    plain list of rows, which has none. *)
Record ndarray : Type := {
  nd_shape : nat * nat;
  nd_at : nat -> nat -> Z
}.

Inductive matrix : Type :=
| MList (rows : list (list Z))
| MArray (a : ndarray).

Record DataParameters : Type := {
  n_bits_in : nat;
  n_bits_out : nat;
  n_ones_in : nat;
  n_ones_out : nat;
  n_samples : nat
}.

Record InputParameters : Type := {
  burst_size : nat;
  time_window : Z;
  isi : Z;
  sigma_t : Z;
  sigma_t_offs : Z;
  p0 : Q;
  p1 : Q
}.

Record OutputParameters : Type := {
  out_burst_size : Z
}.

(** Neuron type and signal identifiers of the PyNNLess library
    ([pynl.TYPE_SOURCE], [pynl.TYPE_IF_COND_EXP], ..., [pynl.SIG_SPIKES]);
    only their identity matters here. *)
Inductive neuron_kind : Set :=
| TYPE_SOURCE
| TYPE_IF_COND_EXP
| TYPE_OTHER (name : string).

Inductive signal : Set :=
| SIG_SPIKES
| SIG_OTHER (name : string).

#[global] Instance neuron_kind_eq_dec : EqDecision neuron_kind.
Proof. solve_decision. Defined.

Record TopologyParameters : Type := {
  params : gmap string Q;
  param_noise : gmap string Q;
  multiplicity : nat;
  neuron_type : neuron_kind;
  w : Q;
  sigma_w : Q
}.

(** Populations and connections of a PyNNLess network description. *)
Record Population : Type := {
  pop_count : nat;
  pop_type : neuron_kind;
  pop_params : list (gmap string Q);
  pop_record : list signal
}.

(** [((pid_src, nid_src), (pid_tar, nid_tar), weight, delay)]. *)
Definition coord : Type := nat * nat.
Definition connection : Type := coord * coord * Q * Q.

(** The result of the simulator for one population: its ["spikes"]
    entry, when spikes were recorded. *)
Abbreviation pop_output := (option (list (list Z))) (only parsing).

Module Analysis.
Record t : Type := {
  input_times : list (list Z);
  input_indices : list (list Z);
  output_times : list (list Z);
  output_indices : list (list Z);
  input_params : InputParameters;
  data_params : DataParameters;
  topology_params : TopologyParameters;
  meta_data : string;
  mat_in : matrix;
  mat_out : matrix
}.
End Analysis.

Module Instance.
Record t : Type := {
  populations : list Population;
  connections : list connection;
  input_times : list (list Z);
  input_indices : list (list Z);
  input_split : list Z;
  input_params : list InputParameters;
  data_params : DataParameters;
  topology_params : TopologyParameters;
  meta_data : string;
  mat_in : matrix;
  mat_out : matrix
}.
End Instance.

Module Pool.
Record t : Type := {
  name : string;
  populations : list Population;
  connections : list connection;
  input_times : list (list Z);
  input_indices : list (list Z);
  input_split : list (list Z);
  spatial_split : list (nat * nat);
  input_params : list (list InputParameters);
  data_params : list DataParameters;
  topology_params : list TopologyParameters;
  meta_data : list string;
  mat_in : list matrix;
  mat_out : list matrix
}.
End Pool.

(** ** NetworkInstance: temporal demultiplexing *)

Module NetworkInstanceAnalysis.

(** [input_split = [max(map(max, input_indices)) + 1]]. *)
Definition default_input_split (input_indices : list (list Z)) : result (list Z) :=
  maxima <- mapM py_max input_indices;;
  top <- py_max maxima;;
  Ok [top + 1].

(** The loop [for i, k in enumerate(input_split)] with the running lower
    bound [k0]. *)
Fixpoint analysis_loop (input_times input_indices output_times output_indices : list (list Z))
  (input_params : list InputParameters) (data_params : DataParameters)
  (topology_params : TopologyParameters) (meta_data : string) (mat_in mat_out : matrix)
  (i : nat) (k0 : Z) (input_split : list Z) : result (list Analysis.t) :=
  match input_split with
  | [] => Ok []
  | k :: input_split' =>
      inp <- NetworkInstance.split input_times input_indices k0 k;;
      out <- NetworkInstance.split output_times output_indices k0 k;;
      ip <- getitem input_params i;;
      rest <- analysis_loop input_times input_indices output_times output_indices
                input_params data_params topology_params meta_data mat_in mat_out
                (S i) k input_split';;
      Ok ({| Analysis.input_times := inp.1;
             Analysis.input_indices := inp.2;
             Analysis.output_times := out.1;
             Analysis.output_indices := out.2;
             Analysis.input_params := ip;
             Analysis.data_params := data_params;
             Analysis.topology_params := topology_params;
             Analysis.meta_data := meta_data;
             Analysis.mat_in := mat_in;
             Analysis.mat_out := mat_out |} :: rest)
  end.

Definition build_analysis_static (input_times input_indices : list (list Z))
  (output : list pop_output) (input_params : list InputParameters)
  (data_params : DataParameters) (topology_params : TopologyParameters)
  (meta_data : string) (mat_in mat_out : matrix) (input_split : list Z)
  : result (list Analysis.t) :=
  out1 <- getitem output 1;;
  spikes <- match out1 with
            | Some s => Ok s
            | None => Raise KeyError
            end;;
  matched <- NetworkInstance.match_static input_times input_indices spikes;;
  input_split <- (if decide (length input_split = 0%nat)
                  then default_input_split input_indices
                  else Ok input_split);;
  analysis_loop input_times input_indices matched.1 matched.2
    input_params data_params topology_params meta_data mat_in mat_out
    0 0 input_split.

Definition build_analysis (net : Instance.t) (output : list pop_output)
  : result (list Analysis.t) :=
  build_analysis_static (Instance.input_times net) (Instance.input_indices net)
    output (Instance.input_params net) (Instance.data_params net)
    (Instance.topology_params net) (Instance.meta_data net)
    (Instance.mat_in net) (Instance.mat_out net) (Instance.input_split net).

(** [neuron_count_static]: the neurons of all populations, the spike
    sources only when [count_sources] is set. *)
Definition neuron_count_static (populations : list Population) (count_sources : bool)
  : nat :=
  let size := fun p : Population =>
    if count_sources then pop_count p
    else if decide (pop_type p = TYPE_SOURCE) then 0%nat else pop_count p in
  foldl Nat.add 0%nat (map size populations).

Definition neuron_count (net : Instance.t) (count_sources : bool) : nat :=
  neuron_count_static (Instance.populations net) count_sources.

End NetworkInstanceAnalysis.

(** ** NetworkPool: the spatial multiplex *)

Module NetworkPool.

(** A pool constructed without arguments. *)
Definition empty : Pool.t :=
  {| Pool.name := "";
     Pool.populations := [];
     Pool.connections := [];
     Pool.input_times := [];
     Pool.input_indices := [];
     Pool.input_split := [];
     Pool.spatial_split := [];
     Pool.input_params := [];
     Pool.data_params := [];
     Pool.topology_params := [];
     Pool.meta_data := [];
     Pool.mat_in := [];
     Pool.mat_out := [] |}.

(** [((c[0][0] + nP0, c[0][1]), (c[1][0] + nP0, c[1][1]), c[2], c[3])]. *)
Definition offset_connection (nP0 : nat) (c : connection) : connection :=
  (((c.1.1.1.1 + nP0)%nat, c.1.1.1.2), ((c.1.1.2.1 + nP0)%nat, c.1.1.2.2), c.1.2, c.2).

(** [for i in xrange(nC0, nC1): connections[i] = ...]. *)
Definition adapt_connections (nP0 nC0 nC1 : nat) (cs : list connection)
  : list connection :=
  foldl (fun cs i => alter (offset_connection nP0) i cs) cs (seq nC0 (nC1 - nC0)).

Definition add_network (self : Pool.t) (network : Instance.t) : Pool.t :=
  let nP0 := length (Pool.populations self) in
  let nC0 := length (Pool.connections self) in
  let populations := Pool.populations self ++ Instance.populations network in
  let connections := Pool.connections self ++ Instance.connections network in
  let input_times := Pool.input_times self ++ Instance.input_times network in
  let input_indices := Pool.input_indices self ++ Instance.input_indices network in
  let nP1 := length populations in
  let nC1 := length connections in
  let nI1 := length input_times in
  {| Pool.name := Pool.name self;
     Pool.populations := populations;
     Pool.connections := adapt_connections nP0 nC0 nC1 connections;
     Pool.input_times := input_times;
     Pool.input_indices := input_indices;
     Pool.input_split := Pool.input_split self ++ [Instance.input_split network];
     Pool.spatial_split := Pool.spatial_split self ++ [(nP1, nI1)];
     Pool.input_params := Pool.input_params self ++ [Instance.input_params network];
     Pool.data_params := Pool.data_params self ++ [Instance.data_params network];
     Pool.topology_params := Pool.topology_params self ++ [Instance.topology_params network];
     Pool.meta_data := Pool.meta_data self ++ [Instance.meta_data network];
     Pool.mat_in := Pool.mat_in self ++ [Instance.mat_in network];
     Pool.mat_out := Pool.mat_out self ++ [Instance.mat_out network] |}.

Definition add_networks (self : Pool.t) (networks : list Instance.t) : Pool.t :=
  foldl add_network self networks.

(** [l[a:b]] for non-negative bounds. *)
Definition py_slice {A : Type} (a b : nat) (l : list A) : list A :=
  take (b - a) (drop a l).

(** What [build_analysis] hands to the temporal demultiplexer for one
    spatial split: the slices of the input trains, the input tags and the
    simulator output. *)
Record part : Type := {
  part_input_times : list (list Z);
  part_input_indices : list (list Z);
  part_output : list pop_output
}.

Definition spatial_part (self : Pool.t) (output : list pop_output)
  (last_split split : nat * nat) : part :=
  {| part_input_times := py_slice last_split.2 split.2 (Pool.input_times self);
     part_input_indices := py_slice last_split.2 split.2 (Pool.input_indices self);
     part_output := py_slice last_split.1 split.1 output |}.

(** The rest of the loop body for the [i]-th spatial split: the stored
    descriptors of unit [i] and the temporal demultiplexing.  An empty
    [input_split] is used if none was stored for [i]. *)
Definition analyse_part (self : Pool.t) (i : nat) (p : part)
  : result (list Analysis.t) :=
  let input_split := default [] (Pool.input_split self !! i) in
  input_params <- getitem (Pool.input_params self) i;;
  data_params <- getitem (Pool.data_params self) i;;
  topology_params <- getitem (Pool.topology_params self) i;;
  meta_data <- getitem (Pool.meta_data self) i;;
  mat_in <- getitem (Pool.mat_in self) i;;
  mat_out <- getitem (Pool.mat_out self) i;;
  NetworkInstanceAnalysis.build_analysis_static
    (part_input_times p) (part_input_indices p) (part_output p)
    input_params data_params topology_params meta_data mat_in mat_out
    input_split.

(** The loop [for i, split in enumerate(self["spatial_split"])] with the
    running [last_split]. *)
Fixpoint demultiplex (self : Pool.t) (output : list pop_output)
  (i : nat) (last_split : nat * nat) (splits : list (nat * nat))
  : result (list Analysis.t) :=
  match splits with
  | [] => Ok []
  | split :: splits' =>
      res <- analyse_part self i (spatial_part self output last_split split);;
      rest <- demultiplex self output (S i) split splits';;
      Ok (res ++ rest)
  end.

Definition build_analysis (self : Pool.t) (output : list pop_output)
  : result (list Analysis.t) :=
  demultiplex self output 0 (0%nat, 0%nat) (Pool.spatial_split self).

Definition neuron_count (self : Pool.t) (count_sources : bool) : nat :=
  NetworkInstanceAnalysis.neuron_count_static (Pool.populations self) count_sources.

(** The spatial parts alone, in unit order, and their analysis. *)
Fixpoint spatial_parts (self : Pool.t) (output : list pop_output)
  (last_split : nat * nat) (splits : list (nat * nat)) : list part :=
  match splits with
  | [] => []
  | split :: splits' =>
      spatial_part self output last_split split
      :: spatial_parts self output split splits'
  end.

Fixpoint analyse_parts (self : Pool.t) (i : nat) (ps : list part)
  : result (list Analysis.t) :=
  match ps with
  | [] => Ok []
  | p :: ps' =>
      res <- analyse_part self i p;;
      rest <- analyse_parts self (S i) ps';;
      Ok (res ++ rest)
  end.

End NetworkPool.

(** ** NetworkAnalysis: latencies and the output matrix *)

Module NetworkAnalysis.

(** An entry of the latency array: a finite difference or [np.inf]. *)
Inductive latency : Set :=
| Finite (d : Z)
| Infinite.

(** The body of the loop of [calculate_latencies] for sample [k]:
    [iInK = bisect_right(kIn, k) - 1], likewise [iOutK], and the guard
    [iInK < 0 or iOutK < 0 or kIn[iInK] != k or kOut[iOutK] != k]. *)
Definition sample_latency (tIn kIn tOut kOut : list Z) (k : Z) : result latency :=
  let bIn := Bisect.bisect_right kIn k in
  let bOut := Bisect.bisect_right kOut k in
  if decide (bIn = 0%nat) then Ok Infinite
  else if decide (bOut = 0%nat) then Ok Infinite
  else
    kin <- getitem kIn (bIn - 1);;
    if decide (kin <> k) then Ok Infinite
    else
      kout <- getitem kOut (bOut - 1);;
      if decide (kout <> k) then Ok Infinite
      else
        tout <- getitem tOut (bOut - 1);;
        tin <- getitem tIn (bIn - 1);;
        Ok (Finite (tout - tin)).

Definition calculate_latencies (self : Analysis.t) : result (list latency) :=
  fin <- NetworkInstance.flatten (Analysis.input_times self)
           (Analysis.input_indices self) true;;
  fout <- NetworkInstance.flatten (Analysis.output_times self)
            (Analysis.output_indices self) true;;
  let N := n_samples (Analysis.data_params self) in
  mapM (fun k => sample_latency fin.1.1 fin.1.2 fout.1.1 fout.1.2 (Z.of_nat k))
       (seq 0 N).

(** A cell of the array [res / float(d)]: NumPy's float division yields
    [inf] or [nan] for a zero divisor. *)
Inductive cell : Set :=
| Ratio (q : Q)
| CellInf
| CellNaN.

Definition np_divide (c d : Z) : cell :=
  if decide (d = 0) then (if decide (c = 0) then CellNaN else CellInf)
  else Ratio (inject_Z c / inject_Z d)%Q.

(** [res[k, col] = res[k, col] + 1] on row [k]. *)
Definition increment (row : list Z) (col : nat) : result (list Z) :=
  c <- getitem row col;;
  Ok (<[col := c + 1]> row).

(** [for i in xrange(i0, i1): res[k, nOut[i] // s] += 1]. *)
Fixpoint count_row (nOut : list nat) (s : nat) (range : list nat) (row : list Z)
  : result (list Z) :=
  match range with
  | [] => Ok row
  | i :: range' =>
      n <- getitem nOut i;;
      row' <- increment row (n / s)%nat;;
      count_row nOut s range' row'
  end.

(** [N, n]: the shape of [mat_out] if it has one, the data parameters
    otherwise. *)
Definition output_shape (self : Analysis.t) : nat * nat :=
  match Analysis.mat_out self with
  | MArray a => nd_shape a
  | MList _ => (n_samples (Analysis.data_params self),
                n_bits_out (Analysis.data_params self))
  end.

(** The counts, before scaling. *)
Definition count_matrix (self : Analysis.t) : result (list (list Z)) :=
  fout <- NetworkInstance.flatten (Analysis.output_times self)
            (Analysis.output_indices self) true;;
  let kOut := fout.1.2 in
  let nOut := fout.2 in
  let s := multiplicity (Analysis.topology_params self) in
  let '(N, n) := output_shape self in
  mapM (fun k =>
          let i0 := Bisect.bisect_left kOut (Z.of_nat k) in
          let i1 := Bisect.bisect_right kOut (Z.of_nat k) in
          count_row nOut s (seq i0 (i1 - i0)) (replicate n 0))
       (seq 0 N).

Definition calculate_output_matrix (self : Analysis.t) (output_params : OutputParameters)
  : result (list (list cell)) :=
  res <- count_matrix self;;
  let s := multiplicity (Analysis.topology_params self) in
  let d := Z.of_nat s * out_burst_size output_params in
  Ok (map (map (fun c => np_divide c d)) res).

End NetworkAnalysis.

(** ** TopologyParameters: random neuron parameters and weights *)

Module TopologyParams.

(** [_restore_alternatives(sanitised, original)]: the user may give
    either ["g_leak"] or ["tau_m"]; the value the user gave replaces the
    alternative that [merge_default_parameters] left in [sanitised]. *)
Definition _restore_alternatives (sanitised original : gmap string Q)
  : gmap string Q :=
  if bool_decide ((is_Some (original !! "g_leak") /\ is_Some (original !! "tau_m"))
                  \/ (is_Some (sanitised !! "g_leak") /\ is_Some (sanitised !! "tau_m")))
  then sanitised
  else
    let sanitised :=
      match original !! "g_leak", sanitised !! "tau_m" with
      | Some g, Some _ => delete "tau_m" (<["g_leak" := g]> sanitised)
      | _, _ => sanitised
      end in
    match original !! "tau_m", sanitised !! "g_leak" with
    | Some tau, Some _ => delete "g_leak" (<["tau_m" := tau]> sanitised)
    | _, _ => sanitised
    end.

Section Draws.
(** [normal pos mu sigma] is the value [np.random.normal(mu, sigma)]
    returns when the generator has produced [pos] values before;
    [clamp_parameters] is [pynl.PyNNLess.clamp_parameters]. *)
Context (normal : nat -> Q -> Q -> Q).
Context (clamp_parameters : gmap string Q -> gmap string Q).

(** One iteration of the loop of [draw]: note the literal ["key"]. *)
Definition draw_step (self : TopologyParameters) (st : gmap string Q * nat)
  (key : string) : result (gmap string Q * nat) :=
  let '(res, pos) := st in
  match param_noise self !! key with
  | Some sigma =>
      if Qlt_le_dec 0 sigma then
        match res !! "key" with
        | Some mu => Ok (<["key" := normal pos mu sigma]> res, S pos)
        | None => Raise KeyError
        end
      else Ok (res, pos)
  | None => Ok (res, pos)
  end.

Fixpoint draw_loop (self : TopologyParameters) (st : gmap string Q * nat)
  (keys : list string) : result (gmap string Q * nat) :=
  match keys with
  | [] => Ok st
  | key :: keys' => st' <- draw_step self st key;; draw_loop self st' keys'
  end.

Definition draw (self : TopologyParameters) (pos : nat)
  : result (gmap string Q * nat) :=
  st <- draw_loop self (params self, pos) (map fst (map_to_list (params self)));;
  Ok (clamp_parameters st.1, st.2).

(** [max(0.0, x)]. *)
Definition clip (x : Q) : Q := if Qlt_le_dec 0 x then x else 0%Q.

Definition draw_weight (self : TopologyParameters) (pos : nat) : Q * nat :=
  if Qlt_le_dec 0 (sigma_w self) then (clip (normal pos (w self) (sigma_w self)), S pos)
  else (w self, pos).

End Draws.

End TopologyParams.

(** ** InputParameters: the spike train of one bit *)

Module InputParams.

Section Draws.
(** [normal pos mu sigma] and [uniform pos] are the values
    [np.random.normal(mu, sigma)] and [np.random.uniform()] return when
    the generator has produced [pos] values before. *)
Context (normal : nat -> Z -> Z -> Z).
Context (uniform : nat -> Q).

(** One iteration of [for i in xrange(burst_size)]. *)
Definition burst_step (self : InputParameters) (p : Q) (offs : Z)
  (st : list Z * nat) (i : nat) : list Z * nat :=
  let '(res, pos) := st in
  if Qle_bool p (uniform pos) then
    if decide (0 < sigma_t self)
    then (res ++ [offs + Z.of_nat i * isi self + normal (S pos) 0 (sigma_t self)],
          S (S pos))
    else (res ++ [offs + Z.of_nat i * isi self + 0], S pos)
  else (res, S pos).

Definition build_spike_train (self : InputParameters) (value : Z) (offs : Z)
  (pos : nat) : list Z * nat :=
  let '(offs, pos) :=
    if decide (0 < sigma_t_offs self)
    then (normal pos offs (sigma_t_offs self), S pos)
    else (offs, pos) in
  let p := if decide (value = 1) then p0 self else (1 - p1 self)%Q in
  let '(res, pos) := foldl (burst_step self p offs) ([], pos) (seq 0 (burst_size self)) in
  (Numpy.stable_sort Z.leb res, pos).

End Draws.

End InputParams.

(** ** NetworkBuilder: topology and input spike trains *)

Module NetworkBuilder.

(** Float values that can be infinite or undefined. *)
Inductive xfloat : Set :=
| Fin (z : Z)
| PInf
| NInf
| NaN.

Definition xsub (a b : xfloat) : xfloat :=
  match a, b with
  | NaN, _ | _, NaN => NaN
  | Fin x, Fin y => Fin (x - y)
  | Fin _, PInf => NInf
  | Fin _, NInf => PInf
  | PInf, PInf => NaN
  | PInf, _ => PInf
  | NInf, NInf => NaN
  | NInf, _ => NInf
  end.

Definition xadd (a b : xfloat) : xfloat :=
  match a, b with
  | NaN, _ | _, NaN => NaN
  | Fin x, Fin y => Fin (x + y)
  | Fin _, PInf => PInf
  | Fin _, NInf => NInf
  | PInf, NInf => NaN
  | PInf, _ => PInf
  | NInf, PInf => NaN
  | NInf, _ => NInf
  end.

(** [a < b] on floats; every comparison with NaN is false. *)
Definition xltb (a b : xfloat) : bool :=
  match a, b with
  | NaN, _ | _, NaN => false
  | Fin x, Fin y => bool_decide (x < y)
  | Fin _, PInf => true
  | Fin _, NInf => false
  | PInf, _ => false
  | NInf, NInf => false
  | NInf, _ => true
  end.

(** [min(xs)] on floats. *)
Definition xmin (xs : list xfloat) : result xfloat :=
  match xs with
  | [] => Raise ValueError
  | x :: xs' => Ok (fold_left (fun m y => if xltb y m then y else m) xs' x)
  end.

(** [rmin]: "Robust min function, returns Inf if xs is empty". *)
Definition rmin (xs : list Z) : xfloat :=
  match py_min xs with
  | Ok m => Fin m
  | Raise _ => PInf
  end.

(** [range(start, stop, step)]. *)
Definition py_range (start stop step : Z) : result (list Z) :=
  if decide (step = 0) then Raise ValueError
  else
    let n := if decide (0 < step) then (stop - start + step - 1) / step
             else (start - stop - step - 1) / (- step) in
    Ok (map (fun i => start + Z.of_nat i * step) (seq 0 (Z.to_nat n))).

(** [X = np.array(mat, dtype=np.uint8)]. *)
Definition uint8_entry (mat : ndarray) (l i : nat) : Z := nd_at mat l i mod 256.

(** The state of the loops of [build_spike_trains]. *)
Record trains : Type := {
  tr_times : list (list Z);
  tr_indices : list (list Z);
  tr_pos : nat
}.

(** "Offset the first spike time to time_offs":
    [min_t = min(map(rmin, input_times))], then [t - min_t + time_offs]
    for every spike. *)
Definition offset_times (times : list (list Z)) (time_offs : Z)
  : result (list (list xfloat)) :=
  min_t <- xmin (map rmin times);;
  Ok (map (map (fun t => xadd (xsub (Fin t) min_t) (Fin time_offs))) times).

Section SpikeTrains.
Context (normal : nat -> Z -> Z -> Z).
Context (uniform : nat -> Q).

(** The body of the innermost loop, for sample [l] (tag [sIdx], slot
    start [t]), bit [i] and replica [j]. *)
Definition emit (mat : ndarray) (s : nat) (p : InputParameters) (sIdx t : Z)
  (l : nat) (st : trains) (ij : nat * nat) : trains :=
  let '(i, j) := ij in
  let '(train, pos) :=
    InputParams.build_spike_train normal uniform p (uint8_entry mat l i) t (tr_pos st) in
  let idx := (i * s + j)%nat in
  {| tr_times := alter (fun old => old ++ train) idx (tr_times st);
     tr_indices := alter (fun old => old ++ replicate (length train) sIdx) idx (tr_indices st);
     tr_pos := pos |}.

(** [for l in xrange(N)]: the state carries [sIdx] and [t]. *)
Definition sample_step (mat : ndarray) (s : nat) (p : InputParameters)
  (st : trains * Z * Z) (l : nat) : trains * Z * Z :=
  let '(tr, sIdx, t) := st in
  let m := (nd_shape mat).2 in
  (foldl (emit mat s p sIdx t l) tr (list_prod (seq 0 m) (seq 0 s)),
   sIdx + 1, t + time_window p).

(** [for ip in input_params]. *)
Definition block_step (mat : ndarray) (s : nat) (input_params_delay : Z)
  (st : trains * Z * Z) (p : InputParameters) : trains * Z * Z :=
  let N := (nd_shape mat).1 in
  let '(tr, sIdx, t) := foldl (sample_step mat s p) st (seq 0 N) in
  (tr, sIdx, t + time_window p * input_params_delay).

Definition build_spike_trains (mat : ndarray) (time_offs : Z)
  (topology_params : TopologyParameters) (input_params : list InputParameters)
  (input_params_delay : Z) (pos : nat)
  : result (list (list xfloat) * list (list Z) * list Z * nat) :=
  let N := (nd_shape mat).1 in
  let m := (nd_shape mat).2 in
  let s := multiplicity topology_params in
  let init := {| tr_times := replicate (s * m) [];
                 tr_indices := replicate (s * m) [];
                 tr_pos := pos |} in
  let '(tr, _, _) := foldl (block_step mat s input_params_delay) (init, 0, 0) input_params in
  input_times <- offset_times (tr_times tr) time_offs;;
  input_split <- py_range (Z.of_nat N)
                   (Z.of_nat N * (Z.of_nat (length input_params) + 1)) (Z.of_nat N);;
  Ok (input_times, tr_indices tr, input_split, tr_pos tr).

End SpikeTrains.

(** The part of the network description of the PyNNLess library
    ([pynl.Network]) the builder uses: [add_population] appends one
    population, [add_connections] appends a list of connections. *)
Record Network : Type := {
  net_populations : list Population;
  net_connections : list connection
}.

Definition add_population (net : Network) (p : Population) : Network :=
  {| net_populations := net_populations net ++ [p];
     net_connections := net_connections net |}.

Definition add_connections (net : Network) (cs : list connection) : Network :=
  {| net_populations := net_populations net;
     net_connections := net_connections net ++ cs |}.

Definition in_coord (s i k : nat) : coord := (0%nat, (i * s + k)%nat).
Definition out_coord (s j l : nat) : coord := (1%nat, (j * s + l)%nat).

Section Topology.
Context (normal : nat -> Q -> Q -> Q).
Context (clamp_parameters : gmap string Q -> gmap string Q).
(** [mem i j] is the entry [mem[i, j]] of the BiNAM trained with the
    samples of the builder. *)
Context (mem : nat -> nat -> Z).

(** [list(t.draw() for _ in xrange(count))]. *)
Fixpoint draw_params (t : TopologyParameters) (count pos : nat)
  : result (list (gmap string Q) * nat) :=
  match count with
  | O => Ok ([], pos)
  | S count' =>
      d <- TopologyParams.draw normal clamp_parameters t pos;;
      rest <- draw_params t count' d.2;;
      Ok (d.1 :: rest.1, rest.2)
  end.

(** [[(in_coord(i, k), out_coord(j, l), t.draw_weight(), 0.0)
      for k in xrange(s) for l in xrange(s)]]. *)
Fixpoint connect (t : TopologyParameters) (s i j : nat) (kls : list (nat * nat))
  (pos : nat) : list connection * nat :=
  match kls with
  | [] => ([], pos)
  | (k, l) :: kls' =>
      let '(weight, pos1) := TopologyParams.draw_weight normal t pos in
      let '(cs, pos2) := connect t s i j kls' pos1 in
      ((in_coord s i k, out_coord s j l, weight, 0%Q) :: cs, pos2)
  end.

(** The body of [for i in xrange(m): for j in xrange(n)]. *)
Definition connect_step (t : TopologyParameters) (s : nat) (st : Network * nat)
  (ij : nat * nat) : Network * nat :=
  let '(net, pos) := st in
  let '(i, j) := ij in
  if decide (mem i j <> 0) then
    let '(cs, pos') := connect t s i j (list_prod (seq 0 s) (seq 0 s)) pos in
    (add_connections net cs, pos')
  else (net, pos).

Definition build_topology (data_params : DataParameters)
  (topology_params : TopologyParameters) (pos : nat) : result (Network * nat) :=
  let m := n_bits_in data_params in
  let n := n_bits_out data_params in
  let t := topology_params in
  let s := multiplicity t in
  let net := {| net_populations := []; net_connections := [] |} in
  let net := add_population net
               {| pop_count := m * s; pop_type := TYPE_SOURCE;
                  pop_params := replicate (m * s) ∅; pop_record := [] |} in
  out_params <- draw_params t (n * s) pos;;
  let net := add_population net
               {| pop_count := n * s; pop_type := neuron_type t;
                  pop_params := out_params.1; pop_record := [SIG_SPIKES] |} in
  Ok (foldl (connect_step t s) (net, out_params.2) (list_prod (seq 0 m) (seq 0 n))).

End Topology.

End NetworkBuilder.

(** ** Example data *)

Module Examples.

Definition ex_data_params : DataParameters :=
  {| n_bits_in := 1; n_bits_out := 1; n_ones_in := 1; n_ones_out := 1; n_samples := 2 |}.

Definition ex_topology_params : TopologyParameters :=
  {| params := ∅; param_noise := ∅; multiplicity := 1;
     neuron_type := TYPE_IF_COND_EXP; w := 3 # 100; sigma_w := 0 |}.

Definition ex_input_params : InputParameters :=
  {| burst_size := 1; time_window := 100; isi := 1; sigma_t := 0;
     sigma_t_offs := 0; p0 := 0; p1 := 0 |}.

Definition ex_source : Population :=
  {| pop_count := 1; pop_type := TYPE_SOURCE;
     pop_params := [∅]; pop_record := [] |}.

Definition ex_target : Population :=
  {| pop_count := 1; pop_type := TYPE_IF_COND_EXP;
     pop_params := [∅]; pop_record := [SIG_SPIKES] |}.

(** A unit with one input and one output neuron and two samples. *)
Definition ex_unit : Instance.t :=
  {| Instance.populations := [ex_source; ex_target];
     Instance.connections := [((0, 0), (1, 0), 3 # 100, 0%Q)]%nat;
     Instance.input_times := [[0; 100]];
     Instance.input_indices := [[0; 1]];
     Instance.input_split := [2];
     Instance.input_params := [ex_input_params];
     Instance.data_params := ex_data_params;
     Instance.topology_params := ex_topology_params;
     Instance.meta_data := "";
     Instance.mat_in := MList [];
     Instance.mat_out := MList [] |}.

(** A unit without populations and input trains, as the constructor
    of [NetworkInstance] builds it from its defaults. *)
Definition ex_empty_unit : Instance.t :=
  {| Instance.populations := [];
     Instance.connections := [];
     Instance.input_times := [];
     Instance.input_indices := [];
     Instance.input_split := [];
     Instance.input_params := [ex_input_params];
     Instance.data_params := ex_data_params;
     Instance.topology_params := ex_topology_params;
     Instance.meta_data := "";
     Instance.mat_in := MList [];
     Instance.mat_out := MList [] |}.

(** An analysis record with one input and one output neuron in which
    the spike of sample 1 (time 100) precedes the spike of sample 0
    (time 120): the jitter of the encoding exceeds the spacing of the
    samples.  The output spikes at 101 and 121 carry the tags that
    [match_static] gives them, 1 and 0. *)
Definition ex_jitter_analysis : Analysis.t :=
  {| Analysis.input_times := [[120; 100]];
     Analysis.input_indices := [[0; 1]];
     Analysis.output_times := [[101; 121]];
     Analysis.output_indices := [[1; 0]];
     Analysis.input_params := ex_input_params;
     Analysis.data_params := ex_data_params;
     Analysis.topology_params := ex_topology_params;
     Analysis.meta_data := "";
     Analysis.mat_in := MList [];
     Analysis.mat_out := MList [] |}.

(** Topology parameters with a negative weight and no weight jitter. *)
Definition ex_negative_weight : TopologyParameters :=
  {| params := ∅; param_noise := ∅; multiplicity := 1;
     neuron_type := TYPE_IF_COND_EXP; w := (-3) # 100; sigma_w := 0 |}.

(** Topology parameters with weight jitter and two replicas per bit. *)
Definition ex_jitter_weight : TopologyParameters :=
  {| params := {["cm" := 1 # 5]}; param_noise := ∅; multiplicity := 2;
     neuron_type := TYPE_IF_COND_EXP; w := 3 # 100; sigma_w := 1 # 100 |}.

End Examples.

(** ** Vocabulary of the statements *)

(** Two lists of trains have the same shape: as many neurons, and as
    many entries for each neuron. *)
Definition same_shape (times indices : list (list Z)) : Prop :=
  Forall2 (fun ts ks => length ts = length ks) times indices.

(** The events of one neuron that [split] retains, in their order. *)
Definition kept (k0 k1 : Z) (ts ks : list Z) : list (Z * Z) :=
  filter (fun e => k0 <= e.2 /\ e.2 < k1) (zip ts ks).

(** The spatial split boundaries after adding [units] to a pool that
    holds [last.1] populations and [last.2] input trains. *)
Fixpoint boundaries (last : nat * nat) (units : list Instance.t) : list (nat * nat) :=
  match units with
  | [] => []
  | u :: units' =>
      let next := ((last.1 + length (Instance.populations u))%nat,
                   (last.2 + length (Instance.input_times u))%nat) in
      next :: boundaries next units'
  end.

(** All spikes of a list of trains as (time, tag) pairs. *)
Definition input_events (times indices : list (list Z)) : list (Z * Z) :=
  concat (zip_with zip times indices).

(** The (time, tag) pair of an entry of the flat arrays. *)
Definition event (s : NetworkInstance.flat_spike) : Z * Z :=
  (NetworkInstance.fs_time s, NetworkInstance.fs_tag s).

(** Tags that an [np.int32] cell holds exactly. *)
Definition int32 (k : Z) : Prop := - 2 ^ 31 <= k < 2 ^ 31.
Definition tags_int32 (indices : list (list Z)) : Prop := Forall (Forall int32) indices.

(** The tag [k] is the tag of a spike of [S] that comes latest among the
    spikes [before] time [t]; or no spike of [S] is [before] [t] and [k]
    is the tag of an earliest spike of [S]; or [S] has no spike and [k]
    is 0.  The source is read with [before := Z.lt]. *)
Definition nearest_preceding (before : Z -> Z -> Prop) (S : list (Z * Z)) (t k : Z)
  : Prop :=
  (exists t', (t', k) ∈ S /\ before t' t
              /\ forall e, e ∈ S -> before e.1 t -> e.1 <= t')
  \/ ((forall e, e ∈ S -> ~ before e.1 t)
      /\ exists t', (t', k) ∈ S /\ forall e, e ∈ S -> t' <= e.1)
  \/ (S = [] /\ k = 0).

(** The latency of sample [k] in the words of the specification: the
    time of the last output spike carrying tag [k] minus the time of the
    last input spike carrying tag [k], and infinity if either is
    missing. *)
Definition last_time (events : list (Z * Z)) (k : Z) : option Z :=
  match filter (fun e => e.2 = k) events with
  | [] => None
  | e :: es => Some (foldl Z.max e.1 (map fst es))
  end.

Definition spec_latency (self : Analysis.t) (k : Z) : NetworkAnalysis.latency :=
  match last_time (input_events (Analysis.input_times self) (Analysis.input_indices self)) k,
        last_time (input_events (Analysis.output_times self) (Analysis.output_indices self)) k
  with
  | Some tin, Some tout => NetworkAnalysis.Finite (tout - tin)
  | _, _ => NetworkAnalysis.Infinite
  end.

Definition spec_latencies (self : Analysis.t) : list NetworkAnalysis.latency :=
  map (fun k => spec_latency self (Z.of_nat k))
      (seq 0 (n_samples (Analysis.data_params self))).

(** The count of cell [(k, j)] in the words of the specification: the
    number of output spikes tagged [k] on the neurons of bit group [j],
    the neurons [n] with [n // s = j]. *)
Definition spec_count (self : Analysis.t) (k j : nat) : Z :=
  let s := multiplicity (Analysis.topology_params self) in
  let tagged := concat (imap (fun n ks => map (pair n) ks) (Analysis.output_indices self)) in
  Z.of_nat (length (filter (fun e => (e.1 / s)%nat = j /\ e.2 = Z.of_nat k) tagged)).

Definition spec_counts (self : Analysis.t) : list (list Z) :=
  let '(N, n) := NetworkAnalysis.output_shape self in
  map (fun k => map (fun j => spec_count self k j) (seq 0 n)) (seq 0 N).

(** The weight [draw_weight] returns when the generator has produced
    [pos] values: the configured weight without jitter, and otherwise a
    draw that is clipped at zero. *)
Definition weight_at (normal : nat -> Q -> Q -> Q) (t : TopologyParameters)
  (pos : nat) : Q :=
  if Qlt_le_dec 0 (sigma_w t)
  then TopologyParams.clip (normal pos (w t) (sigma_w t))
  else w t.

(** The two endpoints of a connection. *)
Definition endpoints (c : connection) : coord * coord := (c.1.1.1, c.1.1.2).
Definition weight (c : connection) : Q := c.1.2.
Definition delay (c : connection) : Q := c.2.

(** The endpoint pairs between all replicas of input bit [i] and output
    bit [j]. *)
Definition replica_pairs (s i j : nat) : list (coord * coord) :=
  map (fun kl => (NetworkBuilder.in_coord s i kl.1, NetworkBuilder.out_coord s j kl.2))
      (list_prod (seq 0 s) (seq 0 s)).

(** The spikes of a later sample are never earlier in time than those
    of an earlier sample: among the events, a smaller time comes with a
    tag that is not larger. *)
Definition tags_follow_time (events : list (Z * Z)) : Prop :=
  forall e1 e2, e1 ∈ events -> e2 ∈ events -> e1.1 < e2.1 -> e1.2 <= e2.2.

(** The lexicographic order on (time, tag) pairs. *)
Definition lex_le (e1 e2 : Z * Z) : Prop :=
  e1.1 < e2.1 \/ (e1.1 = e2.1 /\ e1.2 <= e2.2).

(** The (neuron, tag) pair of an entry of the flat arrays. *)
Definition neuron_tag (s : NetworkInstance.flat_spike) : nat * Z :=
  (NetworkInstance.fs_neuron s, NetworkInstance.fs_tag s).

(** How often column [j] occurs in a list of columns. *)
Definition hits (cols : list nat) (j : nat) : Z :=
  Z.of_nat (length (filter (fun c => c = j) cols)).

(** The order [np.lexsort((kF, tF))] establishes, in index form. *)
Definition lex_ascending (S : list (Z * Z)) : Prop :=
  forall i j e1 e2, (i <= j)%nat -> S !! i = Some e1 -> S !! j = Some e2 ->
    e1.1 < e2.1 \/ (e1.1 = e2.1 /\ e1.2 <= e2.2).

(** The running minimum [acc] of the per-neuron minima is the least of
    the spikes [seen] so far, or infinite when there was none. *)
Definition least_of (acc : NetworkBuilder.xfloat) (seen : list Z) : Prop :=
  (seen = [] /\ acc = NetworkBuilder.PInf)
  \/ (exists m, acc = NetworkBuilder.Fin m /\ m ∈ seen /\ forall t, t ∈ seen -> m <= t).

(** The number of generator values one weight consumes. *)
Definition weight_draws (t : TopologyParameters) : nat :=
  if Qlt_le_dec 0 (sigma_w t) then 1%nat else 0%nat.

(** The bundle of entry [(i, j)] of the memory [mem]: nothing for a zero
    entry, one connection per pair of replicas otherwise. *)
Definition bundle_of (mem : nat -> nat -> Z) (s : nat) (ij : nat * nat)
  (cs : list connection) : Prop :=
  if decide (mem ij.1 ij.2 <> 0) then map endpoints cs = replica_pairs s ij.1 ij.2
  else cs = [].

(** No neuron parameter has a positive standard deviation. *)
Definition noise_free (t : TopologyParameters) : Prop :=
  forall key sigma,
    is_Some (params t !! key) -> param_noise t !! key = Some sigma -> ~ (0 < sigma)%Q.

(** Index form of sortedness. *)
Definition ascending (a : list Z) : Prop :=
  forall i j x y, (i <= j)%nat -> a !! i = Some x -> a !! j = Some y -> x <= y.

(** Running sums [a + n1, a + n1 + n2, ...]. *)
Fixpoint cumul (a : nat) (ns : list nat) : list nat :=
  match ns with
  | [] => []
  | n :: ns' => (a + n)%nat :: cumul (a + n) ns'
  end.

(** The slices [l[last:b1], l[b1:b2], ...] of a list at consecutive
    bounds. *)
Fixpoint slices {A : Type} (last : nat) (bounds : list nat) (l : list A)
  : list (list A) :=
  match bounds with
  | [] => []
  | b :: bounds' => NetworkPool.py_slice last b l :: slices b bounds' l
  end.

(** The analysis of every unit on its own inputs and on its own part of
    the simulator output, concatenated in unit order. *)
Fixpoint analyse_units (units : list Instance.t) (outputs : list (list pop_output))
  : result (list Analysis.t) :=
  match units, outputs with
  | u :: units', o :: outputs' =>
      res <- NetworkInstanceAnalysis.build_analysis u o;;
      rest <- analyse_units units' outputs';;
      Ok (res ++ rest)
  | _, _ => Ok []
  end.

(** Orders on boundaries: both components grow, weakly or strictly. *)
Definition boundary_le (a b : nat * nat) : Prop := (a.1 <= b.1)%nat /\ (a.2 <= b.2)%nat.
Definition boundary_lt (a b : nat * nat) : Prop := (a.1 < b.1)%nat /\ (a.2 < b.2)%nat.

(** A unit that contributes at least one population and one input train. *)
Definition populated (u : Instance.t) : Prop :=
  Instance.populations u <> [] /\ Instance.input_times u <> [].

(** ** Vocabulary of the further statements *)

(** Every neuron has at least as many tags as spike times; a neuron
    without a tag train counts as one with no tags. *)
Definition covered (times indices : list (list Z)) : Prop :=
  forall i ts, times !! i = Some ts ->
    (length ts <= length (default [] (indices !! i)))%nat.

(** The entry [(t, k, n)] of the flat arrays is a spike of neuron [n]:
    for some position [j], [times[n][j] = t] and [indices[n][j] = k]. *)
Definition spike_of (times indices : list (list Z)) (t k : Z) (n : nat) : Prop :=
  exists ts ks j, times !! n = Some ts /\ indices !! n = Some ks
                  /\ ts !! j = Some t /\ ks !! j = Some k.

(** All tags of a list of tag trains lie in the window [[k0, k1)]. *)
Definition tags_within (k0 k1 : Z) (indices : list (list Z)) : Prop :=
  Forall (Forall (fun k => k0 <= k < k1)) indices.

(** A connection that refers to populations below [n]. *)
Definition connection_below (n : nat) (c : connection) : Prop :=
  (c.1.1.1.1 < n)%nat /\ (c.1.1.2.1 < n)%nat.

(** A connection that refers to populations in the range [[lo, hi)]. *)
Definition connection_between (lo hi : nat) (c : connection) : Prop :=
  (lo <= c.1.1.1.1 < hi)%nat /\ (lo <= c.1.1.2.1 < hi)%nat.

(** The lower bound of the [j]-th window of the temporal split
    [input_split], the first window starting at [k0]. *)
Definition window_start (k0 : Z) (input_split : list Z) (j : nat) : Z :=
  match j with
  | O => k0
  | S j' => default 0 (input_split !! j')
  end.

(** The connections of [units] as a pool stores them: those of each
    unit with the population indices moved up by the number of
    populations that precede the unit, [base] for the first one. *)
Fixpoint merged_connections (base : nat) (units : list Instance.t) : list connection :=
  match units with
  | [] => []
  | u :: units' =>
      map (NetworkPool.offset_connection base) (Instance.connections u)
      ++ merged_connections (base + length (Instance.populations u)) units'
  end.

(** A unit whose connections refer to its own populations only. *)
Definition closed_unit (u : Instance.t) : Prop :=
  Forall (connection_below (length (Instance.populations u))) (Instance.connections u).

(** An analysis record like [ex_jitter_analysis] in which the spikes of
    sample 0 precede those of sample 1. *)
Definition ex_ordered_analysis : Analysis.t :=
  {| Analysis.input_times := [[100; 120]];
     Analysis.input_indices := [[0; 1]];
     Analysis.output_times := [[101; 121]];
     Analysis.output_indices := [[0; 1]];
     Analysis.input_params := Examples.ex_input_params;
     Analysis.data_params := Examples.ex_data_params;
     Analysis.topology_params := Examples.ex_topology_params;
     Analysis.meta_data := EmptyString;
     Analysis.mat_in := MList [];
     Analysis.mat_out := MList [] |}.

(** Every output neuron belongs to one of the bit groups of the output
    matrix: neuron [i] to group [i // s]. *)
Definition grouped (self : Analysis.t) : Prop :=
  forall i, (i < length (Analysis.output_times self))%nat ->
    (i / multiplicity (Analysis.topology_params self)
     < (NetworkAnalysis.output_shape self).2)%nat.

(** A neuron parameter for which a positive standard deviation is
    configured. *)
Definition noisy (t : TopologyParameters) (key : string) : Prop :=
  is_Some (params t !! key)
  /\ exists sigma, param_noise t !! key = Some sigma /\ (0 < sigma)%Q.

(** Topology parameters with noise on the membrane capacitance. *)
Definition ex_noisy_params : TopologyParameters :=
  {| params := {["cm" := 1 # 5]}; param_noise := {["cm" := 1 # 10]}; multiplicity := 1;
     neuron_type := TYPE_IF_COND_EXP; w := 3 # 100; sigma_w := 0 |}.

(** The same with a parameter that is named ["key"]. *)
Definition ex_key_params : TopologyParameters :=
  {| params := <["key" := 1 # 1]> {["cm" := 1 # 5]};
     param_noise := {["cm" := 1 # 10]}; multiplicity := 1;
     neuron_type := TYPE_IF_COND_EXP; w := 3 # 100; sigma_w := 0 |}.

(** Spike trains and tag trains go together, every tag train is
    non-decreasing, and every tag lies in [[0, bound)]. *)
Definition tagged_below (bound : Z) (times indices : list (list Z)) : Prop :=
  Forall2 (fun ts ks => length ts = length ks) times indices
  /\ Forall (fun ks => Sorted Z.le ks /\ Forall (fun k => 0 <= k < bound) ks) indices.

(* ================================================================== *)
(** * Part II: properties *)
(* ================================================================== *)

(** ** The [result] type *)

Lemma bind_Ok {A B : Type} (r : result A) (k : A -> result B) (b : B) :
  bind r k = Ok b -> exists a, r = Ok a /\ k a = Ok b.
Proof. destruct r as [a|e]; simpl; [eauto | discriminate]. Qed.

Lemma mapM_Ok_length {A B : Type} (f : A -> result B) (l : list A) (l' : list B) :
  mapM f l = Ok l' -> length l' = length l.
Proof.
  revert l'. induction l as [|x l IH]; intros l' H; simpl in H.
  - by inversion H.
  - apply bind_Ok in H as (y & _ & H). apply bind_Ok in H as (ys & Hys & H).
    inversion H; subst. simpl. f_equal. by apply IH.
Qed.

Lemma mapM_total {A B : Type} (f : A -> result B) (g : A -> B) (l : list A) :
  (forall x, x ∈ l -> f x = Ok (g x)) -> mapM f l = Ok (map g l).
Proof.
  induction l as [|x l IH]; intros H; simpl; [done|].
  rewrite H by left. simpl. rewrite IH; [done|].
  intros y Hy. apply H. by right.
Qed.

Lemma lookup_map {A B : Type} (f : A -> B) (l : list A) (i : nat) :
  map f l !! i = f <$> l !! i.
Proof. exact (list_lookup_fmap f l i). Qed.

Lemma Forall2_of_maps {A B C D : Type} (f : A -> C) (g : B -> C)
  (f' : A -> D) (g' : B -> D) (l : list A) (k : list B) :
  map f l = map g k -> map f' l = map g' k ->
  Forall2 (fun a b => f a = g b /\ f' a = g' b) l k.
Proof.
  revert k. induction l as [|a l IH]; intros [|b k] H1 H2; simpl in *; try done.
  inversion H1. inversion H2. constructor; [done|]. by apply IH.
Qed.

Lemma zip_map_map {A B C : Type} (f : A -> B) (g : A -> C) (l : list A) :
  zip (map f l) (map g l) = map (fun e => (f e, g e)) l.
Proof. induction l as [|e l IH]; simpl; [done|]. by f_equal. Qed.

(** ** [split] *)

Section Split.
Import NetworkInstance.

Lemma split_train_kept ts ks k0 k1 :
  length ts = length ks ->
  split_train ts ks k0 k1
  = Ok (map fst (kept k0 k1 ts ks), map (fun e => e.2 - k0) (kept k0 k1 ts ks)).
Proof.
  revert ks. induction ts as [|t ts IH]; intros [|k ks] Hlen; try done.
  simpl in Hlen. simpl. rewrite IH by lia. simpl. unfold kept. simpl.
  case_decide as Hk.
  - rewrite filter_cons_True by done. done.
  - rewrite filter_cons_False by done. done.
Qed.

Lemma split_rows_kept times indices k0 k1 :
  same_shape times indices ->
  split_rows times indices k0 k1
  = Ok (zip_with (fun ts ks => map fst (kept k0 k1 ts ks)) times indices,
        zip_with (fun ts ks => map (fun e => e.2 - k0) (kept k0 k1 ts ks)) times indices).
Proof.
  induction 1 as [|ts ks times indices Hlen _ IH]; [done|].
  simpl. rewrite split_train_kept by done. simpl. by rewrite IH.
Qed.

End Split.

(** C2. For equal-shaped lists of spike-time trains and tag trains and all
    bounds [k0], [k1], [split] returns, for every neuron, exactly the
    events whose tag [k] satisfies [k0 <= k < k1], in their original
    order, with the tag rebased to [k - k0]; it returns one list per
    input neuron, empty if no event of the neuron is retained. *)
Theorem split_retains_window (times indices : list (list Z)) (k0 k1 : Z) :
  same_shape times indices ->
  exists times_part indices_part,
    NetworkInstance.split times indices k0 k1 = Ok (times_part, indices_part)
    /\ length times_part = length times
    /\ length indices_part = length times
    /\ forall i ts ks,
         times !! i = Some ts -> indices !! i = Some ks ->
         exists tp kp,
           times_part !! i = Some tp /\ indices_part !! i = Some kp
           /\ zip tp kp
              = map (fun e => (e.1, e.2 - k0))
                    (filter (fun e => k0 <= e.2 /\ e.2 < k1) (zip ts ks))
           /\ length tp = length kp.
Proof.
  intros Hshape. unfold NetworkInstance.split.
  rewrite split_rows_kept by done.
  eexists _, _. split; [done|].
  pose proof (Forall2_length _ _ _ Hshape) as Hlen.
  split; [by rewrite length_zip_with_l_eq|].
  split; [by rewrite length_zip_with_l_eq|].
  intros i ts ks Hts Hks.
  eexists _, _. split; [|split; [|split]].
  - rewrite lookup_zip_with, Hts. simpl. rewrite Hks. done.
  - rewrite lookup_zip_with, Hts. simpl. rewrite Hks. done.
  - fold (kept k0 k1 ts ks). apply zip_map_map.
  - by rewrite !length_map.
Qed.

Lemma split_retains_window_witness :
  same_shape [[0; 10]; [5; 5; 3]] [[1; 0]; [7; 6; 2]]
  /\ exists times_part indices_part,
       NetworkInstance.split [[0; 10]; [5; 5; 3]] [[1; 0]; [7; 6; 2]] 1 7
       = Ok (times_part, indices_part)
       /\ length times_part = 2%nat.
Proof.
  assert (H : same_shape [[0; 10]; [5; 5; 3]] [[1; 0]; [7; 6; 2]]).
  { repeat constructor. }
  split; [exact H|].
  destruct (split_retains_window [[0; 10]; [5; 5; 3]] [[1; 0]; [7; 6; 2]] 1 7 H)
    as (tp & kp & Hs & Hl & _).
  exists tp, kp. split; [exact Hs | exact Hl].
Defined.

(** ** [NetworkPool.add_network] *)

Section AddNetwork.
Import NetworkPool.

Lemma adapt_connections_app nP0 (old new : list connection) :
  adapt_connections nP0 (length old) (length (old ++ new)) (old ++ new)
  = old ++ map (offset_connection nP0) new.
Proof.
  unfold adapt_connections. rewrite length_app.
  replace (length old + length new - length old)%nat with (length new) by lia.
  revert old. induction new as [|c new IH]; intros old; simpl.
  - done.
  - rewrite alter_app_r_alt by lia. rewrite Nat.sub_diag. simpl.
    specialize (IH (old ++ [offset_connection nP0 c])).
    rewrite length_app in IH. simpl in IH.
    replace (length old + 1)%nat with (S (length old)) in IH by lia.
    rewrite <- !(assoc_L (++)) in IH. simpl in IH. exact IH.
Qed.

End AddNetwork.

(** C3. For every pool state and every added unit, [add_network] appends
    the unit's populations, connections, input spike trains and input
    tags to the merged lists; both endpoints of each newly added
    connection get the pre-merge population count added to their
    population index, while local neuron indices, weight and delay stay
    as they are; the connections already in the pool are not touched;
    and exactly one spatial split boundary is appended, the post-merge
    (population count, input train count) pair. *)
Theorem add_network_appends (self : Pool.t) (network : Instance.t) :
  let nP0 := length (Pool.populations self) in
  let self' := NetworkPool.add_network self network in
  Pool.populations self' = Pool.populations self ++ Instance.populations network
  /\ Pool.connections self'
     = Pool.connections self
       ++ map (fun c : connection =>
                 let '(src, tar, weight, delay) := c in
                 (((src.1 + nP0)%nat, src.2), ((tar.1 + nP0)%nat, tar.2), weight, delay))
              (Instance.connections network)
  /\ Pool.input_times self' = Pool.input_times self ++ Instance.input_times network
  /\ Pool.input_indices self' = Pool.input_indices self ++ Instance.input_indices network
  /\ Pool.spatial_split self'
     = Pool.spatial_split self
       ++ [(length (Pool.populations self'), length (Pool.input_times self'))].
Proof.
  simpl. repeat split.
  rewrite adapt_connections_app. f_equal.
  apply map_ext. by intros [[[[p i] [q j]] weight] delay].
Qed.

(** ** Spatial split boundaries of a pool *)

Section PoolInvariant.
Import NetworkPool.

Lemma add_networks_fields (self : Pool.t) (units : list Instance.t) :
  Pool.populations (add_networks self units)
  = Pool.populations self ++ concat (map Instance.populations units)
  /\ Pool.input_times (add_networks self units)
     = Pool.input_times self ++ concat (map Instance.input_times units)
  /\ Pool.input_indices (add_networks self units)
     = Pool.input_indices self ++ concat (map Instance.input_indices units)
  /\ Pool.spatial_split (add_networks self units)
     = Pool.spatial_split self
       ++ boundaries (length (Pool.populations self), length (Pool.input_times self)) units.
Proof.
  revert self. induction units as [|u units IH]; intros self; simpl.
  - by rewrite !app_nil_r.
  - destruct (IH (add_network self u)) as (Hp & Ht & Hk & Hs).
    unfold add_networks in *. rewrite Hp, Ht, Hk, Hs. simpl.
    rewrite !length_app, <- !(assoc_L (++)). done.
Qed.

Lemma boundaries_fst last units :
  map fst (boundaries last units)
  = cumul last.1 (map (fun u => length (Instance.populations u)) units).
Proof.
  revert last. induction units as [|u units IH]; intros last; simpl; [done|].
  f_equal. by rewrite IH.
Qed.

Lemma boundaries_snd last units :
  map snd (boundaries last units)
  = cumul last.2 (map (fun u => length (Instance.input_times u)) units).
Proof.
  revert last. induction units as [|u units IH]; intros last; simpl; [done|].
  f_equal. by rewrite IH.
Qed.

Lemma boundaries_le last units :
  Forall (boundary_le last) (boundaries last units)
  /\ StronglySorted boundary_le (boundaries last units).
Proof.
  revert last. induction units as [|u units IH]; intros last; simpl.
  - split; constructor.
  - destruct (IH ((last.1 + length (Instance.populations u))%nat,
                  (last.2 + length (Instance.input_times u))%nat)) as [Hall Hs].
    split.
    + constructor; [unfold boundary_le; simpl; lia|].
      eapply Forall_impl; [exact Hall|].
      unfold boundary_le. simpl. intros b. lia.
    + by constructor.
Qed.

Lemma boundaries_lt last units :
  Forall populated units ->
  Forall (boundary_lt last) (boundaries last units)
  /\ StronglySorted boundary_lt (boundaries last units).
Proof.
  intros Hpop. revert last.
  induction Hpop as [|u units [Hu1 Hu2] _ IH]; intros last; simpl.
  - split; constructor.
  - destruct (IH ((last.1 + length (Instance.populations u))%nat,
                  (last.2 + length (Instance.input_times u))%nat)) as [Hall Hs].
    assert (0 < length (Instance.populations u))%nat by (destruct (Instance.populations u); simpl; [done|lia]).
    assert (0 < length (Instance.input_times u))%nat by (destruct (Instance.input_times u); simpl; [done|lia]).
    split.
    + constructor; [unfold boundary_lt; simpl; lia|].
      eapply Forall_impl; [exact Hall|].
      unfold boundary_lt. simpl. intros b. lia.
    + by constructor.
Qed.

Lemma slices_concat {A : Type} (ls : list (list A)) (pre post : list A) :
  slices (length pre) (cumul (length pre) (map length ls)) (pre ++ concat ls ++ post) = ls.
Proof.
  revert pre. induction ls as [|l ls IH]; intros pre; simpl; [done|].
  f_equal.
  - unfold py_slice. rewrite drop_app_length.
    replace (length pre + length l - length pre)%nat with (length l) by lia.
    rewrite <- (assoc_L (++)). by rewrite take_app_length.
  - specialize (IH (pre ++ l)). rewrite length_app in IH.
    rewrite <- !(assoc_L (++)) in IH. rewrite <- !(assoc_L (++)). exact IH.
Qed.

Lemma slices_cover {A : Type} (ns : list nat) (a : nat) (l : list A) :
  concat (slices a (cumul a ns) l) = take (foldr Nat.add 0%nat ns) (drop a l).
Proof.
  revert a. induction ns as [|n ns IH]; intros a; simpl; [done|].
  rewrite IH. unfold py_slice.
  replace (a + n - a)%nat with n by lia.
  rewrite <- (take_drop n (take (n + foldr Nat.add 0%nat ns) (drop a l))).
  rewrite take_take, Nat.min_l by lia. f_equal.
  rewrite <- take_drop_commute, drop_drop. done.
Qed.

Lemma slices_lengths {A : Type} (ns : list nat) (a : nat) (l : list A) :
  (a + foldr Nat.add 0 ns <= length l)%nat ->
  map length (slices a (cumul a ns) l) = ns.
Proof.
  revert a. induction ns as [|n ns IH]; intros a Hlen; simpl in *; [done|].
  f_equal.
  - unfold py_slice. rewrite length_take, length_drop. lia.
  - apply IH. lia.
Qed.

Lemma spatial_parts_input_times self output last splits :
  map part_input_times (spatial_parts self output last splits)
  = slices last.2 (map snd splits) (Pool.input_times self).
Proof.
  revert last. induction splits as [|b splits IH]; intros last; simpl; [done|].
  by rewrite IH.
Qed.

Lemma spatial_parts_input_indices self output last splits :
  map part_input_indices (spatial_parts self output last splits)
  = slices last.2 (map snd splits) (Pool.input_indices self).
Proof.
  revert last. induction splits as [|b splits IH]; intros last; simpl; [done|].
  by rewrite IH.
Qed.

Lemma spatial_parts_output self output last splits :
  map part_output (spatial_parts self output last splits)
  = slices last.1 (map fst splits) output.
Proof.
  revert last. induction splits as [|b splits IH]; intros last; simpl; [done|].
  by rewrite IH.
Qed.

Lemma demultiplex_parts self output i last splits :
  demultiplex self output i last splits
  = analyse_parts self i (spatial_parts self output last splits).
Proof.
  revert i last. induction splits as [|b splits IH]; intros i last; simpl; [done|].
  by rewrite IH.
Qed.

Lemma add_networks_descriptors (self : Pool.t) (units : list Instance.t) :
  Pool.input_split (add_networks self units)
  = Pool.input_split self ++ map Instance.input_split units
  /\ Pool.input_params (add_networks self units)
     = Pool.input_params self ++ map Instance.input_params units
  /\ Pool.data_params (add_networks self units)
     = Pool.data_params self ++ map Instance.data_params units
  /\ Pool.topology_params (add_networks self units)
     = Pool.topology_params self ++ map Instance.topology_params units
  /\ Pool.meta_data (add_networks self units)
     = Pool.meta_data self ++ map Instance.meta_data units
  /\ Pool.mat_in (add_networks self units)
     = Pool.mat_in self ++ map Instance.mat_in units
  /\ Pool.mat_out (add_networks self units)
     = Pool.mat_out self ++ map Instance.mat_out units.
Proof.
  revert self. induction units as [|u units IH]; intros self; simpl.
  - by rewrite !app_nil_r.
  - destruct (IH (add_network self u)) as (H1 & H2 & H3 & H4 & H5 & H6 & H7).
    unfold add_networks in *. rewrite H1, H2, H3, H4, H5, H6, H7. simpl.
    by rewrite <- !(assoc_L (++)).
Qed.

(** The analysis of the parts of a pool is the analysis of the units,
    when the part of every unit carries the input of that unit and the
    pool stores the descriptors of the units from position [i] on. *)
Lemma analyse_parts_units (self : Pool.t) (units : list Instance.t)
  (parts : list part) (i : nat) :
  Forall2 (fun p u => part_input_times p = Instance.input_times u
                      /\ part_input_indices p = Instance.input_indices u) parts units ->
  (forall j u, units !! j = Some u ->
     Pool.input_split self !! (i + j)%nat = Some (Instance.input_split u)
     /\ Pool.input_params self !! (i + j)%nat = Some (Instance.input_params u)
     /\ Pool.data_params self !! (i + j)%nat = Some (Instance.data_params u)
     /\ Pool.topology_params self !! (i + j)%nat = Some (Instance.topology_params u)
     /\ Pool.meta_data self !! (i + j)%nat = Some (Instance.meta_data u)
     /\ Pool.mat_in self !! (i + j)%nat = Some (Instance.mat_in u)
     /\ Pool.mat_out self !! (i + j)%nat = Some (Instance.mat_out u)) ->
  analyse_parts self i parts = analyse_units units (map part_output parts).
Proof.
  intros Hparts. revert i.
  induction Hparts as [|p u parts units [Ht Hk] _ IH]; intros i Hdesc; [done|].
  cbn [analyse_parts analyse_units map].
  destruct (Hdesc 0%nat u eq_refl) as (H1 & H2 & H3 & H4 & H5 & H6 & H7).
  replace (i + 0)%nat with i in * by lia.
  assert (analyse_part self i p = NetworkInstanceAnalysis.build_analysis u (part_output p))
    as ->.
  { unfold analyse_part, NetworkInstanceAnalysis.build_analysis, getitem.
    rewrite H1, H2, H3, H4, H5, H6, H7, Ht, Hk. done. }
  rewrite (IH (S i)); [done|].
  intros j u' Hu'. replace (S i + j)%nat with (i + S j)%nat by lia.
  by apply Hdesc.
Qed.

Lemma length_concat_sum {A : Type} (ls : list (list A)) :
  length (concat ls) = foldr Nat.add 0%nat (map length ls).
Proof. induction ls as [|l ls IH]; simpl; [done|]. by rewrite length_app, IH. Qed.

End PoolInvariant.

(** C4 (as the code has it). In every pool reached from the empty pool
    by a sequence of [add_network] calls, the spatial split boundaries
    are non-decreasing in both components, and strictly increasing in
    both when every added unit has at least one population and one
    input train.  [build_analysis] analyses the parts cut at consecutive
    boundaries: the parts of the merged populations and input trains
    are exactly the populations and input trains of the units, in
    order (so are those of the input tags, when every unit has as many
    tag trains as input trains), and the parts of a simulator output
    with one entry per population are a partition of that output in
    which the part of a unit has as many entries as the unit has
    populations.  The records [build_analysis] returns are those of
    the units, each analysed on its own input and on its own part of
    the output. *)
Theorem pool_boundaries_partition (units : list Instance.t) (output : list pop_output) :
  let pool := NetworkPool.add_networks NetworkPool.empty units in
  let splits := Pool.spatial_split pool in
  let parts := NetworkPool.spatial_parts pool output (0%nat, 0%nat) splits in
  StronglySorted boundary_le splits
  /\ (Forall populated units -> StronglySorted boundary_lt splits)
  /\ NetworkPool.build_analysis pool output = NetworkPool.analyse_parts pool 0 parts
  /\ slices 0 (map fst splits) (Pool.populations pool) = map Instance.populations units
  /\ map NetworkPool.part_input_times parts = map Instance.input_times units
  /\ (Forall (fun u => length (Instance.input_indices u) = length (Instance.input_times u)) units ->
      map NetworkPool.part_input_indices parts = map Instance.input_indices units)
  /\ (length output = length (Pool.populations pool) ->
      concat (map NetworkPool.part_output parts) = output
      /\ map length (map NetworkPool.part_output parts)
         = map (fun u => length (Instance.populations u)) units)
  /\ (Forall (fun u => length (Instance.input_indices u) = length (Instance.input_times u)) units ->
      NetworkPool.build_analysis pool output
      = analyse_units units (map NetworkPool.part_output parts)).
Proof.
  intros pool splits parts.
  destruct (add_networks_fields NetworkPool.empty units) as (Hp & Ht & Hk & Hs).
  fold pool in Hp, Ht, Hk, Hs. fold splits in Hs. simpl in Hp, Ht, Hk, Hs.
  assert (Hfst : map fst splits
                 = cumul 0 (map length (map Instance.populations units))).
  { rewrite Hs, boundaries_fst. simpl. by rewrite map_map. }
  assert (Hsnd : map snd splits
                 = cumul 0 (map length (map Instance.input_times units))).
  { rewrite Hs, boundaries_snd. simpl. by rewrite map_map. }
  split; [rewrite Hs; apply boundaries_le|].
  split; [intros Hpop; rewrite Hs; by apply boundaries_lt|].
  split; [apply demultiplex_parts|].
  split.
  { rewrite Hfst, Hp.
    pose proof (slices_concat (map Instance.populations units) [] []) as H.
    simpl in H. by rewrite app_nil_r in H. }
  assert (Hindices :
            Forall (fun u => length (Instance.input_indices u)
                             = length (Instance.input_times u)) units ->
            map NetworkPool.part_input_indices parts = map Instance.input_indices units).
  { intros Hlen. unfold parts. rewrite spatial_parts_input_indices, Hsnd, Hk. simpl.
    pose proof (slices_concat (map Instance.input_indices units) [] []) as H.
    simpl in H. rewrite app_nil_r in H.
    replace (map length (map Instance.input_times units))
      with (map length (map Instance.input_indices units)); [exact H|].
    rewrite !map_map. apply Forall_fmap_ext_1.
    eapply Forall_impl; [exact Hlen|]. done. }
  assert (Htimes : map NetworkPool.part_input_times parts = map Instance.input_times units).
  { unfold parts. rewrite spatial_parts_input_times, Hsnd, Ht. simpl.
    pose proof (slices_concat (map Instance.input_times units) [] []) as H.
    simpl in H. by rewrite app_nil_r in H. }
  split; [exact Htimes|]. split; [exact Hindices|]. split.
  { intros Hout. unfold parts. rewrite spatial_parts_output, Hfst. simpl.
    assert (Hsum : foldr Nat.add 0%nat (map length (map Instance.populations units))
                   = length output).
    { rewrite Hout, Hp. by rewrite length_concat_sum. }
    split.
    - rewrite slices_cover, Hsum. simpl. by rewrite take_ge.
    - rewrite slices_lengths by (rewrite Hsum; simpl; lia). by rewrite map_map. }
  intros Hlen. unfold NetworkPool.build_analysis. rewrite demultiplex_parts.
  fold splits. fold parts. apply analyse_parts_units.
  - apply Forall2_of_maps; [exact Htimes|exact (Hindices Hlen)].
  - intros j u Hu.
    destruct (add_networks_descriptors NetworkPool.empty units)
      as (H1 & H2 & H3 & H4 & H5 & H6 & H7).
    fold pool in H1, H2, H3, H4, H5, H6, H7. simpl in H1, H2, H3, H4, H5, H6, H7.
    rewrite H1, H2, H3, H4, H5, H6, H7. simpl.
    rewrite !lookup_map, Hu. done.
Qed.

Lemma pool_boundaries_partition_witness :
  Forall populated [Examples.ex_unit; Examples.ex_unit]
  /\ StronglySorted boundary_lt
       (Pool.spatial_split
          (NetworkPool.add_networks NetworkPool.empty [Examples.ex_unit; Examples.ex_unit]))
  /\ concat (map NetworkPool.part_output
       (NetworkPool.spatial_parts
          (NetworkPool.add_networks NetworkPool.empty [Examples.ex_unit; Examples.ex_unit])
          [None; Some [[5]]; None; Some [[105]]] (0%nat, 0%nat)
          (Pool.spatial_split
             (NetworkPool.add_networks NetworkPool.empty [Examples.ex_unit; Examples.ex_unit]))))
     = [None; Some [[5]]; None; Some [[105]]].
Proof.
  assert (Hpop : Forall populated [Examples.ex_unit; Examples.ex_unit]).
  { repeat constructor; discriminate. }
  destruct (pool_boundaries_partition [Examples.ex_unit; Examples.ex_unit]
              [None; Some [[5]]; None; Some [[105]]])
    as (_ & Hlt & _ & _ & _ & _ & Hout & _).
  split; [exact Hpop|].
  split; [exact (Hlt Hpop)|].
  exact (proj1 (Hout eq_refl)).
Defined.

(** C4 as stated fails: after adding two units without populations and
    input trains the two boundaries coincide. *)
Lemma pool_boundaries_not_strict :
  ~ StronglySorted boundary_lt
      (Pool.spatial_split
         (NetworkPool.add_networks NetworkPool.empty
            [Examples.ex_empty_unit; Examples.ex_empty_unit])).
Proof.
  simpl. intros H. inversion H as [|a l _ Hall]; subst.
  inversion Hall as [|b l' [Hlt _] _]; subst. simpl in Hlt. lia.
Qed.

(** ** Binary search on sorted lists *)

Section Bisection.
Import Bisect.

Lemma StronglySorted_ascending (a : list Z) : StronglySorted Z.le a -> ascending a.
Proof.
  induction 1 as [|x a _ IH Hall]; intros i j y z Hij Hi Hj.
  - done.
  - destruct i as [|i], j as [|j]; simpl in *; simplify_eq.
    + lia.
    + rewrite Forall_forall in Hall. apply Hall. by eapply list_elem_of_lookup_2.
    + lia.
    + eapply IH; [|exact Hi|exact Hj]. lia.
Qed.

Lemma midpoint_bounds (lo hi : nat) :
  (lo < hi)%nat -> (lo <= (lo + hi) / 2 < hi)%nat.
Proof.
  intros H. pose proof (Nat.div_mod (lo + hi) 2).
  pose proof (Nat.mod_upper_bound (lo + hi) 2). lia.
Qed.

Lemma bisect_left_loop_S fuel a x lo hi :
  bisect_left_loop (S fuel) a x lo hi
  = if decide (lo < hi)%nat then
      match a !! ((lo + hi) / 2)%nat with
      | Some y =>
          if decide (y < x) then bisect_left_loop fuel a x ((lo + hi) / 2 + 1) hi
          else bisect_left_loop fuel a x lo ((lo + hi) / 2)
      | None => lo
      end
    else lo.
Proof. reflexivity. Qed.

Lemma bisect_right_loop_S fuel a x lo hi :
  bisect_right_loop (S fuel) a x lo hi
  = if decide (lo < hi)%nat then
      match a !! ((lo + hi) / 2)%nat with
      | Some y =>
          if decide (x < y) then bisect_right_loop fuel a x lo ((lo + hi) / 2)
          else bisect_right_loop fuel a x ((lo + hi) / 2 + 1) hi
      | None => lo
      end
    else lo.
Proof. reflexivity. Qed.

(** The loop of [bisect_left] keeps the invariant "everything left of
    [lo] is smaller than [x], everything from [hi] on is not", and ends
    with [lo = hi] when the counter is at least [hi - lo]. *)
Lemma bisect_left_loop_spec (a : list Z) (x : Z) :
  ascending a ->
  forall fuel lo hi,
    (hi - lo <= fuel)%nat -> (lo <= hi <= length a)%nat ->
    (forall i y, (i < lo)%nat -> a !! i = Some y -> y < x) ->
    (forall i y, (hi <= i)%nat -> a !! i = Some y -> x <= y) ->
    (lo <= bisect_left_loop fuel a x lo hi <= hi)%nat
    /\ (forall i y, (i < bisect_left_loop fuel a x lo hi)%nat -> a !! i = Some y -> y < x)
    /\ (forall i y, (bisect_left_loop fuel a x lo hi <= i)%nat -> a !! i = Some y -> x <= y).
Proof.
  intros Hasc. induction fuel as [|fuel IH]; intros lo hi Hfuel Hrange Hlo Hhi.
  - simpl. assert (lo = hi) by lia. subst. repeat split; auto; lia.
  - rewrite bisect_left_loop_S. case_decide as Hlt.
    + pose proof (midpoint_bounds lo hi Hlt) as Hmid.
      destruct (lookup_lt_is_Some_2 a ((lo + hi) / 2)) as [y Hy]; [lia|].
      rewrite Hy. case_decide as Hcmp.
      * edestruct (IH ((lo + hi) / 2 + 1)%nat hi) as (Hr & Hl & Hh); [lia|lia| |exact Hhi|].
        { intros i z Hi Hz.
          assert (z <= y) by (apply (Hasc i ((lo + hi) / 2)%nat); [lia|done|done]). lia. }
        repeat split; [lia|lia|exact Hl|exact Hh].
      * edestruct (IH lo ((lo + hi) / 2)%nat) as (Hr & Hl & Hh); [lia|lia|exact Hlo| |].
        { intros i z Hi Hz.
          assert (y <= z) by (apply (Hasc ((lo + hi) / 2)%nat i); [lia|done|done]). lia. }
        repeat split; [lia|lia|exact Hl|exact Hh].
    + assert (lo = hi) by lia. subst. repeat split; auto; lia.
Qed.

Lemma bisect_left_spec (a : list Z) (x : Z) :
  ascending a ->
  (bisect_left a x <= length a)%nat
  /\ (forall i y, (i < bisect_left a x)%nat -> a !! i = Some y -> y < x)
  /\ (forall i y, (bisect_left a x <= i)%nat -> a !! i = Some y -> x <= y).
Proof.
  intros Hasc. unfold bisect_left.
  destruct (bisect_left_loop_spec a x Hasc (length a) 0 (length a)) as (Hr & Hl & Hh).
  - lia.
  - lia.
  - intros i y Hi. lia.
  - intros i y Hi Hy. apply lookup_lt_Some in Hy. lia.
  - repeat split; [lia|exact Hl|exact Hh].
Qed.

Lemma bisect_right_loop_spec (a : list Z) (x : Z) :
  ascending a ->
  forall fuel lo hi,
    (hi - lo <= fuel)%nat -> (lo <= hi <= length a)%nat ->
    (forall i y, (i < lo)%nat -> a !! i = Some y -> y <= x) ->
    (forall i y, (hi <= i)%nat -> a !! i = Some y -> x < y) ->
    (lo <= bisect_right_loop fuel a x lo hi <= hi)%nat
    /\ (forall i y, (i < bisect_right_loop fuel a x lo hi)%nat -> a !! i = Some y -> y <= x)
    /\ (forall i y, (bisect_right_loop fuel a x lo hi <= i)%nat -> a !! i = Some y -> x < y).
Proof.
  intros Hasc. induction fuel as [|fuel IH]; intros lo hi Hfuel Hrange Hlo Hhi.
  - simpl. assert (lo = hi) by lia. subst. repeat split; auto; lia.
  - rewrite bisect_right_loop_S. case_decide as Hlt.
    + pose proof (midpoint_bounds lo hi Hlt) as Hmid.
      destruct (lookup_lt_is_Some_2 a ((lo + hi) / 2)) as [y Hy]; [lia|].
      rewrite Hy. case_decide as Hcmp.
      * edestruct (IH lo ((lo + hi) / 2)%nat) as (Hr & Hl & Hh); [lia|lia|exact Hlo| |].
        { intros i z Hi Hz.
          assert (y <= z) by (apply (Hasc ((lo + hi) / 2)%nat i); [lia|done|done]). lia. }
        repeat split; [lia|lia|exact Hl|exact Hh].
      * edestruct (IH ((lo + hi) / 2 + 1)%nat hi) as (Hr & Hl & Hh); [lia|lia| |exact Hhi|].
        { intros i z Hi Hz.
          assert (z <= y) by (apply (Hasc i ((lo + hi) / 2)%nat); [lia|done|done]). lia. }
        repeat split; [lia|lia|exact Hl|exact Hh].
    + assert (lo = hi) by lia. subst. repeat split; auto; lia.
Qed.

Lemma bisect_right_spec (a : list Z) (x : Z) :
  ascending a ->
  (bisect_right a x <= length a)%nat
  /\ (forall i y, (i < bisect_right a x)%nat -> a !! i = Some y -> y <= x)
  /\ (forall i y, (bisect_right a x <= i)%nat -> a !! i = Some y -> x < y).
Proof.
  intros Hasc. unfold bisect_right.
  destruct (bisect_right_loop_spec a x Hasc (length a) 0 (length a)) as (Hr & Hl & Hh).
  - lia.
  - lia.
  - intros i y Hi. lia.
  - intros i y Hi Hy. apply lookup_lt_Some in Hy. lia.
  - repeat split; [lia|exact Hl|exact Hh].
Qed.

End Bisection.

(** ** The stable sort *)

Section Sorting.
Context {A : Type} (leb : A -> A -> bool).
Context (leb_total : forall x y, leb x y = true \/ leb y x = true).

Lemma insert_sorted_perm (x : A) (l : list A) :
  Numpy.insert_sorted leb x l ≡ₚ x :: l.
Proof.
  induction l as [|y l IH]; simpl; [done|].
  destruct (leb x y); [done|]. rewrite IH. apply Permutation_swap.
Qed.

Lemma stable_sort_perm (l : list A) : Numpy.stable_sort leb l ≡ₚ l.
Proof.
  induction l as [|x l IH]; simpl; [done|].
  unfold Numpy.stable_sort in *. simpl. rewrite insert_sorted_perm. by rewrite IH.
Qed.

Lemma insert_sorted_HdRel (x y : A) (l : list A) :
  leb y x = true -> HdRel (fun a b => leb a b = true) y l ->
  HdRel (fun a b => leb a b = true) y (Numpy.insert_sorted leb x l).
Proof.
  intros Hyx Hhd. destruct l as [|z l]; simpl.
  - by constructor.
  - destruct (leb x z); constructor; [done|]. by inversion Hhd.
Qed.

Lemma insert_sorted_Sorted (x : A) (l : list A) :
  Sorted (fun a b => leb a b = true) l ->
  Sorted (fun a b => leb a b = true) (Numpy.insert_sorted leb x l).
Proof.
  induction 1 as [|y l Hs IH Hhd]; simpl.
  - repeat constructor.
  - destruct (leb x y) eqn:Hxy.
    + constructor; [by constructor|]. by constructor.
    + constructor; [exact IH|]. apply insert_sorted_HdRel; [|done].
      destruct (leb_total x y); congruence.
Qed.

Lemma stable_sort_Sorted (l : list A) :
  Sorted (fun a b => leb a b = true) (Numpy.stable_sort leb l).
Proof.
  induction l as [|x l IH]; simpl; [constructor|].
  by apply insert_sorted_Sorted.
Qed.

End Sorting.

(** ** [flatten] *)

Section Flatten.
Import NetworkInstance.

Lemma wrap32_int32 (k : Z) : int32 k -> Numpy.wrap32 k = k.
Proof.
  unfold int32, Numpy.wrap32. intros H.
  rewrite Z.mod_small; lia.
Qed.

Lemma flatten_train_events i ts ks :
  length ts = length ks -> Forall int32 ks ->
  exists row, flatten_train i ts ks = Ok row /\ map event row = zip ts ks.
Proof.
  revert ks. induction ts as [|t ts IH]; intros [|k ks] Hlen Hks; simpl in *; try done.
  - by exists [].
  - inversion Hks; subst.
    destruct (IH ks) as (row & -> & Hrow); [lia|done|].
    simpl. eexists. split; [done|]. simpl. rewrite Hrow.
    unfold event at 1. simpl. by rewrite wrap32_int32.
Qed.

Lemma flatten_rows_events i times indices :
  same_shape times indices -> tags_int32 indices ->
  exists flat, flatten_rows i times indices = Ok flat
               /\ map event flat = input_events times indices.
Proof.
  intros Hshape. revert i.
  induction Hshape as [|ts ks times indices Hlen _ IH]; intros i Htags; simpl.
  - by exists [].
  - inversion Htags; subst.
    destruct (flatten_train_events i ts ks) as (row & Hrow & Hev); [done|done|].
    destruct (IH (S i)) as (rest & -> & Hrest); [done|].
    assert (Hrow' : match ts with
                    | [] => Ok []
                    | _ :: _ => flatten_train i ts ks
                    end = Ok row).
    { destruct ts; [|done]. simpl in Hrow. done. }
    rewrite Hrow'. simpl. eexists. split; [done|].
    unfold input_events. simpl. rewrite map_app, Hev. f_equal. exact Hrest.
Qed.

Lemma spike_count_nonempty times :
  times <> [] -> exists n, spike_count times = Ok n.
Proof. destruct times; [done|]. intros _. unfold spike_count. simpl. eauto. Qed.

Lemma time_leb_total (a b : flat_spike) : time_leb a b = true \/ time_leb b a = true.
Proof.
  unfold time_leb. rewrite !bool_decide_eq_true. lia.
Qed.

Lemma Sorted_time_ascending (l : list flat_spike) :
  Sorted (fun a b => time_leb a b = true) l -> ascending (map fs_time l).
Proof.
  intros Hs. apply StronglySorted_ascending.
  assert (Hss : StronglySorted (fun a b => fs_time a <= fs_time b) l).
  { apply Sorted_StronglySorted.
    - intros a b c ??. lia.
    - eapply Sorted_LocallySorted_iff, Sorted_LocallySorted_iff.
      induction Hs as [|a l' Hs' IH Hhd]; constructor; [done|].
      destruct Hhd as [|b l'' Hab]; constructor.
      unfold time_leb in Hab. by apply bool_decide_eq_true in Hab. }
  clear Hs. induction Hss as [|a l' _ IH Hall]; simpl; constructor; [done|].
  rewrite Forall_forall. intros y Hy.
  apply list_elem_of_In, in_map_iff in Hy as (b & <- & Hb).
  rewrite Forall_forall in Hall. apply Hall. by apply list_elem_of_In.
Qed.

Lemma zip_time_tag (l : list flat_spike) :
  zip (map fs_time l) (map fs_tag l) = map event l.
Proof. apply zip_map_map. Qed.

(** With [sort_by_sample=False], [flatten] returns the spikes of the
    input ordered by time. *)
Lemma flatten_by_time times indices :
  times <> [] -> same_shape times indices -> tags_int32 indices ->
  exists tF kF nF,
    flatten times indices false = Ok (tF, kF, nF)
    /\ ascending tF /\ length tF = length kF
    /\ zip tF kF ≡ₚ input_events times indices.
Proof.
  intros Hne Hshape Htags. unfold flatten.
  destruct (spike_count_nonempty times Hne) as (n & ->).
  destruct (flatten_rows_events 0 times indices Hshape Htags) as (flat & -> & Hev).
  simpl. eexists _, _, _. split; [done|].
  split; [apply Sorted_time_ascending, stable_sort_Sorted, time_leb_total|].
  split; [by rewrite !length_map|].
  rewrite zip_time_tag, <- Hev. apply Permutation_map, stable_sort_perm.
Qed.

End Flatten.

(** ** [match_static] *)

Section Matching.
Import NetworkInstance.

Lemma nearest_preceding_perm before S S' t k :
  S ≡ₚ S' -> nearest_preceding before S t k -> nearest_preceding before S' t k.
Proof.
  intros HS [(t' & Hin & Hb & Hmax)|[(Hnone & t' & Hin & Hmin)|[-> ->]]].
  - left. exists t'. rewrite <- HS. split; [done|]. split; [done|].
    intros e He. apply Hmax. by rewrite HS.
  - right; left. split.
    + intros e He. apply Hnone. by rewrite HS.
    + exists t'. rewrite <- HS. split; [done|]. intros e He. apply Hmin. by rewrite HS.
  - right; right. split; [|done]. by apply Permutation_nil_l in HS.
Qed.

Lemma lookup_zip_Some (tIn kIn : list Z) i x k :
  zip tIn kIn !! i = Some (x, k) <-> tIn !! i = Some x /\ kIn !! i = Some k.
Proof.
  split.
  - intros (x' & k' & Heq & ? & ?)%lookup_zip_with_Some. by simplify_eq.
  - intros [? ?]. apply lookup_zip_with_Some. by exists x, k.
Qed.

(** One output spike: the loop body of [match_static] returns the tag of
    the latest input spike strictly before [t], the tag of the earliest
    input spike if there is none, and 0 without input spikes. *)
Lemma match_spike_nearest (tIn kIn : list Z) (t : Z) :
  ascending tIn -> length tIn = length kIn ->
  exists k, match_spike tIn kIn t = Ok k
            /\ nearest_preceding Z.lt (zip tIn kIn) t k.
Proof.
  intros Hasc Hlen. unfold match_spike. cbv zeta.
  destruct (bisect_left_spec tIn t Hasc) as (Hr & Hl & Hh).
  set (idx := Bisect.bisect_left tIn t) in *.
  destruct (decide (0 < idx)%nat) as [Hpos|Hpos].
  - (* a spike before t exists *)
    rewrite decide_True by lia.
    destruct (lookup_lt_is_Some_2 kIn (idx - 1)) as [k Hk]; [lia|].
    destruct (lookup_lt_is_Some_2 tIn (idx - 1)) as [t' Ht']; [lia|].
    unfold getitem. rewrite Hk. exists k. split; [done|]. left.
    exists t'. split; [|split].
    + eapply list_elem_of_lookup_2. by apply lookup_zip_Some.
    + apply (Hl (idx - 1)%nat); [lia|done].
    + intros [x k'] He Hx. simpl in *.
      apply list_elem_of_lookup_1 in He as [i Hi]. apply lookup_zip_Some in Hi as [Hi _].
      destruct (decide (i < idx)%nat) as [Hlt|Hge].
      * apply (Hasc i (idx - 1)%nat); [lia|done|done].
      * assert (t <= x) by (apply (Hh i); [lia|done]). lia.
  - assert (idx = 0%nat) as Hidx by lia. rewrite Hidx in *.
    destruct (decide (0 < length tIn)%nat) as [Hempty|Hempty].
    + (* no spike before t: the first spike *)
      destruct (lookup_lt_is_Some_2 kIn 0) as [k Hk]; [lia|].
      destruct (lookup_lt_is_Some_2 tIn 0) as [t' Ht']; [lia|].
      unfold getitem. rewrite Hk. exists k. split; [done|]. right; left. split.
      * intros [x k'] He. simpl.
        apply list_elem_of_lookup_1 in He as [i Hi]. apply lookup_zip_Some in Hi as [Hi _].
        assert (t <= x) by (apply (Hh i); [lia|done]). lia.
      * exists t'. split.
        { eapply list_elem_of_lookup_2. by apply lookup_zip_Some. }
        intros [x k'] He. simpl.
        apply list_elem_of_lookup_1 in He as [i Hi]. apply lookup_zip_Some in Hi as [Hi _].
        apply (Hasc 0%nat i); [lia|done|done].
    + (* no input spike at all *)
      exists 0. split; [done|]. right; right. split; [|done].
      destruct tIn; [done|]. simpl in Hempty. lia.
Qed.

Lemma mapM_Forall2 {A B : Type} (f : A -> result B) (P : A -> B -> Prop) (l : list A) :
  (forall x, exists y, f x = Ok y /\ P x y) ->
  exists l', mapM f l = Ok l' /\ Forall2 P l l'.
Proof.
  intros Hf. induction l as [|x l (l' & Hl' & HP)]; simpl.
  - exists []. by split.
  - destruct (Hf x) as (y & -> & Hy). simpl. rewrite Hl'. simpl.
    exists (y :: l'). split; [done|]. by constructor.
Qed.

(** All output spikes. *)
Lemma match_static_assigns input_times input_indices output_times :
  input_times <> [] -> same_shape input_times input_indices ->
  tags_int32 input_indices ->
  exists output_indices,
    match_static input_times input_indices output_times
    = Ok (output_times, output_indices)
    /\ Forall2 (Forall2 (nearest_preceding Z.lt (input_events input_times input_indices)))
         output_times output_indices.
Proof.
  intros Hne Hshape Htags. unfold match_static.
  destruct (flatten_by_time input_times input_indices Hne Hshape Htags)
    as (tIn & kIn & nIn & -> & Hasc & Hlen & Hperm).
  simpl.
  destruct (mapM_Forall2 (mapM (match_spike tIn kIn))
              (Forall2 (nearest_preceding Z.lt (input_events input_times input_indices)))
              output_times) as (tags & -> & Htags').
  - intros ts. apply mapM_Forall2. intros t.
    destruct (match_spike_nearest tIn kIn t Hasc Hlen) as (k & Hk & Hnear).
    exists k. split; [done|]. by eapply nearest_preceding_perm.
  - simpl. by exists tags.
Qed.

Lemma input_events_tag times indices t k :
  same_shape times indices -> (t, k) ∈ input_events times indices ->
  exists ks, ks ∈ indices /\ k ∈ ks.
Proof.
  intros Hshape. unfold input_events.
  induction Hshape as [|ts ks times indices _ _ IH]; simpl.
  - by intros ?%elem_of_nil.
  - rewrite elem_of_app. intros [Hin|Hin].
    + exists ks. split; [left|]. by eapply elem_of_zip_r.
    + destruct (IH Hin) as (ks' & ? & ?). exists ks'. split; [by right|done].
Qed.

End Matching.

(** C1 (as the code has it). For every non-empty list of input spike
    trains with per-spike sample tags in the int32 range and every list
    of output spike trains, [match_static] assigns to each output spike
    at time [t] the tag of an input spike whose time is the greatest one
    strictly below [t] in the flattened input spike set; if no input
    spike has a time below [t], it assigns the tag of an earliest input
    spike; if there is no input spike at all, it assigns tag 0.  Every
    output spike gets a tag. *)
Theorem match_static_nearest_before
  (input_times input_indices output_times : list (list Z)) :
  input_times <> [] -> same_shape input_times input_indices ->
  tags_int32 input_indices ->
  exists output_indices,
    NetworkInstance.match_static input_times input_indices output_times
    = Ok (output_times, output_indices)
    /\ Forall2 (Forall2 (nearest_preceding Z.lt (input_events input_times input_indices)))
         output_times output_indices.
Proof.
  intros Hne Hshape Htags. unfold NetworkInstance.match_static.
  (* the flat input arrays: ordered by time, a permutation of the input spikes *)
  destruct (flatten_by_time input_times input_indices Hne Hshape Htags)
    as (tIn & kIn & nIn & -> & Hasc & Hlen & Hperm).
  cbn [bind].
  (* every output spike gets the tag the bisection in the flat arrays selects *)
  assert (Hspike : forall t, exists k,
             NetworkInstance.match_spike tIn kIn t = Ok k
             /\ nearest_preceding Z.lt (input_events input_times input_indices) t k).
  { intros t. destruct (match_spike_nearest tIn kIn t Hasc Hlen) as (k & Hk & Hnear).
    exists k. split; [exact Hk|]. by eapply nearest_preceding_perm. }
  destruct (mapM_Forall2 (mapM (NetworkInstance.match_spike tIn kIn))
              (Forall2 (nearest_preceding Z.lt (input_events input_times input_indices)))
              output_times) as (tags & Hmap & Hall).
  { intros ts. by apply mapM_Forall2. }
  rewrite Hmap. cbn [bind]. by exists tags.
Qed.

Lemma match_static_nearest_before_witness :
  exists output_indices,
    NetworkInstance.match_static [[0; 10]; [20]] [[0; 1]; [2]] [[-5; 10; 15; 30]]
    = Ok ([[-5; 10; 15; 30]], output_indices)
    /\ Forall2 (Forall2 (nearest_preceding Z.lt
                           (input_events [[0; 10]; [20]] [[0; 1]; [2]])))
         [[-5; 10; 15; 30]] output_indices.
Proof.
  apply (match_static_nearest_before [[0; 10]; [20]] [[0; 1]; [2]] [[-5; 10; 15; 30]]).
  - discriminate.
  - repeat constructor.
  - repeat constructor; unfold int32; lia.
Defined.

(** C1 as stated fails: an input spike at the very time [t] of an output
    spike is not the one whose tag is assigned.  With input spikes at
    times 0 and 10 tagged 0 and 1, the output spike at time 10 gets tag
    0, although the nearest input spike with time <= 10 carries tag 1. *)
Lemma match_static_not_at_or_before :
  NetworkInstance.match_static [[0; 10]] [[0; 1]] [[10]] = Ok ([[10]], [[0]])
  /\ ~ nearest_preceding Z.le (input_events [[0; 10]] [[0; 1]]) 10 0.
Proof.
  split; [reflexivity|].
  unfold input_events. simpl.
  intros [(t' & Hin & Hb & Hmax)|[(Hnone & _)|[Hnil _]]].
  - assert (t' = 0) as ->.
    { apply list_elem_of_In in Hin. simpl in Hin.
      destruct Hin as [Hin|[Hin|[]]]; by inversion Hin. }
    specialize (Hmax (10, 1)). simpl in Hmax.
    assert (10 <= 0); [|lia]. apply Hmax; [|lia].
    apply list_elem_of_In. simpl. auto.
  - apply (Hnone (0, 0)); [|simpl; lia]. apply list_elem_of_In. simpl. auto.
  - discriminate.
Qed.

(** X27. For every non-empty list of input trains with tags of the same
    shape in the int32 range and every list of output trains,
    [match_static] returns the output spike-time trains unchanged as its
    first component; the returned tag lists have the outer length of
    the output trains and, for each neuron, exactly one tag per output
    spike; every assigned tag is 0 or one of the supplied input tags. *)
Theorem match_static_one_tag_per_spike
  (input_times input_indices output_times : list (list Z)) :
  input_times <> [] -> same_shape input_times input_indices ->
  tags_int32 input_indices ->
  exists output_indices,
    NetworkInstance.match_static input_times input_indices output_times
    = Ok (output_times, output_indices)
    /\ length output_indices = length output_times
    /\ same_shape output_times output_indices
    /\ Forall (Forall (fun k => k = 0 \/ exists ks, ks ∈ input_indices /\ k ∈ ks))
         output_indices.
Proof.
  intros Hne Hshape Htags.
  destruct (match_static_assigns input_times input_indices output_times Hne Hshape Htags)
    as (tags & Hm & Hnear).
  exists tags. split; [exact Hm|].
  split; [symmetry; by eapply Forall2_length|].
  split.
  - eapply Forall2_impl; [exact Hnear|]. intros ts ks H. by eapply Forall2_length.
  - clear Hm. induction Hnear as [|ts ks tss kss Hrow _ IH]; constructor; [|exact IH].
    clear IH. induction Hrow as [|t k ts ks Hk _ IH]; constructor; [|exact IH].
    destruct Hk as [(t' & Hin & _)|[(_ & t' & Hin & _)|[_ ->]]].
    + right. by eapply input_events_tag.
    + right. by eapply input_events_tag.
    + by left.
Qed.

Lemma match_static_one_tag_per_spike_witness :
  exists output_indices,
    NetworkInstance.match_static [[0; 10]; [20]] [[0; 1]; [2]] [[-5; 10]; []; [30]]
    = Ok ([[-5; 10]; []; [30]], output_indices)
    /\ length output_indices = 3%nat.
Proof.
  destruct (match_static_one_tag_per_spike
              [[0; 10]; [20]] [[0; 1]; [2]] [[-5; 10]; []; [30]])
    as (tags & Hm & Hlen & _).
  - discriminate.
  - repeat constructor.
  - repeat constructor; unfold int32; lia.
  - exists tags. split; [exact Hm | exact Hlen].
Defined.

(** For the empty list of input trains [flatten] reduces over the train
    lengths without an initial value, which raises [TypeError], so
    nothing is returned. *)
Lemma match_static_no_input_trains :
  NetworkInstance.match_static [] [] [[5]] = Raise TypeError
  /\ ~ exists output_indices,
         NetworkInstance.match_static [] [] [[5]] = Ok ([[5]], output_indices).
Proof.
  split; [reflexivity|]. intros [tags H]. discriminate H.
Qed.

(** ** The metrics when the tags follow the time order *)

Section OrderedTags.
Import NetworkInstance NetworkAnalysis.

Lemma foldl_max_greatest (a m : Z) (l : list Z) :
  m ∈ a :: l -> (forall t, t ∈ a :: l -> t <= m) -> foldl Z.max a l = m.
Proof.
  revert a. induction l as [|b l IH]; intros a Hin Hle; simpl.
  - apply list_elem_of_singleton in Hin. done.
  - apply IH.
    + assert (a <= m) by (apply Hle; left).
      assert (b <= m) by (apply Hle; right; left).
      apply elem_of_cons in Hin as [->|[->|Hin]%elem_of_cons].
      * rewrite Z.max_l by lia. left.
      * rewrite Z.max_r by lia. left.
      * by right.
    + intros t [->|Ht]%elem_of_cons.
      * assert (a <= m) by (apply Hle; left).
        assert (b <= m) by (apply Hle; right; left). lia.
      * apply Hle. right. by right.
Qed.

Lemma last_time_None (S : list (Z * Z)) (k : Z) :
  (forall e, e ∈ S -> e.2 <> k) -> last_time S k = None.
Proof.
  intros Hno. unfold last_time.
  destruct (filter (fun e => e.2 = k) S) as [|e es] eqn:Hf; [done|].
  assert (e ∈ filter (fun e => e.2 = k) S) as He by (rewrite Hf; left).
  apply list_elem_of_filter in He as [Hk He]. by apply Hno in He.
Qed.

Lemma last_time_Some (S : list (Z * Z)) (k m : Z) :
  (m, k) ∈ S -> (forall t, (t, k) ∈ S -> t <= m) -> last_time S k = Some m.
Proof.
  intros Hin Hle. unfold last_time.
  assert (Hm : (m, k) ∈ filter (fun e => e.2 = k) S) by by apply list_elem_of_filter.
  assert (Hall : forall e, e ∈ filter (fun e => e.2 = k) S -> e.1 <= m).
  { intros [t k'] [Hk He]%list_elem_of_filter. simpl in *. subst k'. by apply Hle. }
  destruct (filter (fun e => e.2 = k) S) as [|e es]; [by apply elem_of_nil in Hm|].
  f_equal. apply foldl_max_greatest.
  - change (e.1 :: map fst es) with (map fst (e :: es)).
    apply list_elem_of_In, in_map_iff. exists (m, k). split; [done|].
    by apply list_elem_of_In.
  - intros t Ht. change (e.1 :: map fst es) with (map fst (e :: es)) in Ht.
    apply list_elem_of_In, in_map_iff in Ht as (e' & <- & He').
    apply Hall. by apply list_elem_of_In.
Qed.

(** In arrays ordered by time whose tags are ascending as well, the
    entry in front of [bisect_right(kF, k)] is the last event with tag
    [k], if there is one. *)
Lemma bisect_right_last_time (tF kF : list Z) (k : Z) :
  length tF = length kF -> ascending tF -> ascending kF ->
  let r := Bisect.bisect_right kF k in
  (r <= length kF)%nat
  /\ (r = 0%nat -> last_time (zip tF kF) k = None)
  /\ (forall k', kF !! (r - 1)%nat = Some k' -> k' <> k ->
        last_time (zip tF kF) k = None)
  /\ (forall m, (0 < r)%nat -> kF !! (r - 1)%nat = Some k -> tF !! (r - 1)%nat = Some m ->
        last_time (zip tF kF) k = Some m).
Proof.
  intros Hlen HtF HkF r.
  destruct (bisect_right_spec kF k HkF) as (Hr & Hl & Hh). fold r in Hr, Hl, Hh.
  split; [done|]. split; [|split].
  - intros Hr0. apply last_time_None. intros [t k'] He. simpl.
    apply list_elem_of_lookup_1 in He as [i Hi]. apply lookup_zip_Some in Hi as [_ Hi].
    assert (k < k') by (apply (Hh i); [lia|done]). lia.
  - intros k' Hk' Hne. apply last_time_None. intros [t k''] He. simpl.
    apply list_elem_of_lookup_1 in He as [i Hi]. apply lookup_zip_Some in Hi as [_ Hi].
    destruct (decide (r = 0)%nat) as [Hr0|Hr0].
    { assert (k < k'') by (apply (Hh i); [lia|done]). lia. }
    assert (k' <= k) by (apply (Hl (r - 1)%nat); [lia|done]).
    destruct (decide (i < r)%nat) as [Hi'|Hi'].
    + assert (k'' <= k') by (apply (HkF i (r - 1)%nat); [lia|done|done]). lia.
    + assert (k < k'') by (apply (Hh i); [lia|done]). lia.
  - intros m Hpos Hk Hm. apply last_time_Some.
    + eapply list_elem_of_lookup_2. by apply lookup_zip_Some.
    + intros t He. apply list_elem_of_lookup_1 in He as [i Hi].
      apply lookup_zip_Some in Hi as [Hti Hki].
      destruct (decide (i < r)%nat) as [Hi'|Hi'].
      * apply (HtF i (r - 1)%nat); [lia|done|done].
      * assert (k < k) by (apply (Hh i); [lia|done]). lia.
Qed.

(** One sample: on such arrays the loop body of [calculate_latencies]
    computes the latency of the specification. *)
Lemma sample_latency_ordered (tIn kIn tOut kOut : list Z) (k : Z) :
  length tIn = length kIn -> ascending tIn -> ascending kIn ->
  length tOut = length kOut -> ascending tOut -> ascending kOut ->
  sample_latency tIn kIn tOut kOut k
  = Ok match last_time (zip tIn kIn) k, last_time (zip tOut kOut) k with
       | Some tin, Some tout => Finite (tout - tin)
       | _, _ => Infinite
       end.
Proof.
  intros HlenI HtI HkI HlenO HtO HkO. unfold sample_latency. cbv zeta.
  destruct (bisect_right_last_time tIn kIn k HlenI HtI HkI) as (HrI & HI0 & HIne & HIeq).
  destruct (bisect_right_last_time tOut kOut k HlenO HtO HkO) as (HrO & HO0 & HOne & HOeq).
  cbv zeta in *.
  set (bIn := Bisect.bisect_right kIn k) in *.
  set (bOut := Bisect.bisect_right kOut k) in *.
  destruct (decide (bIn = 0%nat)) as [HbI|HbI]; [by rewrite HI0|].
  destruct (decide (bOut = 0%nat)) as [HbO|HbO].
  { rewrite HO0 by done. by destruct (last_time (zip tIn kIn) k). }
  destruct (lookup_lt_is_Some_2 kIn (bIn - 1)) as [kin Hkin]; [lia|].
  destruct (lookup_lt_is_Some_2 tIn (bIn - 1)) as [tin Htin]; [lia|].
  destruct (lookup_lt_is_Some_2 kOut (bOut - 1)) as [kout Hkout]; [lia|].
  destruct (lookup_lt_is_Some_2 tOut (bOut - 1)) as [tout Htout]; [lia|].
  unfold getitem. rewrite Hkin. cbn [bind].
  destruct (decide (kin <> k)) as [Hne|Heq]; [by rewrite (HIne kin)|].
  assert (kin = k) as -> by (destruct (decide (kin = k)); [done|by exfalso; apply Heq]).
  rewrite Hkout. cbn [bind].
  destruct (decide (kout <> k)) as [Hne|Heq'].
  { rewrite (HOne kout) by done. by destruct (last_time (zip tIn kIn) k). }
  assert (kout = k) as -> by (destruct (decide (kout = k)); [done|by exfalso; apply Heq']).
  rewrite Htout, Htin. cbn [bind].
  rewrite (HIeq tin), (HOeq tout) by (done || lia). done.
Qed.

Lemma last_time_perm (S S' : list (Z * Z)) (k : Z) :
  S ≡ₚ S' -> last_time S k = last_time S' k.
Proof.
  intros HS. unfold last_time at 1.
  destruct (filter (fun e => e.2 = k) S) as [|e es] eqn:Hf.
  - symmetry. apply last_time_None. intros e' He' Hk.
    assert (e' ∈ filter (fun e => e.2 = k) S) as Hin.
    { apply list_elem_of_filter. split; [done|]. by rewrite HS. }
    rewrite Hf in Hin. by apply elem_of_nil in Hin.
  - symmetry.
    assert (Hmem : forall x, x ∈ e :: es <-> x.2 = k /\ x ∈ S').
    { intros x. rewrite <- Hf, list_elem_of_filter. by rewrite HS. }
    clear Hf HS.
    assert (Hmax : exists x, x ∈ e :: es /\ forall y, y ∈ e :: es -> y.1 <= x.1).
    { clear Hmem. revert e. induction es as [|b es IH]; intros e.
      - exists e. split; [left|]. intros y ->%list_elem_of_singleton. lia.
      - destruct (IH b) as (x & Hx & Hle).
        destruct (decide (e.1 <= x.1)).
        + exists x. split; [by right|]. intros y [->|Hy]%elem_of_cons; [done|by apply Hle].
        + exists e. split; [left|]. intros y [->|Hy]%elem_of_cons; [lia|].
          assert (y.1 <= x.1) by by apply Hle. lia. }
    destruct Hmax as ([m k'] & Hx & Hle). simpl in Hle.
    assert (k' = k) as -> by (by apply Hmem in Hx as [? _]).
    rewrite (foldl_max_greatest e.1 m (map fst es)).
    + apply last_time_Some.
      * by apply Hmem in Hx as [_ ?].
      * intros t Ht. apply (Hle (t, k)). by apply Hmem.
    + change (e.1 :: map fst es) with (map fst (e :: es)).
      apply list_elem_of_In, in_map_iff. exists (m, k). split; [done|].
      by apply list_elem_of_In.
    + intros t Ht. change (e.1 :: map fst es) with (map fst (e :: es)) in Ht.
      apply list_elem_of_In, in_map_iff in Ht as (y & <- & Hy).
      apply (Hle y). by apply list_elem_of_In.
Qed.

End OrderedTags.

Section FlattenBySample.
Import NetworkInstance NetworkAnalysis.

Lemma StronglySorted_lookup {A : Type} (R : A -> A -> Prop) (l : list A) :
  StronglySorted R l ->
  forall i j x y, (i < j)%nat -> l !! i = Some x -> l !! j = Some y -> R x y.
Proof.
  induction 1 as [|a l _ IH Hall]; intros i j x y Hij Hi Hj; [done|].
  destruct j as [|j]; [lia|]. simpl in Hj. destruct i as [|i]; simpl in Hi.
  - simplify_eq. rewrite Forall_forall in Hall. apply Hall.
    by eapply list_elem_of_lookup_2.
  - eapply IH; [|exact Hi|exact Hj]. lia.
Qed.

Lemma lexsort_leb_total (a b : flat_spike) :
  lexsort_leb a b = true \/ lexsort_leb b a = true.
Proof. unfold lexsort_leb. rewrite !bool_decide_eq_true. lia. Qed.

Lemma Sorted_lexsort_lex_ascending (l : list flat_spike) :
  Sorted (fun a b => lexsort_leb a b = true) l -> lex_ascending (map event l).
Proof.
  intros Hs.
  assert (Hss : StronglySorted (fun a b => lex_le (event a) (event b)) l).
  { apply Sorted_StronglySorted.
    - intros a b c. unfold lex_le, event. simpl. lia.
    - induction Hs as [|a l' Hs' IH Hhd]; constructor; [done|].
      destruct Hhd as [|b l'' Hab]; constructor.
      unfold lexsort_leb in Hab. by apply bool_decide_eq_true in Hab. }
  intros i j e1 e2 Hij Hi Hj.
  change (map event l) with (event <$> l) in Hi, Hj.
  rewrite list_lookup_fmap in Hi, Hj.
  destruct (l !! i) as [a|] eqn:Ha; [|done].
  destruct (l !! j) as [b|] eqn:Hb; [|done]. simpl in Hi, Hj. simplify_eq.
  destruct (decide (i = j)) as [->|Hne].
  - simplify_eq. right. split; [done|]. lia.
  - apply (StronglySorted_lookup _ l Hss i j); [lia|done|done].
Qed.

(** With [sort_by_sample=True], [flatten] returns the spikes of the
    input ordered by time, and by tag among equal times. *)
Lemma flatten_by_sample times indices :
  times <> [] -> same_shape times indices -> tags_int32 indices ->
  exists tF kF nF,
    flatten times indices true = Ok (tF, kF, nF)
    /\ length tF = length kF
    /\ lex_ascending (zip tF kF)
    /\ zip tF kF ≡ₚ input_events times indices.
Proof.
  intros Hne Hshape Htags. unfold flatten.
  destruct (spike_count_nonempty times Hne) as (n & ->).
  destruct (flatten_rows_events 0 times indices Hshape Htags) as (flat & -> & Hev).
  simpl. eexists _, _, _. split; [done|].
  split; [by rewrite !length_map|].
  rewrite zip_time_tag.
  split; [apply Sorted_lexsort_lex_ascending, stable_sort_Sorted, lexsort_leb_total|].
  rewrite <- Hev. apply Permutation_map, stable_sort_perm.
Qed.

Lemma lex_ascending_times (tF kF : list Z) :
  length tF = length kF -> lex_ascending (zip tF kF) -> ascending tF.
Proof.
  intros Hlen Hlex i j x y Hij Hi Hj.
  destruct (lookup_lt_is_Some_2 kF i) as [k1 Hk1];
    [rewrite <- Hlen; by eapply lookup_lt_Some|].
  destruct (lookup_lt_is_Some_2 kF j) as [k2 Hk2];
    [rewrite <- Hlen; by eapply lookup_lt_Some|].
  destruct (Hlex i j (x, k1) (y, k2) Hij) as [H|[H _]]; simpl in *;
    [by apply lookup_zip_Some|by apply lookup_zip_Some|lia|lia].
Qed.

Lemma lex_ascending_tags (tF kF : list Z) :
  length tF = length kF -> lex_ascending (zip tF kF) ->
  tags_follow_time (zip tF kF) -> ascending kF.
Proof.
  intros Hlen Hlex Hfollow i j k1 k2 Hij Hi Hj.
  destruct (lookup_lt_is_Some_2 tF i) as [x Hx];
    [rewrite Hlen; by eapply lookup_lt_Some|].
  destruct (lookup_lt_is_Some_2 tF j) as [y Hy];
    [rewrite Hlen; by eapply lookup_lt_Some|].
  assert (H1 : zip tF kF !! i = Some (x, k1)) by by apply lookup_zip_Some.
  assert (H2 : zip tF kF !! j = Some (y, k2)) by by apply lookup_zip_Some.
  destruct (Hlex i j (x, k1) (y, k2) Hij H1 H2) as [Hlt|[_ Hle]]; simpl in *; [|done].
  apply (Hfollow (x, k1) (y, k2)); [by eapply list_elem_of_lookup_2..|done].
Qed.

Lemma tags_follow_time_perm (S S' : list (Z * Z)) :
  S ≡ₚ S' -> tags_follow_time S -> tags_follow_time S'.
Proof.
  intros HS H e1 e2 H1 H2. apply H; by rewrite HS.
Qed.

(** X13. When the tags follow the time order in the input and in the
    output spikes, [calculate_latencies] returns for every sample the
    time of its last output spike minus the time of its last input
    spike, and infinity for a sample without an input or without an
    output spike. *)
Lemma calculate_latencies_ordered (self : Analysis.t) :
  Analysis.input_times self <> [] ->
  same_shape (Analysis.input_times self) (Analysis.input_indices self) ->
  tags_int32 (Analysis.input_indices self) ->
  Analysis.output_times self <> [] ->
  same_shape (Analysis.output_times self) (Analysis.output_indices self) ->
  tags_int32 (Analysis.output_indices self) ->
  tags_follow_time (input_events (Analysis.input_times self) (Analysis.input_indices self)) ->
  tags_follow_time (input_events (Analysis.output_times self) (Analysis.output_indices self)) ->
  calculate_latencies self = Ok (spec_latencies self).
Proof.
  intros HneI HshI HtagI HneO HshO HtagO HfI HfO. unfold calculate_latencies.
  destruct (flatten_by_sample _ _ HneI HshI HtagI)
    as (tIn & kIn & nIn & -> & HlenI & HlexI & HpermI).
  destruct (flatten_by_sample _ _ HneO HshO HtagO)
    as (tOut & kOut & nOut & -> & HlenO & HlexO & HpermO).
  cbn [bind fst snd]. unfold spec_latencies.
  apply mapM_total. intros k _.
  rewrite sample_latency_ordered; try done.
  - unfold spec_latency.
    by rewrite (last_time_perm _ _ _ HpermI), (last_time_perm _ _ _ HpermO).
  - by eapply lex_ascending_times.
  - eapply lex_ascending_tags; [done|done|].
    eapply tags_follow_time_perm; [symmetry; exact HpermI|done].
  - by eapply lex_ascending_times.
  - eapply lex_ascending_tags; [done|done|].
    eapply tags_follow_time_perm; [symmetry; exact HpermO|done].
Qed.

End FlattenBySample.

Section OrderedCounts.
Import NetworkInstance NetworkAnalysis.

Lemma flatten_train_neuron_tags i ts ks row :
  length ts = length ks -> Forall int32 ks ->
  flatten_train i ts ks = Ok row -> map neuron_tag row = map (pair i) ks.
Proof.
  revert ks row. induction ts as [|t ts IH]; intros [|k ks] row Hlen Hks Hrow;
    simpl in *; try done.
  - by inversion Hrow.
  - inversion Hks; subst.
    apply bind_Ok in Hrow as (rest & Hrest & Hrow). inversion Hrow; subst. simpl.
    unfold neuron_tag at 1. simpl. rewrite wrap32_int32 by done. f_equal.
    apply IH; [lia|done|done].
Qed.

Lemma flatten_rows_neuron_tags i times indices flat :
  same_shape times indices -> tags_int32 indices ->
  flatten_rows i times indices = Ok flat ->
  map neuron_tag flat = concat (imap (fun n ks => map (pair (i + n)%nat) ks) indices).
Proof.
  intros Hshape. revert i flat.
  induction Hshape as [|ts ks times indices Hlen _ IH]; intros i flat Htags Hflat.
  - simpl in Hflat. by inversion Hflat.
  - inversion Htags; subst. cbn [flatten_rows tail] in Hflat.
    apply bind_Ok in Hflat as (row & Hrow & Hflat).
    apply bind_Ok in Hflat as (rest & Hrest & Hflat). inversion Hflat; subst.
    rewrite map_app, imap_cons. cbn [concat]. f_equal.
    + replace (i + 0)%nat with i by lia.
      destruct ts as [|t ts].
      * inversion Hrow; subst. destruct ks; [done|]. simpl in Hlen. lia.
      * by eapply flatten_train_neuron_tags.
    + rewrite (IH (S i) rest) by done. f_equal. apply imap_ext.
      intros n ks' _. simpl. by replace (i + S n)%nat with (S (i + n)) by lia.
Qed.

Lemma filter_none {A : Type} (P : A -> Prop) `{!forall x, Decision (P x)} (l : list A) :
  Forall (fun x => ~ P x) l -> filter P l = [].
Proof.
  induction 1 as [|x l Hx _ IH]; [done|]. by rewrite filter_cons_False.
Qed.

Lemma filter_all {A : Type} (P : A -> Prop) `{!forall x, Decision (P x)} (l : list A) :
  Forall P l -> filter P l = l.
Proof.
  induction 1 as [|x l Hx _ IH]; [done|]. rewrite filter_cons_True by done. by f_equal.
Qed.

(** In a flat array whose tags are ascending the entries with tag [k]
    are those between [bisect_left] and [bisect_right]. *)
Lemma bisect_block (sorted : list flat_spike) (k : Z) :
  ascending (map fs_tag sorted) ->
  (Bisect.bisect_left (map fs_tag sorted) k <= Bisect.bisect_right (map fs_tag sorted) k
   <= length sorted)%nat
  /\ take (Bisect.bisect_right (map fs_tag sorted) k - Bisect.bisect_left (map fs_tag sorted) k)
          (drop (Bisect.bisect_left (map fs_tag sorted) k) sorted)
     = filter (fun e => fs_tag e = k) sorted.
Proof.
  intros Hasc.
  destruct (bisect_left_spec _ k Hasc) as (HL & HLlt & HLge).
  destruct (bisect_right_spec _ k Hasc) as (HR & HRle & HRgt).
  set (i0 := Bisect.bisect_left (map fs_tag sorted) k) in *.
  set (i1 := Bisect.bisect_right (map fs_tag sorted) k) in *.
  rewrite length_map in HL, HR.
  assert (Htag : forall i e, sorted !! i = Some e -> map fs_tag sorted !! i = Some (fs_tag e)).
  { intros i e He. by rewrite lookup_map, He. }
  assert (Hle : (i0 <= i1)%nat).
  { destruct (decide (i0 <= i1)%nat) as [|Hgt]; [done|]. exfalso.
    destruct (lookup_lt_is_Some_2 sorted i1) as [e He]; [lia|].
    assert (fs_tag e < k) by (apply (HLlt i1); [lia|by apply Htag]).
    assert (k < fs_tag e) by (apply (HRgt i1); [lia|by apply Htag]). lia. }
  split; [lia|].
  assert (H1 : filter (fun e => fs_tag e = k) (take i0 sorted) = []).
  { apply filter_none, Forall_lookup. intros i e [He Hi]%lookup_take_Some.
    assert (fs_tag e < k) by (apply (HLlt i); [lia|by apply Htag]). lia. }
  assert (H2 : filter (fun e => fs_tag e = k) (take (i1 - i0) (drop i0 sorted))
               = take (i1 - i0) (drop i0 sorted)).
  { apply filter_all, Forall_lookup. intros i e [He Hi]%lookup_take_Some.
    rewrite lookup_drop in He.
    assert (k <= fs_tag e) by (apply (HLge (i0 + i)%nat); [lia|by apply Htag]).
    assert (fs_tag e <= k) by (apply (HRle (i0 + i)%nat); [lia|by apply Htag]). lia. }
  assert (H3 : filter (fun e => fs_tag e = k) (drop (i1 - i0) (drop i0 sorted)) = []).
  { apply filter_none, Forall_lookup. intros i e He.
    rewrite !lookup_drop in He.
    assert (k < fs_tag e) by (apply (HRgt (i0 + (i1 - i0 + i))%nat); [lia|by apply Htag]).
    lia. }
  transitivity (filter (fun e => fs_tag e = k)
                  (take i0 sorted
                   ++ take (i1 - i0) (drop i0 sorted)
                   ++ drop (i1 - i0) (drop i0 sorted))).
  - rewrite !filter_app, H1, H2, H3. by rewrite app_nil_r.
  - by rewrite !take_drop.
Qed.

Lemma hits_cons (col : nat) (cols : list nat) (j : nat) :
  hits (col :: cols) j = (if decide (col = j) then 1 else 0) + hits cols j.
Proof.
  unfold hits. rewrite filter_cons. case_decide; simpl length; lia.
Qed.

(** The counting loop over a block of the flat arrays adds, to every
    column, the number of entries of the block that fall into it. *)
Lemma count_row_block (sorted : list flat_spike) (s a len : nat) (row : list Z) :
  (a + len <= length sorted)%nat ->
  Forall (fun e => (fs_neuron e / s < length row)%nat) (take len (drop a sorted)) ->
  count_row (map fs_neuron sorted) s (seq a len) row
  = Ok (imap (fun j v => v + hits (map (fun e => (fs_neuron e / s)%nat)
                                      (take len (drop a sorted))) j) row).
Proof.
  revert a row. induction len as [|len IH]; intros a row Hlen Hcols.
  - cbn [seq count_row take map]. f_equal. apply list_eq. intros i.
    rewrite list_lookup_imap. destruct (row !! i) as [v|]; [|done].
    simpl. f_equal. unfold hits. simpl. lia.
  - destruct (lookup_lt_is_Some_2 sorted a) as [e He]; [lia|].
    rewrite (drop_S _ _ _ He) in Hcols |- *. cbn [take map] in Hcols |- *.
    apply Forall_cons in Hcols as [Hcol Hcols].
    destruct (lookup_lt_is_Some_2 row (fs_neuron e / s)) as [c Hc]; [done|].
    cbn [seq count_row]. unfold getitem at 1. rewrite lookup_map, He. cbn [fmap option_fmap option_map bind].
    unfold increment, getitem. rewrite Hc. cbn [bind].
    rewrite IH; [|lia|by rewrite length_insert].
    f_equal. apply list_eq. intros i. rewrite !list_lookup_imap.
    rewrite hits_cons.
    destruct (decide (fs_neuron e / s = i)%nat) as [<-|Hne].
    + rewrite list_lookup_insert_eq by done. rewrite Hc. simpl. f_equal; lia.
    + rewrite list_lookup_insert_ne by done.
      destruct (row !! i) as [v|]; [|done]. simpl. f_equal; lia.
Qed.

Lemma imap_replicate_zero (f : nat -> Z) (n : nat) :
  imap (fun j v => v + f j) (replicate n 0) = map f (seq 0 n).
Proof.
  apply list_eq. intros i. rewrite list_lookup_imap, lookup_map.
  destruct (decide (i < n)%nat) as [Hi|Hi].
  - rewrite lookup_replicate_2 by done. by rewrite lookup_seq_lt.
  - rewrite (proj1 (lookup_replicate_None n 0 i)) by lia.
    by rewrite lookup_seq_ge by lia.
Qed.

Lemma hits_filter_map {A : Type} (col : A -> nat) (P : A -> Prop)
  `{!forall x, Decision (P x)} (l : list A) (j : nat) :
  hits (map col (filter P l)) j
  = Z.of_nat (length (filter (fun e => col e = j /\ P e) l)).
Proof.
  unfold hits. f_equal. induction l as [|x l IH]; [done|].
  rewrite (filter_cons P), (filter_cons (fun e => col e = j /\ P e)).
  destruct (decide (P x)) as [HP|HP].
  - cbn [map]. rewrite filter_cons.
    destruct (decide (col x = j)) as [Hc|Hc].
    + rewrite decide_True by done. simpl. by rewrite IH.
    + rewrite decide_False by tauto. done.
  - rewrite decide_False by tauto. done.
Qed.

Lemma length_filter_map {A B : Type} (f : A -> B) (P : B -> Prop)
  `{!forall y, Decision (P y)} (l : list A) :
  length (filter P (map f l)) = length (filter (fun x => P (f x)) l).
Proof.
  induction l as [|x l IH]; [done|]. cbn [map].
  rewrite (filter_cons P), (filter_cons (fun x => P (f x))).
  destruct (decide (P (f x))); simpl; by rewrite IH.
Qed.

Lemma flatten_rows_neuron_tags_0 times indices flat :
  same_shape times indices -> tags_int32 indices ->
  flatten_rows 0 times indices = Ok flat ->
  map neuron_tag flat = concat (imap (fun n ks => map (pair n) ks) indices).
Proof. exact (flatten_rows_neuron_tags 0 times indices flat). Qed.

Lemma flatten_rows_neuron_bound times indices flat :
  same_shape times indices -> tags_int32 indices ->
  flatten_rows 0 times indices = Ok flat ->
  Forall (fun e => (fs_neuron e < length times)%nat) flat.
Proof.
  intros Hshape Htags Hflat.
  pose proof (flatten_rows_neuron_tags 0 times indices flat Hshape Htags Hflat) as Hnt.
  rewrite (Forall2_length _ _ _ Hshape).
  apply Forall_forall. intros e He.
  assert (Hin : In (neuron_tag e) (map neuron_tag flat)).
  { apply in_map. by apply list_elem_of_In. }
  rewrite Hnt in Hin. apply in_concat in Hin as (l & Hl & Hin).
  apply list_elem_of_In, elem_of_lookup_imap in Hl as (n & ks & -> & Hks).
  apply in_map_iff in Hin as (k & Heq & _). unfold neuron_tag in Heq.
  inversion Heq as [[Hn Hk]]. rewrite <- Hn. simpl. by eapply lookup_lt_Some.
Qed.

(** [flatten] with [sort_by_sample=True], with the sorted entries made
    explicit. *)
Lemma flatten_by_sample_sorted times indices :
  times <> [] -> same_shape times indices -> tags_int32 indices ->
  exists flat sorted,
    flatten_rows 0 times indices = Ok flat
    /\ sorted ≡ₚ flat
    /\ flatten times indices true
       = Ok (map fs_time sorted, map fs_tag sorted, map fs_neuron sorted)
    /\ lex_ascending (map event sorted)
    /\ map event flat = input_events times indices.
Proof.
  intros Hne Hshape Htags. unfold flatten.
  destruct (spike_count_nonempty times Hne) as (n & ->).
  destruct (flatten_rows_events 0 times indices Hshape Htags) as (flat & Hflat & Hev).
  rewrite Hflat. simpl. exists flat, (Numpy.stable_sort lexsort_leb flat).
  split; [done|]. split; [apply stable_sort_perm|]. split; [done|].
  split; [apply Sorted_lexsort_lex_ascending, stable_sort_Sorted, lexsort_leb_total|done].
Qed.

(** When the tags of the output spikes follow the time order and every
    output neuron belongs to a bit group of the matrix, the counts of
    [calculate_output_matrix] are those of the specification. *)
Lemma count_matrix_ordered (self : Analysis.t) :
  Analysis.output_times self <> [] ->
  same_shape (Analysis.output_times self) (Analysis.output_indices self) ->
  tags_int32 (Analysis.output_indices self) ->
  tags_follow_time (input_events (Analysis.output_times self) (Analysis.output_indices self)) ->
  (forall i, (i < length (Analysis.output_times self))%nat ->
     (i / multiplicity (Analysis.topology_params self) < (output_shape self).2)%nat) ->
  count_matrix self = Ok (spec_counts self).
Proof.
  intros Hne Hshape Htags Hfollow Hgroups. unfold count_matrix, spec_counts.
  destruct (flatten_by_sample_sorted _ _ Hne Hshape Htags)
    as (flat & sorted & Hflat & Hperm & -> & Hlex & Hev).
  cbn [bind fst snd].
  set (s := multiplicity (Analysis.topology_params self)) in *.
  destruct (output_shape self) as [N n]. cbn [snd] in Hgroups.
  apply mapM_total. intros k _.
  assert (Hasc : ascending (map fs_tag sorted)).
  { apply (lex_ascending_tags (map fs_time sorted)).
    - by rewrite !length_map.
    - by rewrite zip_time_tag.
    - rewrite zip_time_tag. eapply tags_follow_time_perm; [|exact Hfollow].
      rewrite <- Hev. symmetry. by apply Permutation_map. }
  destruct (bisect_block sorted (Z.of_nat k) Hasc) as [Hb Hblock].
  assert (Hbound : Forall (fun e => (fs_neuron e / s < n)%nat) sorted).
  { rewrite Hperm. eapply Forall_impl.
    - by eapply flatten_rows_neuron_bound.
    - intros e He. by apply Hgroups. }
  rewrite count_row_block.
  - f_equal. rewrite imap_replicate_zero. apply map_ext. intros j.
    rewrite Hblock, hits_filter_map. unfold spec_count. fold s. f_equal.
    rewrite Hperm.
    rewrite <- (flatten_rows_neuron_tags_0 _ _ flat Hshape Htags Hflat).
    rewrite length_filter_map. f_equal.
  - lia.
  - rewrite length_replicate. rewrite Forall_forall in Hbound |- *.
    intros e [i [He _]]%elem_of_take. rewrite lookup_drop in He.
    apply Hbound. by eapply list_elem_of_lookup_2.
Qed.

(** A cell that holds exactly [multiplicity * burst_size] spikes is
    scaled to 1. *)
Lemma np_divide_full (d : Z) :
  d <> 0 -> exists q, np_divide d d = Ratio q /\ (q == 1)%Q.
Proof.
  intros Hd. unfold np_divide. rewrite decide_False by done.
  eexists. split; [done|]. apply Qmult_inv_r.
  unfold Qeq. simpl. lia.
Qed.

End OrderedCounts.

(** ** [NetworkAnalysis]: the metrics on tags that are not ordered in time *)

(** C5 (code defect). [flatten(..., sort_by_sample=True)] orders the flat
    arrays with [np.lexsort((kF, tF))], whose primary key is the time,
    and [calculate_latencies] then bisects the tag array as if it were
    ordered by tag.  The two orders agree when the tags follow the time
    order ([calculate_latencies_ordered]).  They do not for the record
    [ex_jitter_analysis]: sample 1 has an input spike (time 100) and an
    output spike (time 101), so its latency is 1, but the code returns
    infinity for it. *)
Theorem calculate_latencies_time_ordered_tags :
  NetworkAnalysis.calculate_latencies Examples.ex_jitter_analysis
  = Ok [NetworkAnalysis.Finite 1; NetworkAnalysis.Infinite]
  /\ spec_latencies Examples.ex_jitter_analysis
     = [NetworkAnalysis.Finite 1; NetworkAnalysis.Finite 1].
Proof. split; reflexivity. Qed.

(** C6 (code defect, the same one as for C5). The counts are those of
    the specification when the tags follow the time order
    ([count_matrix_ordered]).  For the record [ex_jitter_analysis]
    (multiplicity 1, burst size 1) each of the two samples has one
    output spike on the only bit group, but the code counts both spikes
    for sample 0 and none for sample 1. *)
Theorem calculate_output_matrix_time_ordered_tags :
  NetworkAnalysis.calculate_output_matrix Examples.ex_jitter_analysis
    {| out_burst_size := 1 |}
  = Ok [[NetworkAnalysis.Ratio (2 # 1)]; [NetworkAnalysis.Ratio (0 # 1)]]
  /\ NetworkAnalysis.count_matrix Examples.ex_jitter_analysis = Ok [[2]; [0]]
  /\ spec_counts Examples.ex_jitter_analysis = [[1]; [1]].
Proof. repeat split; reflexivity. Qed.

(** ** Empty spike streams *)

Section EmptyStreams.
Import NetworkInstance NetworkInstanceAnalysis NetworkAnalysis.

Lemma mapM_py_max_empty (l : list (list Z)) :
  [] ∈ l -> mapM py_max l = Raise ValueError.
Proof.
  induction l as [|ks l IH]; [by intros ?%elem_of_nil|].
  intros [<-|Hin]%elem_of_cons; simpl; [done|].
  destruct ks as [|k ks]; simpl; [done|]. by rewrite IH.
Qed.

Lemma flatten_rows_no_spikes i n indices :
  flatten_rows i (replicate n []) indices = Ok [].
Proof.
  revert i indices. induction n as [|n IH]; intros i indices; simpl; [done|].
  by rewrite IH.
Qed.

(** A non-empty list of empty trains flattens to empty arrays. *)
Lemma flatten_no_spikes n indices flag :
  (0 < n)%nat -> flatten (replicate n []) indices flag = Ok ([], [], []).
Proof.
  intros Hn. unfold flatten. destruct n as [|n]; [lia|].
  unfold spike_count. simpl. rewrite flatten_rows_no_spikes. simpl.
  by destruct flag.
Qed.

Lemma mapM_const {A B : Type} (f : A -> result B) (y : B) (l : list A) :
  (forall x, f x = Ok y) -> mapM f l = Ok (replicate (length l) y).
Proof.
  intros Hf. induction l as [|x l IH]; simpl; [done|].
  by rewrite Hf, IH.
Qed.

(** Without output spikes every latency is infinite, whatever the
    input spikes are, provided the input flattens. *)
Lemma calculate_latencies_no_output (self : Analysis.t) (n : nat) fin :
  (0 < n)%nat ->
  Analysis.output_times self = replicate n [] ->
  flatten (Analysis.input_times self) (Analysis.input_indices self) true = Ok fin ->
  calculate_latencies self
  = Ok (replicate (n_samples (Analysis.data_params self)) Infinite).
Proof.
  intros Hn Hout Hin. unfold calculate_latencies.
  rewrite Hin, Hout, flatten_no_spikes by done. simpl.
  rewrite (mapM_const _ Infinite); [by rewrite length_seq|].
  intros k. unfold sample_latency. simpl.
  by destruct (decide (Bisect.bisect_right fin.1.2 (Z.of_nat k) = 0%nat)).
Qed.

(** Without output spikes every count of the output matrix is zero. *)
Lemma count_matrix_no_output (self : Analysis.t) (n : nat) :
  (0 < n)%nat ->
  Analysis.output_times self = replicate n [] ->
  count_matrix self
  = Ok (replicate (output_shape self).1 (replicate (output_shape self).2 0)).
Proof.
  intros Hn Hout. unfold count_matrix.
  rewrite Hout, flatten_no_spikes by done. simpl.
  destruct (output_shape self) as [N cols]. simpl.
  rewrite (mapM_const _ (replicate cols 0)); [by rewrite length_seq|done].
Qed.

End EmptyStreams.

(** C9 (code defect). When no temporal split was recorded,
    [build_analysis_static] computes [max(map(max, input_indices))];
    [max] of an input train without spikes raises [ValueError].  So for
    every input that [match_static] accepts and that has a neuron
    without input spikes, the analysis raises instead of returning
    records. *)
Theorem build_analysis_static_empty_train
  (input_times input_indices : list (list Z)) (output : list pop_output)
  (spikes : list (list Z)) (input_params : list InputParameters)
  (data_params : DataParameters) (topology_params : TopologyParameters)
  (meta_data : string) (mat_in mat_out : matrix) :
  input_times <> [] -> same_shape input_times input_indices ->
  tags_int32 input_indices ->
  output !! 1%nat = Some (Some spikes) ->
  [] ∈ input_indices ->
  NetworkInstanceAnalysis.build_analysis_static input_times input_indices output
    input_params data_params topology_params meta_data mat_in mat_out []
  = Raise ValueError.
Proof.
  intros Hne Hshape Htags Hout Hempty.
  unfold NetworkInstanceAnalysis.build_analysis_static, getitem.
  rewrite Hout. simpl.
  destruct (match_static_assigns input_times input_indices spikes Hne Hshape Htags)
    as (tags & -> & _).
  simpl. unfold NetworkInstanceAnalysis.default_input_split.
  by rewrite mapM_py_max_empty.
Qed.

Lemma build_analysis_static_empty_train_witness :
  NetworkInstanceAnalysis.build_analysis_static [[]; []] [[]; []]
    [None; Some [[]]] [Examples.ex_input_params] Examples.ex_data_params
    Examples.ex_topology_params "" (MList []) (MList []) []
  = Raise ValueError.
Proof.
  apply (build_analysis_static_empty_train [[]; []] [[]; []]
           [None; Some [[]]] [[]]).
  - discriminate.
  - repeat constructor.
  - repeat constructor; unfold int32; lia.
  - reflexivity.
  - apply list_elem_of_In. simpl. auto.
Defined.

(** C10 (code defect). For an empty list of input trains [match_static]
    returns nothing: [flatten] evaluates
    [reduce(lambda x, y: x + y, map(len, times))] on an empty sequence,
    which raises [TypeError], whatever the tags and the output trains
    are.  The empty input stream is handled everywhere else: for any
    positive number of input neurons without spikes the guard
    [idx < len(tIn)] leaves the initial tag 0 on every output spike and
    the output trains are returned unchanged. *)
Theorem match_static_empty_input_list (input_indices output_times : list (list Z)) :
  NetworkInstance.match_static [] input_indices output_times = Raise TypeError
  /\ forall n, (0 < n)%nat ->
       NetworkInstance.match_static (replicate n []) input_indices output_times
       = Ok (output_times, map (map (fun _ => 0)) output_times).
Proof.
  split; [reflexivity|]. intros n Hn. unfold NetworkInstance.match_static.
  rewrite flatten_no_spikes by done. cbn [bind].
  rewrite (mapM_total _ (map (fun _ => 0))); [done|].
  intros ts _. apply mapM_total. intros t _.
  unfold NetworkInstance.match_spike, Bisect.bisect_left. reflexivity.
Qed.

Lemma match_static_empty_input_list_witness :
  NetworkInstance.match_static [] [] [[5]] = Raise TypeError
  /\ NetworkInstance.match_static [[]] [[]] [[5]; []] = Ok ([[5]; []], [[0]; []]).
Proof.
  destruct (match_static_empty_input_list [] [[5]]) as [Herr _].
  destruct (match_static_empty_input_list [[]] [[5]; []]) as [_ Hok].
  split; [exact Herr|]. apply (Hok 1%nat). lia.
Defined.

(** ** [build_spike_trains] *)

Section SpikeTrainFacts.
Import NetworkBuilder.
Context (normal : nat -> Z -> Z -> Z).
Context (uniform : nat -> Q).

Lemma block_step_zero_rows mat s delay (input_params : list InputParameters) st :
  (nd_shape mat).1 = 0%nat ->
  (foldl (block_step normal uniform mat s delay) st input_params).1.1 = st.1.1.
Proof.
  intros HN. revert st. induction input_params as [|p ps IH]; intros st; simpl; [done|].
  rewrite IH. unfold block_step. rewrite HN. simpl. by destruct st as [[tr sIdx] t].
Qed.

Lemma py_min_least (x : Z) (xs : list Z) :
  exists m, py_min (x :: xs) = Ok m /\ m ∈ x :: xs /\ forall y, y ∈ x :: xs -> m <= y.
Proof.
  unfold py_min. eexists. split; [done|].
  revert x. induction xs as [|z xs IH]; intros x; simpl.
  - split; [left|]. intros y ->%list_elem_of_singleton. lia.
  - case_decide as Hz.
    + destruct (IH z) as [Hin Hle]. split.
      * apply elem_of_cons. right. exact Hin.
      * intros y [->|Hy]%elem_of_cons.
        { assert (fold_left (fun m y => if decide (y < m) then y else m) xs z <= z)
            by (apply Hle; left). lia. }
        by apply Hle.
    + destruct (IH x) as [Hin Hle]. split.
      * apply elem_of_cons in Hin as [Hin|Hin]; [rewrite Hin; left|].
        right. by right.
      * intros y [->|[->|Hy]%elem_of_cons]%elem_of_cons.
        { apply Hle. left. }
        { assert (fold_left (fun m y => if decide (y < m) then y else m) xs x <= x)
            by (apply Hle; left). lia. }
        apply Hle. by right.
Qed.

Lemma rmin_least_of (row : list Z) : least_of (rmin row) row.
Proof.
  destruct row as [|x xs]; [by left|]. right.
  destruct (py_min_least x xs) as (m & Hm & Hin & Hle).
  exists m. unfold rmin. rewrite Hm. done.
Qed.

Lemma least_of_step (acc : xfloat) (seen row : list Z) :
  least_of acc seen ->
  least_of (if xltb (rmin row) acc then rmin row else acc) (seen ++ row).
Proof.
  intros Hacc. destruct (rmin_least_of row) as [[-> ->]|(r & -> & Hr & Hrle)].
  - rewrite app_nil_r. by destruct acc.
  - destruct Hacc as [[-> ->]|(m & -> & Hm & Hmle)]; simpl.
    + right. exists r. done.
    + right. case_bool_decide as Hlt.
      * exists r. split; [done|]. split; [apply elem_of_app; by right|].
        intros t [Ht|Ht]%elem_of_app; [|by apply Hrle].
        assert (m <= t) by by apply Hmle. lia.
      * exists m. split; [done|]. split; [apply elem_of_app; by left|].
        intros t [Ht|Ht]%elem_of_app; [by apply Hmle|].
        assert (r <= t) by by apply Hrle. lia.
Qed.

Lemma fold_least_of (rows : list (list Z)) (acc : xfloat) (seen : list Z) :
  least_of acc seen ->
  least_of (fold_left (fun m y => if xltb y m then y else m) (map rmin rows) acc)
           (seen ++ concat rows).
Proof.
  revert acc seen. induction rows as [|r rows IH]; intros acc seen Hacc; simpl.
  - by rewrite app_nil_r.
  - rewrite (assoc_L (++)). apply IH. by apply least_of_step.
Qed.

Lemma xmin_rmin_least_of (row : list Z) (rows : list (list Z)) :
  exists min_t, xmin (map rmin (row :: rows)) = Ok min_t
                /\ least_of min_t (concat (row :: rows)).
Proof.
  unfold xmin. simpl. eexists. split; [done|].
  apply fold_least_of, rmin_least_of.
Qed.

(** The time shift of [build_spike_trains]: with at least one input
    neuron it succeeds; every returned time is finite (neither infinite
    nor NaN), and when there is a spike, the spike times are shifted by
    [time_offs - m] for the earliest spike time [m], which therefore
    lands on [time_offs]. *)
Lemma offset_times_earliest (times : list (list Z)) (time_offs : Z) :
  times <> [] ->
  exists shifted,
    offset_times times time_offs = Ok shifted
    /\ Forall2 (Forall2 (fun t x => exists z, x = Fin z /\ time_offs <= z)) times shifted
    /\ forall m, m ∈ concat times -> (forall t, t ∈ concat times -> m <= t) ->
         shifted = map (map (fun t => Fin (t - m + time_offs))) times.
Proof.
  destruct times as [|row rows]; [done|]. intros _. unfold offset_times.
  destruct (xmin_rmin_least_of row rows) as (min_t & -> & Hleast).
  cbn [bind]. eexists. split; [done|].
  destruct Hleast as [[Hnil ->]|(m & -> & Hm & Hle)].
  - (* no spike at all: every train is empty *)
    split.
    + apply Forall2_fmap_r, Forall_Forall2_diag, Forall_forall. intros ts Hts.
      assert (ts = []) as ->; [|constructor].
      destruct ts as [|t ts]; [done|]. exfalso.
      assert (t ∈ concat (row :: rows)) as Ht.
      { apply list_elem_of_In, in_concat. exists (t :: ts).
        split; [by apply list_elem_of_In|by left]. }
      rewrite Hnil in Ht. by apply elem_of_nil in Ht.
    + intros m Hm. rewrite Hnil in Hm. by apply elem_of_nil in Hm.
  - split.
    + apply Forall2_fmap_r, Forall_Forall2_diag, Forall_forall. intros ts Hts.
      apply Forall2_fmap_r, Forall_Forall2_diag, Forall_forall. intros t Ht.
      simpl. eexists. split; [done|].
      assert (m <= t); [|lia]. apply Hle.
      apply list_elem_of_In, in_concat. exists ts. split; by apply list_elem_of_In.
    + intros m' Hm' Hle'. assert (m' = m) as ->.
      { assert (m <= m') by by apply Hle. assert (m' <= m) by by apply Hle'. lia. }
      done.
Qed.

Lemma emit_length mat s p sIdx t l st ij :
  length (tr_times (emit normal uniform mat s p sIdx t l st ij)) = length (tr_times st).
Proof.
  unfold emit. destruct ij as [i j].
  destruct (InputParams.build_spike_train _ _ _ _ _ _) as [train pos'].
  simpl. apply length_alter.
Qed.

Lemma sample_step_length mat s p st l :
  length (tr_times (sample_step normal uniform mat s p st l).1.1)
  = length (tr_times st.1.1).
Proof.
  destruct st as [[tr sIdx] t]. unfold sample_step. simpl.
  generalize (list_prod (seq 0 (nd_shape mat).2) (seq 0 s)). intros ijs.
  revert tr. induction ijs as [|ij ijs IH]; intros tr; simpl; [done|].
  by rewrite IH, emit_length.
Qed.

Lemma block_step_length mat s delay st p :
  length (tr_times (block_step normal uniform mat s delay st p).1.1)
  = length (tr_times st.1.1).
Proof.
  unfold block_step.
  assert (H : forall ls st0,
             length (tr_times (foldl (sample_step normal uniform mat s p) st0 ls).1.1)
             = length (tr_times st0.1.1)).
  { induction ls as [|l ls IH]; intros st0; simpl; [done|].
    by rewrite IH, sample_step_length. }
  specialize (H (seq 0 (nd_shape mat).1) st).
  destruct (foldl _ st _) as [[tr sIdx] t]. exact H.
Qed.

Lemma blocks_length mat s delay st ps :
  length (tr_times (foldl (block_step normal uniform mat s delay) st ps).1.1)
  = length (tr_times st.1.1).
Proof.
  revert st. induction ps as [|p ps IH]; intros st; simpl; [done|].
  by rewrite IH, block_step_length.
Qed.

Lemma py_range_blocks (N L : nat) :
  (0 < N)%nat ->
  py_range (Z.of_nat N) (Z.of_nat N * (Z.of_nat L + 1)) (Z.of_nat N)
  = Ok (map (fun i => Z.of_nat N + Z.of_nat i * Z.of_nat N) (seq 0 L)).
Proof.
  intros HN. unfold py_range.
  rewrite decide_False by lia. rewrite decide_True by lia.
  replace ((Z.of_nat N * (Z.of_nat L + 1) - Z.of_nat N + Z.of_nat N - 1) / Z.of_nat N)
    with (Z.of_nat L).
  - by rewrite Nat2Z.id.
  - apply Z.div_unique with (r := Z.of_nat N - 1); lia.
Qed.

(** X24. For a matrix with at least one row and a builder with at least
    one input neuron [build_spike_trains] returns: one train per input
    neuron, all spike times finite and not before [time_offs], and the
    block boundaries [N, 2 N, ...], one per input parameter set. *)
Lemma build_spike_trains_returns mat time_offs topology_params input_params delay pos :
  (0 < (nd_shape mat).1)%nat ->
  (0 < multiplicity topology_params * (nd_shape mat).2)%nat ->
  exists input_times input_indices pos',
    build_spike_trains normal uniform mat time_offs topology_params input_params delay pos
    = Ok (input_times, input_indices,
          map (fun i => Z.of_nat (nd_shape mat).1 + Z.of_nat i * Z.of_nat (nd_shape mat).1)
              (seq 0 (length input_params)),
          pos')
    /\ length input_times = (multiplicity topology_params * (nd_shape mat).2)%nat
    /\ Forall (Forall (fun x => exists z, x = Fin z /\ time_offs <= z)) input_times.
Proof.
  intros HN Hsm. unfold build_spike_trains.
  pose proof (blocks_length mat (multiplicity topology_params) delay
                ({| tr_times := replicate (multiplicity topology_params * (nd_shape mat).2) [];
                    tr_indices := replicate (multiplicity topology_params * (nd_shape mat).2) [];
                    tr_pos := pos |}, 0, 0) input_params) as Hlen.
  destruct (foldl _ _ input_params) as [[tr sIdx] t]. simpl in Hlen.
  rewrite length_replicate in Hlen.
  destruct (offset_times_earliest (tr_times tr) time_offs) as (shifted & -> & Hfin & _).
  { intros Hnil. rewrite Hnil in Hlen. simpl in Hlen. lia. }
  cbn [bind]. rewrite py_range_blocks by done. cbn [bind].
  eexists _, _, _. split; [done|].
  split; [by rewrite <- (Forall2_length _ _ _ Hfin)|].
  clear -Hfin. induction Hfin as [|ts xs tss xss Hrow _ IH]; constructor; [|done].
  clear IH. induction Hrow as [|? ? ? ? ? _ IH]; constructor; done.
Qed.

End SpikeTrainFacts.

(** C7 (code defect). For a sample matrix without rows
    [build_spike_trains] never returns: either there is no input neuron
    and [min] of the empty list of per-neuron minima raises
    [ValueError], or the temporal split descriptor
    [range(N, N * (len(input_params) + 1), N)] is computed with step
    [N = 0], which raises [ValueError] as well. *)
Theorem build_spike_trains_zero_rows
  (normal : nat -> Z -> Z -> Z) (uniform : nat -> Q)
  (mat : ndarray) (time_offs : Z) (topology_params : TopologyParameters)
  (input_params : list InputParameters) (input_params_delay : Z) (pos : nat) :
  (nd_shape mat).1 = 0%nat ->
  NetworkBuilder.build_spike_trains normal uniform mat time_offs topology_params
    input_params input_params_delay pos
  = Raise ValueError.
Proof.
  intros HN. unfold NetworkBuilder.build_spike_trains.
  pose proof (block_step_zero_rows normal uniform mat (multiplicity topology_params)
                input_params_delay input_params
                ({| NetworkBuilder.tr_times :=
                      replicate (multiplicity topology_params * (nd_shape mat).2) [];
                    NetworkBuilder.tr_indices :=
                      replicate (multiplicity topology_params * (nd_shape mat).2) [];
                    NetworkBuilder.tr_pos := pos |}, 0, 0) HN) as Htr.
  destruct (foldl _ _ input_params) as [[tr sIdx] t]. simpl in Htr. subst tr.
  unfold NetworkBuilder.offset_times. simpl.
  destruct (NetworkBuilder.xmin _) as [min_t|e] eqn:Hmin; simpl.
  - rewrite HN. simpl. done.
  - unfold NetworkBuilder.xmin in Hmin.
    destruct (map NetworkBuilder.rmin _); [by inversion Hmin|done].
Qed.

Lemma build_spike_trains_zero_rows_witness :
  NetworkBuilder.build_spike_trains (fun _ mu _ => mu) (fun _ => 1 # 2)
    {| nd_shape := (0%nat, 1%nat); nd_at := fun _ _ => 0 |} 0
    Examples.ex_topology_params [Examples.ex_input_params] 10 0
  = Raise ValueError.
Proof.
  apply (build_spike_trains_zero_rows (fun _ mu _ => mu) (fun _ => 1 # 2)
           {| nd_shape := (0%nat, 1%nat); nd_at := fun _ _ => 0 |}).
  reflexivity.
Defined.

(** ** [build_topology] *)

Section TopologyFacts.
Import TopologyParams NetworkBuilder.
Context (normal : nat -> Q -> Q -> Q).
Context (clamp_parameters : gmap string Q -> gmap string Q).
Context (mem : nat -> nat -> Z).

Lemma draw_loop_noise_free t res pos keys :
  (forall key, key ∈ keys -> is_Some (params t !! key)) -> noise_free t ->
  draw_loop normal t (res, pos) keys = Ok (res, pos).
Proof.
  intros Hkeys Hfree. induction keys as [|key keys IH]; [done|].
  cbn [draw_loop].
  assert (draw_step normal t (res, pos) key = Ok (res, pos)) as ->.
  { unfold draw_step. destruct (param_noise t !! key) as [sigma|] eqn:Hn; [|done].
    destruct (Qlt_le_dec 0 sigma) as [Hpos|]; [|done].
    exfalso. eapply Hfree; [|exact Hn|exact Hpos]. apply Hkeys. left. }
  simpl. apply IH. intros k Hk. apply Hkeys. by right.
Qed.

Lemma draw_noise_free t pos :
  noise_free t -> draw normal clamp_parameters t pos = Ok (clamp_parameters (params t), pos).
Proof.
  intros Hfree. unfold draw. rewrite draw_loop_noise_free; [done| |done].
  intros key Hkey. apply list_elem_of_In, in_map_iff in Hkey as ([k v] & <- & Hkv).
  apply list_elem_of_In, elem_of_map_to_list in Hkv. simpl. by exists v.
Qed.

Lemma draw_params_noise_free t count pos :
  noise_free t ->
  draw_params normal clamp_parameters t count pos
  = Ok (replicate count (clamp_parameters (params t)), pos).
Proof.
  intros Hfree. induction count as [|count IH]; simpl; [done|].
  rewrite draw_noise_free by done. simpl. rewrite IH. done.
Qed.

Lemma draw_weight_at t pos :
  draw_weight normal t pos = (weight_at normal t pos, (pos + weight_draws t)%nat).
Proof.
  unfold draw_weight, weight_at, weight_draws.
  destruct (Qlt_le_dec 0 (sigma_w t)); f_equal; lia.
Qed.

(** One bundle: its endpoints, its length, the generator position after
    it and the weight of its [q]-th connection. *)
Lemma connect_bundle t s i j kls pos :
  exists cs,
    connect normal t s i j kls pos = (cs, (pos + length kls * weight_draws t)%nat)
    /\ map endpoints cs
       = map (fun kl => (in_coord s i kl.1, out_coord s j kl.2)) kls
    /\ forall q c, cs !! q = Some c ->
         weight c = weight_at normal t (pos + q * weight_draws t) /\ delay c = 0%Q.
Proof.
  revert pos. induction kls as [|[k l] kls IH]; intros pos; simpl.
  - exists []. split; [f_equal; lia|]. split; [done|]. intros q c Hc. done.
  - rewrite draw_weight_at.
    destruct (IH (pos + weight_draws t)%nat) as (cs & -> & Hends & Hw).
    eexists. split; [f_equal; lia|]. split; [simpl; by rewrite Hends|].
    intros [|q] c Hc; simpl in Hc; simplify_eq.
    + split; [|done]. unfold weight. simpl. f_equal. lia.
    + destruct (Hw q c Hc) as [-> ->]. split; [|done]. f_equal. lia.
Qed.

Lemma connect_steps t s ijs net pos :
  exists bundles,
    foldl (connect_step normal mem t s) (net, pos) ijs
    = ({| net_populations := net_populations net;
          net_connections := net_connections net ++ concat bundles |},
       (pos + length (concat bundles) * weight_draws t)%nat)
    /\ Forall2 (bundle_of mem s) ijs bundles
    /\ forall q c, concat bundles !! q = Some c ->
         weight c = weight_at normal t (pos + q * weight_draws t) /\ delay c = 0%Q.
Proof.
  revert net pos. induction ijs as [|[i j] ijs IH]; intros net pos; simpl.
  - exists []. simpl. split; [|split; [constructor|done]].
    destruct net. simpl. rewrite app_nil_r. f_equal. lia.
  - case_decide as Hmem.
    + destruct (connect_bundle t s i j (list_prod (seq 0 s) (seq 0 s)) pos)
        as (cs & -> & Hends & Hw).
      destruct (IH (add_connections net cs)
                  (pos + length (list_prod (seq 0 s) (seq 0 s)) * weight_draws t)%nat)
        as (bundles & -> & Hb & Hws).
      assert (Hlen : length cs = length (list_prod (seq 0 s) (seq 0 s))).
      { rewrite <- (length_map endpoints cs), Hends. by rewrite length_map. }
      exists (cs :: bundles). simpl. split; [|split].
      * rewrite length_app, <- (assoc_L (++)). f_equal. rewrite Hlen. lia.
      * constructor; [|done]. unfold bundle_of. simpl. by rewrite decide_True.
      * intros q c Hc. destruct (decide (q < length cs)%nat) as [Hq|Hq].
        { rewrite lookup_app_l in Hc by done. by apply Hw. }
        rewrite lookup_app_r in Hc by lia.
        destruct (Hws _ _ Hc) as [-> ->]. split; [|done]. f_equal. rewrite <- Hlen.
        replace q with (length cs + (q - length cs))%nat at 2 by lia. lia.
    + destruct (IH net pos) as (bundles & -> & Hb & Hws).
      exists ([] :: bundles). simpl. split; [done|]. split; [|done].
      constructor; [|done]. unfold bundle_of. simpl.
      rewrite decide_False; [done|]. intros Hne. by apply Hne.
Qed.

End TopologyFacts.

Lemma clip_nonneg (x : Q) : (0 <= TopologyParams.clip x)%Q.
Proof.
  unfold TopologyParams.clip. destruct (Qlt_le_dec 0 x) as [H|H].
  - by apply Qlt_le_weak.
  - apply Qle_refl.
Qed.

Lemma bundle_of_length mem s ij cs :
  bundle_of mem s ij cs ->
  length cs = if decide (mem ij.1 ij.2 <> 0) then (s * s)%nat else 0%nat.
Proof.
  unfold bundle_of. case_decide as Hmem; [|by intros ->].
  intros Hends. rewrite <- (length_map endpoints cs), Hends. unfold replica_pairs.
  by rewrite length_map, length_prod, !length_seq.
Qed.

(** C8 (as the code has it). For every builder with [m] input bits, [n]
    output bits and multiplicity [s] whose neuron parameters carry no
    noise, [build_topology] creates exactly one source population of
    size [m * s] and one output population of size [n * s], in this
    order.  The connections are the bundles of the entries [(i, j)] of
    the trained memory in row-major order: no connection for a zero
    entry, and for a nonzero entry exactly [s * s] connections, one for
    each pair of a replica of input bit [i] and a replica of output bit
    [j], with delay 0.  Without weight jitter ([sigma_w <= 0]) every
    connection has the configured weight [w], of either sign; with
    jitter the [q]-th connection has a weight drawn for it alone (from
    the [q]-th value of the generator) and clipped to be
    non-negative. *)
Theorem build_topology_structure
  (normal : nat -> Q -> Q -> Q) (clamp_parameters : gmap string Q -> gmap string Q)
  (mem : nat -> nat -> Z) (data_params : DataParameters)
  (t : TopologyParameters) (pos : nat) :
  noise_free t ->
  let m := n_bits_in data_params in
  let n := n_bits_out data_params in
  let s := multiplicity t in
  exists net bundles,
    NetworkBuilder.build_topology normal clamp_parameters mem data_params t pos
    = Ok (net, (pos + length (NetworkBuilder.net_connections net) * weight_draws t)%nat)
    /\ NetworkBuilder.net_populations net
       = [ {| pop_count := m * s; pop_type := TYPE_SOURCE;
              pop_params := replicate (m * s) ∅; pop_record := [] |};
           {| pop_count := n * s; pop_type := neuron_type t;
              pop_params := replicate (n * s) (clamp_parameters (params t));
              pop_record := [SIG_SPIKES] |} ]
    /\ NetworkBuilder.net_connections net = concat bundles
    /\ Forall2 (bundle_of mem s) (list_prod (seq 0 m) (seq 0 n)) bundles
    /\ Forall2 (fun ij cs =>
                  length cs = if decide (mem ij.1 ij.2 <> 0) then (s * s)%nat else 0%nat)
         (list_prod (seq 0 m) (seq 0 n)) bundles
    /\ (forall q c, NetworkBuilder.net_connections net !! q = Some c ->
          weight c = weight_at normal t (pos + q * weight_draws t) /\ delay c = 0%Q)
    /\ ((0 < sigma_w t)%Q ->
        forall q c, NetworkBuilder.net_connections net !! q = Some c ->
          weight c = TopologyParams.clip (normal (pos + q)%nat (w t) (sigma_w t))
          /\ (0 <= weight c)%Q)
    /\ (~ (0 < sigma_w t)%Q ->
        forall c, c ∈ NetworkBuilder.net_connections net -> weight c = w t).
Proof.
  intros Hfree m n s. unfold NetworkBuilder.build_topology.
  rewrite (draw_params_noise_free normal clamp_parameters) by done. simpl.
  fold m n s.
  destruct (connect_steps normal mem t s (list_prod (seq 0 m) (seq 0 n))
              (NetworkBuilder.add_population
                 (NetworkBuilder.add_population
                    {| NetworkBuilder.net_populations := [];
                       NetworkBuilder.net_connections := [] |}
                    {| pop_count := m * s; pop_type := TYPE_SOURCE;
                       pop_params := replicate (m * s) ∅; pop_record := [] |})
                 {| pop_count := n * s; pop_type := neuron_type t;
                    pop_params := replicate (n * s) (clamp_parameters (params t));
                    pop_record := [SIG_SPIKES] |}) pos)
    as (bundles & Hfold & Hb & Hw).
  rewrite Hfold. simpl.
  exists {| NetworkBuilder.net_populations :=
              [ {| pop_count := m * s; pop_type := TYPE_SOURCE;
                   pop_params := replicate (m * s) ∅; pop_record := [] |};
                {| pop_count := n * s; pop_type := neuron_type t;
                   pop_params := replicate (n * s) (clamp_parameters (params t));
                   pop_record := [SIG_SPIKES] |} ];
            NetworkBuilder.net_connections := concat bundles |}, bundles.
  simpl.
  split; [done|]. split; [done|]. split; [done|]. split; [done|].
  split; [eapply Forall2_impl; [exact Hb|]; intros ij cs; apply bundle_of_length|].
  split; [exact Hw|]. split.
  - intros Hjit q c Hc. destruct (Hw q c Hc) as [Hwc _].
    assert (weight c = TopologyParams.clip (normal (pos + q)%nat (w t) (sigma_w t))) as Heq.
    { rewrite Hwc. unfold weight_at, weight_draws.
      destruct (Qlt_le_dec 0 (sigma_w t)) as [_|Hle].
      - do 2 f_equal. lia.
      - exfalso. by eapply Qlt_not_le. }
    split; [exact Heq|]. rewrite Heq. apply clip_nonneg.
  - intros Hnojit c Hc. apply list_elem_of_lookup_1 in Hc as [q Hc].
    destruct (Hw q c Hc) as [-> _]. unfold weight_at.
    by destruct (Qlt_le_dec 0 (sigma_w t)).
Qed.

Lemma build_topology_structure_witness :
  noise_free Examples.ex_jitter_weight
  /\ exists net bundles,
       NetworkBuilder.build_topology (fun p mu sigma => mu - inject_Z (Z.of_nat p) * sigma)%Q
         (fun ps => ps) (fun i j => if decide (i = j) then 1 else 0)
         Examples.ex_data_params Examples.ex_jitter_weight 0
       = Ok (net, (0 + length (NetworkBuilder.net_connections net)
                       * weight_draws Examples.ex_jitter_weight)%nat)
       /\ NetworkBuilder.net_connections net = concat bundles
       /\ length (NetworkBuilder.net_populations net) = 2%nat.
Proof.
  assert (Hfree : noise_free Examples.ex_jitter_weight).
  { intros key sigma _ Hn. simpl in Hn. by rewrite lookup_empty in Hn. }
  split; [exact Hfree|].
  destruct (build_topology_structure
              (fun p mu sigma => mu - inject_Z (Z.of_nat p) * sigma)%Q
              (fun ps => ps) (fun i j => if decide (i = j) then 1 else 0)
              Examples.ex_data_params Examples.ex_jitter_weight 0 Hfree)
    as (net & bundles & Hb & Hp & Hc & _).
  exists net, bundles. split; [exact Hb|]. split; [exact Hc|]. by rewrite Hp.
Defined.

(** C8 as stated fails: without weight jitter [draw_weight] returns the
    configured weight as it is, so a negative weight reaches the
    connection. *)
Lemma build_topology_negative_weight :
  exists net pos',
    NetworkBuilder.build_topology (fun _ mu _ => mu) (fun ps => ps) (fun _ _ => 1)
      Examples.ex_data_params Examples.ex_negative_weight 0
    = Ok (net, pos')
    /\ NetworkBuilder.net_connections net
       = [((0, 0), (1, 0), (-3) # 100, 0%Q)]%nat
    /\ ~ Forall (fun c => (0 <= weight c)%Q) (NetworkBuilder.net_connections net).
Proof.
  eexists _, _. split; [vm_compute; reflexivity|]. simpl. split; [reflexivity|].
  intros H. inversion H as [|c l Hc _]; subst. by vm_compute in Hc.
Qed.

(* ================================================================== *)
(** * Part III: further properties of the code *)
(* ================================================================== *)

(** ** [flatten]: what it accepts and what it returns *)

Section FlattenFacts.
Import NetworkInstance.

Lemma covered_cons ts ks times indices :
  covered (ts :: times) (ks :: indices)
  <-> (length ts <= length ks)%nat /\ covered times indices.
Proof.
  unfold covered. split.
  - intros H. split; [exact (H 0%nat ts eq_refl)|].
    intros i ts' Hi. exact (H (S i) ts' Hi).
  - intros [H0 H] [|i] ts' Hi; [simpl in *; by simplify_eq|exact (H i ts' Hi)].
Qed.

Lemma covered_no_tags ts times :
  covered (ts :: times) [] <-> ts = [] /\ covered times [].
Proof.
  unfold covered. split.
  - intros H. split.
    + specialize (H 0%nat ts eq_refl). simpl in H. destruct ts; [done|simpl in H; lia].
    + intros i ts' Hi. exact (H (S i) ts' Hi).
  - intros [-> H] [|i] ts' Hi; [simpl in *; by simplify_eq|exact (H i ts' Hi)].
Qed.

Lemma flatten_train_result i ts ks :
  ((length ts <= length ks)%nat /\ exists row, flatten_train i ts ks = Ok row)
  \/ ((length ks < length ts)%nat /\ flatten_train i ts ks = Raise IndexError).
Proof.
  revert ks. induction ts as [|t ts IH]; intros ks; simpl.
  - left. split; [lia|by eexists].
  - destruct ks as [|k ks]; simpl; [right; split; [lia|done]|].
    destruct (IH ks) as [[Hlen [row ->]]|[Hlen ->]]; simpl.
    + left. split; [lia|by eexists].
    + right. split; [lia|done].
Qed.

Lemma flatten_rows_result i times indices :
  (covered times indices /\ exists flat, flatten_rows i times indices = Ok flat)
  \/ (~ covered times indices /\ flatten_rows i times indices = Raise IndexError).
Proof.
  revert i indices. induction times as [|ts times IH]; intros i indices.
  - left. split; [by intros j ts' ?|by eexists].
  - cbn [flatten_rows].
    destruct indices as [|ks indices]; cbn [tail].
    + destruct ts as [|t ts].
      * destruct (IH (S i) []) as [[Hc [flat ->]]|[Hc ->]]; cbn [bind].
        { left. split; [by apply covered_no_tags|by eexists]. }
        { right. split; [|done]. by intros [_ ?]%covered_no_tags. }
      * right. split; [|done]. by intros [? _]%covered_no_tags.
    + destruct (flatten_train_result i ts ks) as [[Hlen [row Hrow]]|[Hlen Hrow]].
      * assert (match ts with
                | [] => Ok []
                | _ :: _ => flatten_train i ts ks
                end = Ok (match ts with [] => [] | _ => row end)) as ->.
        { by destruct ts. }
        cbn [bind].
        destruct (IH (S i) indices) as [[Hc [flat ->]]|[Hc ->]]; cbn [bind].
        { left. split; [by apply covered_cons|by eexists]. }
        { right. split; [|done]. by intros [_ ?]%covered_cons. }
      * destruct ts as [|t ts]; [simpl in Hlen; lia|]. rewrite Hrow. cbn [bind].
        right. split; [|done]. intros [? _]%covered_cons. lia.
Qed.

Lemma same_shape_covered times indices :
  same_shape times indices -> covered times indices.
Proof.
  induction 1 as [|ts ks times indices Hlen _ IH]; [by intros i ts ?|].
  apply covered_cons. split; [lia|done].
Qed.

Lemma flatten_rows_spikes i times indices flat :
  same_shape times indices -> tags_int32 indices ->
  flatten_rows i times indices = Ok flat ->
  Forall (fun e => exists n, fs_neuron e = (i + n)%nat
                             /\ spike_of times indices (fs_time e) (fs_tag e) n) flat.
Proof.
  intros Hshape. revert i flat.
  induction Hshape as [|ts ks times indices Hlen _ IH]; intros i flat Htags Hflat.
  - simpl in Hflat. inversion Hflat. constructor.
  - inversion Htags as [|? ? Hks Htags']; subst. cbn [flatten_rows tail] in Hflat.
    apply bind_Ok in Hflat as (row & Hrow & Hflat).
    apply bind_Ok in Hflat as (rest & Hrest & Hflat). inversion Hflat; subst.
    apply Forall_app. split.
    + assert (Hrow' : flatten_train i ts ks = Ok row).
      { destruct ts; [|done]. inversion Hrow. destruct ks; [done|simpl in Hlen; lia]. }
      clear Hrow Hrest IH.
      assert (Hgen : forall ts' ks' row' j0,
                 length ts' = length ks' -> Forall int32 ks' ->
                 flatten_train i ts' ks' = Ok row' ->
                 (forall j t k, ts' !! j = Some t -> ks' !! j = Some k ->
                    ts !! (j0 + j)%nat = Some t /\ ks !! (j0 + j)%nat = Some k) ->
                 Forall (fun e => exists n, fs_neuron e = (i + n)%nat
                    /\ spike_of (ts :: times) (ks :: indices) (fs_time e) (fs_tag e) n) row').
      { induction ts' as [|t ts' IH']; intros [|k ks'] row' j0 Hl Hi Hr Hpos;
          simpl in *; try done.
        - inversion Hr. constructor.
        - inversion Hi; subst.
          apply bind_Ok in Hr as (rest' & Hrest' & Hr). inversion Hr; subst.
          constructor.
          + exists 0%nat. split; [simpl; lia|].
            destruct (Hpos 0%nat t k eq_refl eq_refl) as [Ht Hk].
            exists ts, ks, (j0 + 0)%nat. unfold fs_time, fs_tag. simpl.
            rewrite wrap32_int32 by done. done.
          + apply (IH' ks' rest' (S j0)); [lia|done|done|].
            intros j t' k' Ht' Hk'. replace (S j0 + j)%nat with (j0 + S j)%nat by lia.
            by apply Hpos. }
      apply (Hgen ts ks row 0%nat); [done|done|done|]. by intros j t k ? ?.
    + eapply Forall_impl; [exact (IH (S i) rest Htags' Hrest)|].
      intros e (n & Hn & ts' & ks' & j & H1 & H2 & H3 & H4).
      exists (S n). split; [lia|]. by exists ts', ks', j.
Qed.

Lemma flatten_sorted times indices (flag : bool) :
  times <> [] -> same_shape times indices -> tags_int32 indices ->
  exists flat sorted,
    flatten_rows 0 times indices = Ok flat
    /\ sorted ≡ₚ flat
    /\ flatten times indices flag
       = Ok (map fs_time sorted, map fs_tag sorted, map fs_neuron sorted)
    /\ Sorted (fun a b => (if flag then lexsort_leb else time_leb) a b = true) sorted
    /\ map event flat = input_events times indices.
Proof.
  intros Hne Hshape Htags. unfold flatten.
  destruct (spike_count_nonempty times Hne) as (n & ->).
  destruct (flatten_rows_events 0 times indices Hshape Htags) as (flat & Hflat & Hev).
  rewrite Hflat. cbn [bind].
  exists flat, (if flag then Numpy.stable_sort lexsort_leb flat
                else Numpy.stable_sort time_leb flat).
  split; [done|]. destruct flag.
  - split; [apply stable_sort_perm|]. split; [done|].
    split; [apply stable_sort_Sorted, lexsort_leb_total|done].
  - split; [apply stable_sort_perm|]. split; [done|].
    split; [apply stable_sort_Sorted, time_leb_total|done].
Qed.

Lemma length_input_events times indices :
  same_shape times indices -> length (input_events times indices) = length (concat times).
Proof.
  unfold input_events. induction 1 as [|ts ks times indices Hlen _ IH]; [done|].
  simpl. rewrite !length_app, IH, length_zip_with. lia.
Qed.

End FlattenFacts.

(** X1. For a non-empty list of spike trains with tags of the same shape
    (in the int32 range), [flatten] returns three arrays with one entry
    per spike.  The entries at one position belong together: the time,
    the tag and the neuron index are those of one spike of the input.
    Without [sort_by_sample] the time array is ascending, and the array
    of (time, tag) pairs is a rearrangement of the input spikes. *)
Theorem flatten_entries_by_time (times indices : list (list Z)) :
  times <> [] -> same_shape times indices -> tags_int32 indices ->
  exists tF kF nF,
    NetworkInstance.flatten times indices false = Ok (tF, kF, nF)
    /\ length tF = length (concat times)
    /\ length kF = length (concat times)
    /\ length nF = length (concat times)
    /\ ascending tF
    /\ zip tF kF ≡ₚ input_events times indices
    /\ forall c t k n, tF !! c = Some t -> kF !! c = Some k -> nF !! c = Some n ->
         spike_of times indices t k n.
Proof.
  intros Hne Hshape Htags.
  destruct (flatten_sorted times indices false Hne Hshape Htags)
    as (flat & sorted & Hflat & Hperm & Hf & Hsorted & Hev).
  eexists _, _, _. split; [exact Hf|].
  assert (Hlen : length sorted = length (concat times)).
  { rewrite Hperm, <- (length_map event flat), Hev. by apply length_input_events. }
  rewrite !length_map. split; [done|]. split; [done|]. split; [done|].
  split; [by apply Sorted_time_ascending|].
  split; [rewrite zip_time_tag, <- Hev; by apply Permutation_map|].
  intros c t k n Ht Hk Hn.
  rewrite lookup_map in Ht. rewrite lookup_map in Hk. rewrite lookup_map in Hn.
  destruct (sorted !! c) as [e|] eqn:He; [|done]. simpl in *. simplify_eq.
  pose proof (flatten_rows_spikes 0 times indices flat Hshape Htags Hflat) as Hall.
  rewrite Forall_forall in Hall.
  destruct (Hall e) as (n & Hn & Hspike).
  { rewrite <- Hperm. by eapply list_elem_of_lookup_2. }
  simpl in Hn. by rewrite Hn.
Qed.

Lemma flatten_entries_by_time_witness :
  exists tF kF nF,
    NetworkInstance.flatten [[5; 1]; []; [3]] [[0; 1]; []; [2]] false = Ok (tF, kF, nF)
    /\ length tF = 3%nat /\ ascending tF.
Proof.
  destruct (flatten_entries_by_time [[5; 1]; []; [3]] [[0; 1]; []; [2]])
    as (tF & kF & nF & Hf & Hl & _ & _ & Hasc & _).
  - discriminate.
  - repeat constructor.
  - repeat constructor; unfold int32; lia.
  - exists tF, kF, nF. split; [exact Hf|]. split; [exact Hl|exact Hasc].
Defined.

(** X2. With [sort_by_sample=True], [flatten] orders its arrays by time
    first and by tag only among spikes of equal time (the order of
    [np.lexsort((kF, tF))]): the time array is ascending, and the tag
    array is ascending only where the tags follow the time order. *)
Theorem flatten_sort_by_sample_order (times indices : list (list Z)) :
  times <> [] -> same_shape times indices -> tags_int32 indices ->
  exists tF kF nF,
    NetworkInstance.flatten times indices true = Ok (tF, kF, nF)
    /\ length tF = length kF
    /\ zip tF kF ≡ₚ input_events times indices
    /\ lex_ascending (zip tF kF)
    /\ ascending tF
    /\ (tags_follow_time (input_events times indices) -> ascending kF).
Proof.
  intros Hne Hshape Htags.
  destruct (flatten_by_sample times indices Hne Hshape Htags)
    as (tF & kF & nF & Hf & Hlen & Hlex & Hperm).
  exists tF, kF, nF. split; [exact Hf|]. split; [exact Hlen|].
  split; [exact Hperm|]. split; [exact Hlex|].
  split; [by eapply lex_ascending_times|].
  intros Hfollow. eapply lex_ascending_tags; [done|done|].
  eapply tags_follow_time_perm; [symmetry; exact Hperm|done].
Qed.

Lemma flatten_sort_by_sample_order_witness :
  exists tF kF nF,
    NetworkInstance.flatten [[120; 100]] [[0; 1]] true = Ok (tF, kF, nF)
    /\ ascending tF.
Proof.
  destruct (flatten_sort_by_sample_order [[120; 100]] [[0; 1]])
    as (tF & kF & nF & Hf & _ & _ & _ & Hasc & _).
  - discriminate.
  - repeat constructor.
  - repeat constructor; unfold int32; lia.
  - exists tF, kF, nF. split; [exact Hf|exact Hasc].
Defined.

(** X3. [flatten] has no shape check of its own.  For tags in the int32
    range it raises [TypeError] for an empty list of trains; otherwise
    it returns exactly when every neuron has at least as many tags as
    spike times, and raises [IndexError] when a tag is missing.
    Surplus tags, and surplus tag trains, are ignored. *)
Theorem flatten_accepts (times indices : list (list Z)) (flag : bool) :
  tags_int32 indices ->
  (times = [] -> NetworkInstance.flatten times indices flag = Raise TypeError)
  /\ (times <> [] -> covered times indices ->
      exists arrays, NetworkInstance.flatten times indices flag = Ok arrays)
  /\ (times <> [] -> ~ covered times indices ->
      NetworkInstance.flatten times indices flag = Raise IndexError).
Proof.
  intros _. split; [by intros ->|]. split.
  - intros Hne Hc. unfold NetworkInstance.flatten.
    destruct (spike_count_nonempty times Hne) as (n & ->). cbn [bind].
    destruct (flatten_rows_result 0 times indices) as [[_ [flat ->]]|[Hnc _]]; [|done].
    cbn [bind]. by eexists.
  - intros Hne Hnc. unfold NetworkInstance.flatten.
    destruct (spike_count_nonempty times Hne) as (n & ->). cbn [bind].
    destruct (flatten_rows_result 0 times indices) as [[Hc _]|[_ ->]]; done.
Qed.

Lemma flatten_accepts_witness :
  (exists arrays, NetworkInstance.flatten [[1; 2]; []] [[0; 0; 7]] true = Ok arrays)
  /\ NetworkInstance.flatten [[1; 2]; [3]] [[0; 0; 7]] true = Raise IndexError.
Proof.
  destruct (flatten_accepts [[1; 2]; []] [[0; 0; 7]] true) as (_ & Hok & _);
    [repeat constructor; unfold int32; lia|].
  destruct (flatten_accepts [[1; 2]; [3]] [[0; 0; 7]] true) as (_ & _ & Herr);
    [repeat constructor; unfold int32; lia|].
  split.
  - apply Hok; [discriminate|].
    intros [|[|i]] ts Hi; simpl in Hi; simplify_eq; simpl; lia.
  - apply Herr; [discriminate|].
    intros Hc. specialize (Hc 1%nat [3] eq_refl). simpl in Hc. lia.
Defined.

(** ** [split]: what it accepts, and how windows compose *)

Section SplitFacts.
Import NetworkInstance.

Lemma split_train_result ts ks k0 k1 :
  ((length ts <= length ks)%nat /\ exists row, split_train ts ks k0 k1 = Ok row)
  \/ ((length ks < length ts)%nat /\ split_train ts ks k0 k1 = Raise IndexError).
Proof.
  revert ks. induction ts as [|t ts IH]; intros ks; simpl.
  - left. split; [lia|by eexists].
  - destruct ks as [|k ks]; simpl; [right; split; [lia|done]|].
    destruct (IH ks) as [[Hlen [row ->]]|[Hlen ->]]; simpl.
    + left. split; [lia|]. case_decide; by eexists.
    + right. split; [lia|done].
Qed.

Lemma split_rows_result times indices k0 k1 :
  (covered times indices
   /\ exists tp kp, split_rows times indices k0 k1 = Ok (tp, kp)
                    /\ length tp = length times /\ length kp = length indices)
  \/ (~ covered times indices /\ split_rows times indices k0 k1 = Raise IndexError).
Proof.
  revert indices. induction times as [|ts times IH]; intros indices.
  - left. split; [by intros j ts' ?|]. simpl. eexists _, _. split; [done|].
    by rewrite length_map.
  - cbn [split_rows]. destruct indices as [|ks indices].
    + destruct ts as [|t ts].
      * destruct (IH []) as [[Hc (tp & kp & -> & Ht & Hk)]|[Hc ->]]; cbn [bind].
        { left. split; [by apply covered_no_tags|]. eexists _, _. split; [done|].
          simpl. by rewrite Ht. }
        { right. split; [|done]. by intros [_ ?]%covered_no_tags. }
      * right. split; [|done]. by intros [? _]%covered_no_tags.
    + destruct (split_train_result ts ks k0 k1) as [[Hlen [row ->]]|[Hlen ->]]; cbn [bind].
      * destruct (IH indices) as [[Hc (tp & kp & -> & Ht & Hk)]|[Hc ->]]; cbn [bind].
        { left. split; [by apply covered_cons|]. eexists _, _. split; [done|].
          simpl. by rewrite Ht, Hk. }
        { right. split; [|done]. by intros [_ ?]%covered_cons. }
      * right. split; [|done]. intros [? _]%covered_cons. lia.
Qed.

Lemma window_partition (k0 k1 k2 : Z) (l : list (Z * Z)) :
  k0 <= k1 -> k1 <= k2 ->
  map (fun e => (e.1, e.2 - k0)) (filter (fun e => k0 <= e.2 /\ e.2 < k2) l)
  ≡ₚ map (fun e => (e.1, e.2 - k0)) (filter (fun e => k0 <= e.2 /\ e.2 < k1) l)
     ++ map (fun e : Z * Z => (e.1, e.2 + (k1 - k0)))
            (map (fun e => (e.1, e.2 - k1)) (filter (fun e => k1 <= e.2 /\ e.2 < k2) l)).
Proof.
  intros H01 H12. induction l as [|e l IH]; [done|].
  destruct (decide (k0 <= e.2 /\ e.2 < k1)) as [Hlow|Hlow].
  - rewrite (filter_cons_True (fun e => k0 <= e.2 /\ e.2 < k2)) by lia.
    rewrite (filter_cons_True (fun e => k0 <= e.2 /\ e.2 < k1)) by lia.
    rewrite (filter_cons_False (fun e => k1 <= e.2 /\ e.2 < k2)) by lia.
    simpl. by constructor.
  - destruct (decide (k1 <= e.2 /\ e.2 < k2)) as [Hhigh|Hhigh].
    + rewrite (filter_cons_True (fun e => k0 <= e.2 /\ e.2 < k2)) by lia.
      rewrite (filter_cons_False (fun e => k0 <= e.2 /\ e.2 < k1)) by lia.
      rewrite (filter_cons_True (fun e => k1 <= e.2 /\ e.2 < k2)) by lia.
      simpl. replace (e.2 - k1 + (k1 - k0)) with (e.2 - k0) by lia.
      rewrite <- Permutation_middle. by constructor.
    + rewrite (filter_cons_False (fun e => k0 <= e.2 /\ e.2 < k2)) by lia.
      rewrite (filter_cons_False (fun e => k0 <= e.2 /\ e.2 < k1)) by lia.
      rewrite (filter_cons_False (fun e => k1 <= e.2 /\ e.2 < k2)) by lia.
      done.
Qed.

Lemma window_nested (k0 k1 a b : Z) (l : list (Z * Z)) :
  0 <= a ->
  map (fun e => (e.1, e.2 - a))
      (filter (fun e => a <= e.2 /\ e.2 < b)
              (map (fun e => (e.1, e.2 - k0)) (filter (fun e => k0 <= e.2 /\ e.2 < k1) l)))
  = map (fun e => (e.1, e.2 - (k0 + a)))
        (filter (fun e => k0 + a <= e.2 /\ e.2 < Z.min (k0 + b) k1) l).
Proof.
  intros Ha. induction l as [|e l IH]; [done|].
  destruct (decide (k0 <= e.2 /\ e.2 < k1)) as [Hout|Hout].
  - rewrite (filter_cons_True (fun e => k0 <= e.2 /\ e.2 < k1)) by done.
    cbn [map]. destruct (decide (a <= e.2 - k0 /\ e.2 - k0 < b)) as [Hin|Hin].
    + rewrite (filter_cons_True (fun e => a <= e.2 /\ e.2 < b)) by (simpl; lia).
      rewrite (filter_cons_True (fun e => k0 + a <= e.2 /\ e.2 < Z.min (k0 + b) k1)) by lia.
      cbn [map]. rewrite IH. simpl. do 2 f_equal. lia.
    + rewrite (filter_cons_False (fun e => a <= e.2 /\ e.2 < b)) by (simpl; lia).
      rewrite (filter_cons_False (fun e => k0 + a <= e.2 /\ e.2 < Z.min (k0 + b) k1)) by lia.
      done.
  - rewrite (filter_cons_False (fun e => k0 <= e.2 /\ e.2 < k1)) by done.
    rewrite (filter_cons_False (fun e => k0 + a <= e.2 /\ e.2 < Z.min (k0 + b) k1)) by lia.
    done.
Qed.

Lemma map_fst_pair {A B : Type} (g : A * B -> B) (l : list (A * B)) :
  map fst (map (fun e => (e.1, g e)) l) = map fst l.
Proof. induction l as [|e l IH]; simpl; [done|]. by f_equal. Qed.

Lemma map_snd_pair {A B : Type} (g : A * B -> B) (h : B -> B) (l : list (A * B)) :
  map (fun e => h e.2) (map (fun e => (e.1, g e)) l) = map (fun e => h (g e)) l.
Proof. induction l as [|e l IH]; simpl; [done|]. by f_equal. Qed.

Lemma kept_nested ts ks k0 k1 a b :
  0 <= a ->
  let part := kept k0 k1 ts ks in
  let again := kept a b (map fst part) (map (fun e => e.2 - k0) part) in
  let once := kept (k0 + a) (Z.min (k0 + b) k1) ts ks in
  map fst again = map fst once
  /\ map (fun e => e.2 - a) again = map (fun e => e.2 - (k0 + a)) once.
Proof.
  intros Ha part again once.
  pose proof (window_nested k0 k1 a b (zip ts ks) Ha) as Hn.
  assert (Hagain : again = filter (fun e => a <= e.2 /\ e.2 < b)
                                  (map (fun e => (e.1, e.2 - k0)) part)).
  { unfold again, kept at 1. by rewrite zip_map_map. }
  fold (kept k0 k1 ts ks) in Hn. fold part in Hn.
  rewrite <- Hagain in Hn.
  fold (kept (k0 + a) (Z.min (k0 + b) k1) ts ks) in Hn. fold once in Hn.
  split.
  - rewrite <- (map_fst_pair (fun e => e.2 - a) again), Hn. apply map_fst_pair.
  - transitivity (map (fun e : Z * Z => e.2) (map (fun e => (e.1, e.2 - a)) again)).
    { by rewrite (map_snd_pair (fun e => e.2 - a) (fun k => k)). }
    rewrite Hn. by rewrite (map_snd_pair (fun e => e.2 - (k0 + a)) (fun k => k)).
Qed.

Lemma split_train_within ts ks k0 k1 :
  length ts = length ks -> Forall (fun k => k0 <= k < k1) ks ->
  split_train ts ks k0 k1 = Ok (ts, map (fun k => k - k0) ks).
Proof.
  revert ks. induction ts as [|t ts IH]; intros [|k ks] Hlen Hks; try done.
  inversion Hks; subst. simpl in Hlen. simpl. rewrite IH by (done || lia).
  simpl. rewrite decide_True by lia. done.
Qed.

End SplitFacts.

(** X4. [split] checks no shapes.  It returns exactly when every neuron
    has at least as many tags as spike times, with one part per spike
    train and one per tag train; it raises [IndexError] when a tag is
    missing. *)
Theorem split_accepts (times indices : list (list Z)) (k0 k1 : Z) :
  (covered times indices ->
   exists times_part indices_part,
     NetworkInstance.split times indices k0 k1 = Ok (times_part, indices_part)
     /\ length times_part = length times
     /\ length indices_part = length indices)
  /\ (~ covered times indices ->
      NetworkInstance.split times indices k0 k1 = Raise IndexError).
Proof.
  unfold NetworkInstance.split.
  destruct (split_rows_result times indices k0 k1) as [[Hc Hok]|[Hnc Herr]].
  - split; [by intros _|done].
  - split; [done|by intros _].
Qed.

Lemma split_accepts_witness :
  (exists times_part indices_part,
     NetworkInstance.split [[1; 2]; []] [[0; 5; 7]; []; [3]] 0 4
     = Ok (times_part, indices_part)
     /\ length times_part = 2%nat /\ length indices_part = 3%nat)
  /\ NetworkInstance.split [[1; 2]; [9]] [[0; 5; 7]] 0 4 = Raise IndexError.
Proof.
  destruct (split_accepts [[1; 2]; []] [[0; 5; 7]; []; [3]] 0 4) as (Hok & _).
  destruct (split_accepts [[1; 2]; [9]] [[0; 5; 7]] 0 4) as (_ & Herr).
  split.
  - apply Hok. intros [|[|i]] ts Hi; simpl in Hi; simplify_eq; simpl; lia.
  - apply Herr. intros Hc. specialize (Hc 1%nat [9] eq_refl). simpl in Hc. lia.
Defined.

(** X5. Adjacent windows lose and duplicate nothing: for [k0 <= k1 <= k2]
    the events that [split] returns for the window [[k0, k2)] are, for
    every neuron, the events of the window [[k0, k1)] together with those
    of the window [[k1, k2)], the tags of the latter moved up by
    [k1 - k0]. *)
Theorem split_adjacent_windows (times indices : list (list Z)) (k0 k1 k2 : Z) :
  same_shape times indices -> k0 <= k1 -> k1 <= k2 ->
  exists whole low high,
    NetworkInstance.split times indices k0 k2 = Ok whole
    /\ NetworkInstance.split times indices k0 k1 = Ok low
    /\ NetworkInstance.split times indices k1 k2 = Ok high
    /\ forall i, (i < length times)%nat ->
         exists tw kw tl kl th kh,
           whole.1 !! i = Some tw /\ whole.2 !! i = Some kw
           /\ low.1 !! i = Some tl /\ low.2 !! i = Some kl
           /\ high.1 !! i = Some th /\ high.2 !! i = Some kh
           /\ zip tw kw
              ≡ₚ zip tl kl ++ map (fun e : Z * Z => (e.1, e.2 + (k1 - k0))) (zip th kh).
Proof.
  intros Hshape H01 H12. unfold NetworkInstance.split.
  rewrite !split_rows_kept by done.
  eexists _, _, _. split; [done|]. split; [done|]. split; [done|].
  intros i Hi. cbn [fst snd].
  destruct (lookup_lt_is_Some_2 times i Hi) as [ts Hts].
  destruct (lookup_lt_is_Some_2 indices i) as [ks Hks].
  { by rewrite <- (Forall2_length _ _ _ Hshape). }
  eexists _, _, _, _, _, _.
  repeat (split; [rewrite lookup_zip_with, Hts; simpl; rewrite Hks; done|]).
  rewrite !zip_map_map. apply window_partition; done.
Qed.

Lemma split_adjacent_windows_witness :
  exists whole low high,
    NetworkInstance.split [[0; 10; 20]; [5]] [[2; 0; 1]; [1]] 0 3 = Ok whole
    /\ NetworkInstance.split [[0; 10; 20]; [5]] [[2; 0; 1]; [1]] 0 1 = Ok low
    /\ NetworkInstance.split [[0; 10; 20]; [5]] [[2; 0; 1]; [1]] 1 3 = Ok high.
Proof.
  destruct (split_adjacent_windows [[0; 10; 20]; [5]] [[2; 0; 1]; [1]] 0 1 3)
    as (whole & low & high & H1 & H2 & H3 & _).
  - repeat constructor.
  - lia.
  - lia.
  - by exists whole, low, high.
Defined.

(** X6. Splitting a part again is splitting the original once: for
    [0 <= a], the window [[a, b)] of the part for [[k0, k1)] is the part
    of the original for the window [[k0 + a, min (k0 + b) k1)]. *)
Theorem split_of_split (times indices : list (list Z)) (k0 k1 a b : Z) :
  same_shape times indices -> 0 <= a ->
  (part <- NetworkInstance.split times indices k0 k1;;
   NetworkInstance.split part.1 part.2 a b)
  = NetworkInstance.split times indices (k0 + a) (Z.min (k0 + b) k1).
Proof.
  intros Hshape Ha. unfold NetworkInstance.split.
  rewrite !split_rows_kept by done. cbn [bind fst snd].
  rewrite split_rows_kept.
  2:{ clear -Hshape. induction Hshape; simpl; constructor; [|done].
      by rewrite !length_map. }
  f_equal. clear -Hshape Ha.
  induction Hshape as [|ts ks times indices Hlen _ IH]; [done|].
  cbn [zip_with]. injection IH as IH1 IH2. rewrite IH1, IH2.
  destruct (kept_nested ts ks k0 k1 a b Ha) as [-> ->]. done.
Qed.

Lemma split_of_split_witness :
  (part <- NetworkInstance.split [[0; 10; 20; 30]] [[0; 1; 2; 3]] 1 4;;
   NetworkInstance.split part.1 part.2 1 5)
  = Ok ([[20; 30]], [[0; 1]]).
Proof.
  rewrite (split_of_split [[0; 10; 20; 30]] [[0; 1; 2; 3]] 1 4 1 5).
  - reflexivity.
  - repeat constructor.
  - lia.
Defined.

(** X7. A window that contains every tag keeps every spike: [split]
    returns the spike trains unchanged and the tags moved down by [k0];
    for [k0 = 0] the tags are unchanged as well. *)
Theorem split_full_window (times indices : list (list Z)) (k0 k1 : Z) :
  same_shape times indices -> tags_within k0 k1 indices ->
  NetworkInstance.split times indices k0 k1
  = Ok (times, map (map (fun k => k - k0)) indices).
Proof.
  intros Hshape. unfold NetworkInstance.split, tags_within.
  induction Hshape as [|ts ks times indices Hlen _ IH]; intros Htags; [done|].
  inversion Htags; subst. cbn [NetworkInstance.split_rows].
  rewrite split_train_within by done. cbn [bind].
  rewrite IH by done. done.
Qed.

Lemma split_full_window_witness :
  NetworkInstance.split [[0; 10]; []; [5]] [[3; 2]; []; [4]] 2 5
  = Ok ([[0; 10]; []; [5]], [[1; 0]; []; [2]]).
Proof.
  apply (split_full_window [[0; 10]; []; [5]] [[3; 2]; []; [4]] 2 5).
  - repeat constructor.
  - repeat constructor; lia.
Defined.

(** ** [build_analysis_static]: the records of a temporal split *)

Section AnalysisFacts.
Import NetworkInstanceAnalysis.

Variables (input_times input_indices output_times output_indices : list (list Z)).
Variables (input_params : list InputParameters) (data_params : DataParameters).
Variables (topology_params : TopologyParameters) (meta_data : string).
Variables (mat_in mat_out : matrix).
Hypothesis Hin : same_shape input_times input_indices.
Hypothesis Hout : same_shape output_times output_indices.

Lemma analysis_loop_records (input_split : list Z) (i : nat) (k0 : Z) :
  (i + length input_split <= length input_params)%nat ->
  exists records,
    analysis_loop input_times input_indices output_times output_indices
      input_params data_params topology_params meta_data mat_in mat_out
      i k0 input_split = Ok records
    /\ length records = length input_split
    /\ forall j k r, input_split !! j = Some k -> records !! j = Some r ->
         NetworkInstance.split input_times input_indices (window_start k0 input_split j) k
         = Ok (Analysis.input_times r, Analysis.input_indices r)
         /\ NetworkInstance.split output_times output_indices
              (window_start k0 input_split j) k
            = Ok (Analysis.output_times r, Analysis.output_indices r)
         /\ input_params !! (i + j)%nat = Some (Analysis.input_params r)
         /\ Analysis.data_params r = data_params
         /\ Analysis.topology_params r = topology_params
         /\ Analysis.meta_data r = meta_data
         /\ Analysis.mat_in r = mat_in
         /\ Analysis.mat_out r = mat_out.
Proof.
  revert i k0. induction input_split as [|k input_split IH]; intros i k0 Hlen.
  - exists []. split; [done|]. split; [done|]. by intros j k r ?.
  - simpl in Hlen. cbn [analysis_loop].
    unfold NetworkInstance.split at 1 2.
    rewrite !split_rows_kept by done. cbn [bind fst snd].
    destruct (lookup_lt_is_Some_2 input_params i) as [ip Hip]; [lia|].
    unfold getitem at 1. rewrite Hip. cbn [bind].
    destruct (IH (S i) k) as (rest & -> & Hrest & Hall); [lia|]. cbn [bind].
    eexists. split; [done|]. split; [simpl; by rewrite Hrest|].
    intros [|j] k' r Hk Hr; simpl in Hk, Hr; simplify_eq.
    + cbn [window_start]. unfold NetworkInstance.split.
      rewrite !split_rows_kept by done. simpl.
      rewrite Nat.add_0_r. done.
    + destruct (Hall j k' r Hk Hr) as (H1 & H2 & H3 & Hrec).
      replace (i + S j)%nat with (S i + j)%nat by lia.
      split; [|split; [|done]].
      * rewrite <- H1. f_equal. by destruct j.
      * rewrite <- H2. f_equal. by destruct j.
Qed.

Lemma analysis_loop_short (input_split : list Z) (i : nat) (k0 : Z) :
  input_split <> [] -> (length input_params < i + length input_split)%nat ->
  analysis_loop input_times input_indices output_times output_indices
    input_params data_params topology_params meta_data mat_in mat_out
    i k0 input_split = Raise IndexError.
Proof.
  revert i k0. induction input_split as [|k input_split IH]; intros i k0 Hne Hlen; [done|].
  simpl in Hlen. cbn [analysis_loop].
  unfold NetworkInstance.split at 1 2.
  rewrite !split_rows_kept by done. cbn [bind fst snd].
  unfold getitem at 1.
  destruct (input_params !! i) as [ip|] eqn:Hip; [|done]. cbn [bind].
  apply lookup_lt_Some in Hip.
  rewrite IH; [done| |lia].
  destruct input_split; [simpl in Hlen; lia|done].
Qed.

End AnalysisFacts.

Section MatchedTags.
Import NetworkInstance.

Lemma Forall2_Forall2_same_shape {P : Z -> Z -> Prop} (xs ys : list (list Z)) :
  Forall2 (Forall2 P) xs ys -> same_shape xs ys.
Proof.
  induction 1 as [|x y xs ys Hxy _ IH]; constructor; [|done].
  by eapply Forall2_length.
Qed.

Lemma fold_max_upper (l : list Z) (a : Z) :
  let m := fold_left (fun m y => if decide (m < y) then y else m) l a in
  m ∈ a :: l /\ forall x, x ∈ a :: l -> x <= m.
Proof.
  revert a. induction l as [|b l IH]; intros a; simpl.
  - split; [left|]. intros x ->%list_elem_of_singleton. lia.
  - destruct (IH (if decide (a < b) then b else a)) as [Hmem Hle]. split.
    + apply elem_of_cons in Hmem as [->|Hmem].
      * case_decide; [right; left|left].
      * by do 2 right.
    + intros x [->|[->|Hx]%elem_of_cons]%elem_of_cons.
      * etransitivity; [|apply Hle; left]. case_decide; lia.
      * etransitivity; [|apply Hle; left]. case_decide; lia.
      * apply Hle. by right.
Qed.

Lemma py_max_upper (xs : list Z) :
  xs <> [] -> exists m, py_max xs = Ok m /\ m ∈ xs /\ forall x, x ∈ xs -> x <= m.
Proof.
  destruct xs as [|a l]; [done|]. intros _. eexists. split; [done|].
  apply fold_max_upper.
Qed.

Lemma default_input_split_top (indices : list (list Z)) :
  indices <> [] -> Forall (fun ks => ks <> []) indices ->
  exists top,
    NetworkInstanceAnalysis.default_input_split indices = Ok [top + 1]
    /\ (exists ks, ks ∈ indices /\ top ∈ ks)
    /\ Forall (Forall (fun k => k <= top)) indices.
Proof.
  intros Hne Hall. unfold NetworkInstanceAnalysis.default_input_split.
  assert (Hmax : exists maxima, mapM py_max indices = Ok maxima
            /\ Forall2 (fun ks m => m ∈ ks /\ forall x, x ∈ ks -> x <= m) indices maxima).
  { clear Hne. induction Hall as [|ks indices Hks _ (maxima & Hm & HF)].
    - exists []. by split.
    - destruct (py_max_upper ks Hks) as (m & Hpm & Hmem & Hle).
      exists (m :: maxima). simpl. rewrite Hpm, Hm. simpl. split; [done|].
      by constructor. }
  destruct Hmax as (maxima & -> & HF). cbn [bind].
  destruct (py_max_upper maxima) as (top & -> & Hmem & Hle).
  { intros ->. apply Forall2_nil_inv_r in HF. done. }
  cbn [bind]. exists top. split; [done|]. split.
  - apply list_elem_of_lookup in Hmem as [i Hi].
    destruct (Forall2_lookup_r _ _ _ _ _ HF Hi) as (ks & Hks & Hin & _).
    exists ks. split; [by eapply list_elem_of_lookup_2|done].
  - apply Forall_forall. intros ks Hks. apply Forall_forall. intros k Hk.
    apply list_elem_of_lookup in Hks as [i Hi].
    destruct (Forall2_lookup_l _ _ _ _ _ HF Hi) as (m & Hm & _ & Hle').
    etransitivity; [by apply Hle'|]. apply Hle. by eapply list_elem_of_lookup_2.
Qed.

Lemma map_map_sub_0 (l : list (list Z)) : map (map (fun k => k - 0)) l = l.
Proof.
  induction l as [|ks l IH]; simpl; [done|]. rewrite IH. f_equal.
  induction ks as [|k ks IHks]; simpl; [done|]. rewrite IHks. f_equal. lia.
Qed.

End MatchedTags.

(** X8. For well-shaped input, a non-empty temporal split and at least as
    many input parameter sets as windows, [build_analysis_static] returns
    one record per window.  Record [j] holds what [split] returns for the
    input and for the matched output on the window from the previous
    boundary (0 for the first window) to boundary [j], the [j]-th input
    parameter set, and the data, topology and matrix descriptors
    unchanged. *)
Theorem build_analysis_static_records
  (input_times input_indices : list (list Z)) (output : list pop_output)
  (spikes : list (list Z)) (input_params : list InputParameters)
  (data_params : DataParameters) (topology_params : TopologyParameters)
  (meta_data : string) (mat_in mat_out : matrix) (input_split : list Z) :
  input_times <> [] -> same_shape input_times input_indices ->
  tags_int32 input_indices ->
  output !! 1%nat = Some (Some spikes) ->
  input_split <> [] ->
  (length input_split <= length input_params)%nat ->
  exists tags records,
    NetworkInstance.match_static input_times input_indices spikes = Ok (spikes, tags)
    /\ NetworkInstanceAnalysis.build_analysis_static input_times input_indices output
         input_params data_params topology_params meta_data mat_in mat_out input_split
       = Ok records
    /\ length records = length input_split
    /\ forall j k r, input_split !! j = Some k -> records !! j = Some r ->
         NetworkInstance.split input_times input_indices (window_start 0 input_split j) k
         = Ok (Analysis.input_times r, Analysis.input_indices r)
         /\ NetworkInstance.split spikes tags (window_start 0 input_split j) k
            = Ok (Analysis.output_times r, Analysis.output_indices r)
         /\ input_params !! j = Some (Analysis.input_params r)
         /\ Analysis.data_params r = data_params
         /\ Analysis.topology_params r = topology_params
         /\ Analysis.meta_data r = meta_data
         /\ Analysis.mat_in r = mat_in
         /\ Analysis.mat_out r = mat_out.
Proof.
  intros Hne Hshape Htags Hout Hsplit Hlen.
  unfold NetworkInstanceAnalysis.build_analysis_static, getitem.
  rewrite Hout. cbn [bind].
  destruct (match_static_assigns input_times input_indices spikes Hne Hshape Htags)
    as (tags & Hmatch & Hnear).
  rewrite Hmatch. cbn [bind fst snd].
  rewrite decide_False by (by destruct input_split). cbn [bind].
  exists tags.
  destruct (analysis_loop_records input_times input_indices spikes tags input_params
              data_params topology_params meta_data mat_in mat_out Hshape
              (Forall2_Forall2_same_shape _ _ Hnear) input_split 0 0)
    as (records & Hloop & Hrecords & Hall); [simpl; lia|].
  exists records. split; [done|]. split; [done|]. split; [done|].
  intros j k r Hk Hr. exact (Hall j k r Hk Hr).
Qed.

Lemma build_analysis_static_records_witness :
  exists records,
    NetworkInstanceAnalysis.build_analysis_static [[0; 10; 20]] [[0; 1; 2]]
      [None; Some [[12]]] [Examples.ex_input_params; Examples.ex_input_params]
      Examples.ex_data_params Examples.ex_topology_params "" (MList []) (MList []) [2; 3]
    = Ok records
    /\ length records = 2%nat.
Proof.
  destruct (build_analysis_static_records [[0; 10; 20]] [[0; 1; 2]]
              [None; Some [[12]]] [[12]]
              [Examples.ex_input_params; Examples.ex_input_params]
              Examples.ex_data_params Examples.ex_topology_params ""
              (MList []) (MList []) [2; 3])
    as (tags & records & _ & Hok & Hlen & _).
  - discriminate.
  - repeat constructor.
  - repeat constructor; unfold int32; lia.
  - reflexivity.
  - discriminate.
  - simpl. lia.
  - exists records. split; [exact Hok|exact Hlen].
Defined.

(** X9. [build_analysis_static] reads one input parameter set per window
    of the temporal split: with fewer parameter sets than windows it
    raises [IndexError] and returns no record at all. *)
Theorem build_analysis_static_few_params
  (input_times input_indices : list (list Z)) (output : list pop_output)
  (spikes : list (list Z)) (input_params : list InputParameters)
  (data_params : DataParameters) (topology_params : TopologyParameters)
  (meta_data : string) (mat_in mat_out : matrix) (input_split : list Z) :
  input_times <> [] -> same_shape input_times input_indices ->
  tags_int32 input_indices ->
  output !! 1%nat = Some (Some spikes) ->
  (length input_params < length input_split)%nat ->
  NetworkInstanceAnalysis.build_analysis_static input_times input_indices output
    input_params data_params topology_params meta_data mat_in mat_out input_split
  = Raise IndexError.
Proof.
  intros Hne Hshape Htags Hout Hlen.
  unfold NetworkInstanceAnalysis.build_analysis_static, getitem.
  rewrite Hout. cbn [bind].
  destruct (match_static_assigns input_times input_indices spikes Hne Hshape Htags)
    as (tags & Hmatch & Hnear).
  rewrite Hmatch. cbn [bind fst snd].
  rewrite decide_False by (destruct input_split; simpl in *; [lia|done]). cbn [bind].
  apply analysis_loop_short; [done| |..].
  - exact (Forall2_Forall2_same_shape _ _ Hnear).
  - destruct input_split; simpl in *; [lia|done].
  - simpl. lia.
Qed.

Lemma build_analysis_static_few_params_witness :
  NetworkInstanceAnalysis.build_analysis_static [[0; 10; 20]] [[0; 1; 2]]
    [None; Some [[12]]] [Examples.ex_input_params]
    Examples.ex_data_params Examples.ex_topology_params "" (MList []) (MList []) [2; 3]
  = Raise IndexError.
Proof.
  apply (build_analysis_static_few_params [[0; 10; 20]] [[0; 1; 2]]
           [None; Some [[12]]] [[12]]).
  - discriminate.
  - repeat constructor.
  - repeat constructor; unfold int32; lia.
  - reflexivity.
  - simpl. lia.
Defined.

(** X10. Without a recorded temporal split, when every input neuron has
    a spike and no tag is negative, [build_analysis_static] returns a
    single record that carries the whole input and the whole matched
    output unchanged, with the first input parameter set. *)
Theorem build_analysis_static_single_record
  (input_times input_indices : list (list Z)) (output : list pop_output)
  (spikes : list (list Z)) (input_params : list InputParameters)
  (ip : InputParameters)
  (data_params : DataParameters) (topology_params : TopologyParameters)
  (meta_data : string) (mat_in mat_out : matrix) :
  input_times <> [] -> same_shape input_times input_indices ->
  tags_int32 input_indices ->
  Forall (fun ks => ks <> []) input_indices ->
  Forall (Forall (fun k => 0 <= k)) input_indices ->
  output !! 1%nat = Some (Some spikes) ->
  input_params !! 0%nat = Some ip ->
  exists tags,
    NetworkInstance.match_static input_times input_indices spikes = Ok (spikes, tags)
    /\ NetworkInstanceAnalysis.build_analysis_static input_times input_indices output
         input_params data_params topology_params meta_data mat_in mat_out []
       = Ok [ {| Analysis.input_times := input_times;
                 Analysis.input_indices := input_indices;
                 Analysis.output_times := spikes;
                 Analysis.output_indices := tags;
                 Analysis.input_params := ip;
                 Analysis.data_params := data_params;
                 Analysis.topology_params := topology_params;
                 Analysis.meta_data := meta_data;
                 Analysis.mat_in := mat_in;
                 Analysis.mat_out := mat_out |} ].
Proof.
  intros Hne Hshape Htags Hfull Hpos Hout Hip.
  unfold NetworkInstanceAnalysis.build_analysis_static, getitem.
  rewrite Hout. cbn [bind].
  destruct (match_static_assigns input_times input_indices spikes Hne Hshape Htags)
    as (tags & Hmatch & Hnear).
  rewrite Hmatch. cbn [bind fst snd]. exists tags. split; [done|].
  rewrite decide_True by done.
  assert (Hne' : input_indices <> []).
  { intros ->. apply Forall2_nil_inv_r in Hshape. done. }
  destruct (default_input_split_top input_indices Hne' Hfull)
    as (top & -> & (ks0 & Hks0 & Htop) & Hle).
  cbn [bind NetworkInstanceAnalysis.analysis_loop].
  assert (Htop0 : 0 <= top).
  { rewrite Forall_forall in Hpos. specialize (Hpos ks0 Hks0).
    rewrite Forall_forall in Hpos. by apply Hpos. }
  rewrite (split_full_window input_times input_indices 0 (top + 1) Hshape).
  2:{ unfold tags_within. apply Forall_forall. intros ks Hks.
      rewrite Forall_forall in Hpos, Hle. specialize (Hpos ks Hks).
      specialize (Hle ks Hks). rewrite Forall_forall in Hpos, Hle.
      apply Forall_forall. intros k Hk. specialize (Hpos k Hk).
      specialize (Hle k Hk). lia. }
  cbn [bind fst snd].
  rewrite (split_full_window spikes tags 0 (top + 1)
             (Forall2_Forall2_same_shape _ _ Hnear)).
  2:{ unfold tags_within. apply Forall_forall. intros ks Hks.
      apply Forall_forall. intros k Hk.
      apply list_elem_of_lookup in Hks as [i Hi].
      destruct (Forall2_lookup_r _ _ _ _ _ Hnear Hi) as (ts & _ & Hrow).
      apply list_elem_of_lookup in Hk as [j Hj].
      destruct (Forall2_lookup_r _ _ _ _ _ Hrow Hj) as (t & _ & Hk).
      assert (Htag : forall t', (t', k) ∈ input_events input_times input_indices ->
                0 <= k < top + 1).
      { intros t' Hev.
        destruct (input_events_tag _ _ _ _ Hshape Hev) as (ks' & Hks' & Hk').
        rewrite Forall_forall in Hpos, Hle. specialize (Hpos ks' Hks').
        specialize (Hle ks' Hks'). rewrite Forall_forall in Hpos, Hle.
        specialize (Hpos k Hk'). specialize (Hle k Hk'). lia. }
      destruct Hk as [(t' & Hev & _)|[(_ & t' & Hev & _)|(_ & ->)]];
        [by eapply Htag|by eapply Htag|lia]. }
  cbn [bind fst snd]. unfold getitem. rewrite Hip. cbn [bind].
  by rewrite !map_map_sub_0.
Qed.

Lemma build_analysis_static_single_record_witness :
  exists tags,
    NetworkInstanceAnalysis.build_analysis_static [[0; 10]; [5]] [[0; 1]; [1]]
      [None; Some [[12]; []]] [Examples.ex_input_params]
      Examples.ex_data_params Examples.ex_topology_params "" (MList []) (MList []) []
    = Ok [ {| Analysis.input_times := [[0; 10]; [5]];
              Analysis.input_indices := [[0; 1]; [1]];
              Analysis.output_times := [[12]; []];
              Analysis.output_indices := tags;
              Analysis.input_params := Examples.ex_input_params;
              Analysis.data_params := Examples.ex_data_params;
              Analysis.topology_params := Examples.ex_topology_params;
              Analysis.meta_data := EmptyString;
              Analysis.mat_in := MList [];
              Analysis.mat_out := MList [] |} ].
Proof.
  destruct (build_analysis_static_single_record [[0; 10]; [5]] [[0; 1]; [1]]
              [None; Some [[12]; []]] [[12]; []] [Examples.ex_input_params]
              Examples.ex_input_params Examples.ex_data_params
              Examples.ex_topology_params "" (MList []) (MList []))
    as (tags & _ & Hok).
  - discriminate.
  - repeat constructor.
  - repeat constructor; unfold int32; lia.
  - repeat constructor; discriminate.
  - repeat constructor; lia.
  - reflexivity.
  - reflexivity.
  - exists tags. exact Hok.
Defined.

(** ** Pools: connections and neuron counts *)

Section PoolFacts.
Import NetworkPool.

Lemma add_networks_connections_eq (self : Pool.t) (units : list Instance.t) :
  Pool.connections (add_networks self units)
  = Pool.connections self ++ merged_connections (length (Pool.populations self)) units.
Proof.
  revert self. induction units as [|u units IH]; intros self.
  - simpl. by rewrite app_nil_r.
  - unfold add_networks in *. cbn [foldl]. rewrite IH.
    cbn [add_network Pool.connections Pool.populations merged_connections].
    rewrite adapt_connections_app, length_app. by rewrite <- (assoc_L (++)).
Qed.

Lemma merged_connections_between (base : nat) (units : list Instance.t) :
  Forall closed_unit units ->
  Forall (connection_between base
            (base + length (concat (map Instance.populations units))))
         (merged_connections base units).
Proof.
  intros Hclosed. revert base.
  induction Hclosed as [|u units Hu _ IH]; intros base; [constructor|].
  cbn [merged_connections map concat]. rewrite length_app. apply Forall_app. split.
  - unfold closed_unit in Hu. clear IH. induction Hu as [|c cs Hc _ IHcs]; [constructor|].
    cbn [map]. constructor; [|done].
    destruct Hc as [Hsrc Htar]. unfold connection_between, offset_connection. simpl. lia.
  - eapply Forall_impl; [apply IH|].
    intros c [Hsrc Htar]. unfold connection_between. lia.
Qed.

Lemma foldl_add_sum (a : nat) (l : list nat) : foldl Nat.add a l = (a + sum_list l)%nat.
Proof.
  revert a. induction l as [|n l IH]; intros a; simpl; [lia|]. rewrite IH. lia.
Qed.

Lemma sum_list_append (l k : list nat) :
  sum_list (l ++ k) = (sum_list l + sum_list k)%nat.
Proof. induction l as [|n l IH]; simpl; [done|]. rewrite IH. lia. Qed.

Lemma neuron_count_static_app (p q : list Population) (count_sources : bool) :
  NetworkInstanceAnalysis.neuron_count_static (p ++ q) count_sources
  = (NetworkInstanceAnalysis.neuron_count_static p count_sources
     + NetworkInstanceAnalysis.neuron_count_static q count_sources)%nat.
Proof.
  unfold NetworkInstanceAnalysis.neuron_count_static.
  rewrite !foldl_add_sum, map_app, sum_list_append. lia.
Qed.

End PoolFacts.

(** X11. [add_networks] keeps the units apart.  The connections already
    in the pool stay as they are, and when every added unit refers in
    its connections to its own populations only, every connection that
    [add_networks] adds refers to populations that were added with it:
    none to a population the pool held before, none beyond the merged
    populations. *)
Theorem add_networks_connections_closed (self : Pool.t) (units : list Instance.t) :
  Forall closed_unit units ->
  let pool := NetworkPool.add_networks self units in
  exists added,
    Pool.connections pool = Pool.connections self ++ added
    /\ added = merged_connections (length (Pool.populations self)) units
    /\ length added = length (concat (map Instance.connections units))
    /\ Forall (connection_between (length (Pool.populations self))
                 (length (Pool.populations pool))) added.
Proof.
  intros Hclosed pool.
  exists (merged_connections (length (Pool.populations self)) units).
  split; [apply add_networks_connections_eq|]. split; [done|]. split.
  - generalize (length (Pool.populations self)). clear.
    induction units as [|u units IH]; intros base; [done|].
    cbn [merged_connections map concat]. by rewrite !length_app, length_map, IH.
  - destruct (add_networks_fields self units) as (Hp & _). unfold pool.
    rewrite Hp, length_app. by apply merged_connections_between.
Qed.

Lemma add_networks_connections_closed_witness :
  exists added,
    Pool.connections
      (NetworkPool.add_networks NetworkPool.empty [Examples.ex_unit; Examples.ex_unit])
    = added
    /\ Forall (connection_between 0
                 (length (Pool.populations
                    (NetworkPool.add_networks NetworkPool.empty
                       [Examples.ex_unit; Examples.ex_unit])))) added.
Proof.
  destruct (add_networks_connections_closed NetworkPool.empty
              [Examples.ex_unit; Examples.ex_unit])
    as (added & Heq & _ & _ & Hall).
  - repeat constructor; simpl; lia.
  - exists added. split; [exact Heq|exact Hall].
Defined.

(** X12. The neuron count of a pool is the sum of the neuron counts of
    its units: after [add_networks] the pool counts what it counted
    before plus the count of every added unit, with and without the
    spike sources; and the count without sources never exceeds the count
    with sources. *)
Theorem pool_neuron_count_additive (self : Pool.t) (units : list Instance.t)
  (count_sources : bool) :
  NetworkPool.neuron_count (NetworkPool.add_networks self units) count_sources
  = (NetworkPool.neuron_count self count_sources
     + sum_list (map (fun u => NetworkInstanceAnalysis.neuron_count u count_sources) units))%nat
  /\ (NetworkPool.neuron_count (NetworkPool.add_networks self units) false
      <= NetworkPool.neuron_count (NetworkPool.add_networks self units) true)%nat.
Proof.
  split.
  - unfold NetworkPool.neuron_count, NetworkInstanceAnalysis.neuron_count.
    destruct (add_networks_fields self units) as (-> & _).
    rewrite neuron_count_static_app. f_equal.
    induction units as [|u units IH]; [done|].
    cbn [map concat sum_list]. by rewrite neuron_count_static_app, IH.
  - unfold NetworkPool.neuron_count, NetworkInstanceAnalysis.neuron_count_static.
    rewrite !foldl_add_sum.
    induction (Pool.populations (NetworkPool.add_networks self units)) as [|p ps IH];
      [done|].
    cbn [map sum_list]. unfold id in *.
    destruct (decide (pop_type p = TYPE_SOURCE)); lia.
Qed.

(** ** Analysis records: latencies and the output matrix *)

Lemma calculate_latencies_ordered_witness :
  NetworkAnalysis.calculate_latencies ex_ordered_analysis
  = Ok [NetworkAnalysis.Finite 1; NetworkAnalysis.Finite 1].
Proof.
  rewrite (calculate_latencies_ordered ex_ordered_analysis).
  - reflexivity.
  - discriminate.
  - repeat constructor.
  - repeat constructor; unfold int32; lia.
  - discriminate.
  - repeat constructor.
  - repeat constructor; unfold int32; lia.
  - intros e1 e2 H1 H2. simpl in H1, H2.
    apply elem_of_cons in H1 as [->|H1]; [|apply list_elem_of_singleton in H1 as ->];
      (apply elem_of_cons in H2 as [->|H2]; [|apply list_elem_of_singleton in H2 as ->]);
      simpl; lia.
  - intros e1 e2 H1 H2. simpl in H1, H2.
    apply elem_of_cons in H1 as [->|H1]; [|apply list_elem_of_singleton in H1 as ->];
      (apply elem_of_cons in H2 as [->|H2]; [|apply list_elem_of_singleton in H2 as ->]);
      simpl; lia.
Defined.

Section AnalysisRecordFacts.
Import NetworkInstance NetworkAnalysis.

Lemma bisect_left_loop_bound fuel a x lo hi :
  (lo <= hi)%nat -> (lo <= Bisect.bisect_left_loop fuel a x lo hi <= hi)%nat.
Proof.
  revert lo hi. induction fuel as [|fuel IH]; intros lo hi Hle; [simpl; lia|].
  rewrite bisect_left_loop_S. case_decide as Hlt; [|lia].
  pose proof (midpoint_bounds lo hi Hlt) as Hmid.
  destruct (a !! ((lo + hi) / 2)%nat) as [y|]; [|lia].
  case_decide.
  - pose proof (IH ((lo + hi) / 2 + 1)%nat hi). lia.
  - pose proof (IH lo ((lo + hi) / 2)%nat). lia.
Qed.

Lemma bisect_right_loop_bound fuel a x lo hi :
  (lo <= hi)%nat -> (lo <= Bisect.bisect_right_loop fuel a x lo hi <= hi)%nat.
Proof.
  revert lo hi. induction fuel as [|fuel IH]; intros lo hi Hle; [simpl; lia|].
  rewrite bisect_right_loop_S. case_decide as Hlt; [|lia].
  pose proof (midpoint_bounds lo hi Hlt) as Hmid.
  destruct (a !! ((lo + hi) / 2)%nat) as [y|]; [|lia].
  case_decide.
  - pose proof (IH lo ((lo + hi) / 2)%nat). lia.
  - pose proof (IH ((lo + hi) / 2 + 1)%nat hi). lia.
Qed.

Lemma bisect_left_bound a x : (Bisect.bisect_left a x <= length a)%nat.
Proof. unfold Bisect.bisect_left. pose proof (bisect_left_loop_bound (length a) a x 0 (length a)). lia. Qed.

Lemma bisect_right_bound a x : (Bisect.bisect_right a x <= length a)%nat.
Proof. unfold Bisect.bisect_right. pose proof (bisect_right_loop_bound (length a) a x 0 (length a)). lia. Qed.

(** Whatever the order of the arrays, the loop body of
    [calculate_latencies] returns, and a finite latency is the
    difference of the times of an output and an input entry of the
    sample. *)
Lemma sample_latency_sound (tIn kIn tOut kOut : list Z) (k : Z) :
  length tIn = length kIn -> length tOut = length kOut ->
  exists lat,
    sample_latency tIn kIn tOut kOut k = Ok lat
    /\ forall d, lat = Finite d ->
         exists tin tout, (tin, k) ∈ zip tIn kIn /\ (tout, k) ∈ zip tOut kOut
                          /\ d = tout - tin.
Proof.
  intros HlenI HlenO. unfold sample_latency. cbv zeta.
  pose proof (bisect_right_bound kIn k) as HbI.
  pose proof (bisect_right_bound kOut k) as HbO.
  destruct (decide (Bisect.bisect_right kIn k = 0%nat)) as [|HI]; [by eexists|].
  destruct (decide (Bisect.bisect_right kOut k = 0%nat)) as [|HO]; [by eexists|].
  unfold getitem.
  destruct (lookup_lt_is_Some_2 kIn (Bisect.bisect_right kIn k - 1)) as [kin Hkin]; [lia|].
  destruct (lookup_lt_is_Some_2 kOut (Bisect.bisect_right kOut k - 1)) as [kout Hkout]; [lia|].
  destruct (lookup_lt_is_Some_2 tIn (Bisect.bisect_right kIn k - 1)) as [tin Htin]; [lia|].
  destruct (lookup_lt_is_Some_2 tOut (Bisect.bisect_right kOut k - 1)) as [tout Htout]; [lia|].
  rewrite Hkin. cbn [bind].
  destruct (decide (kin <> k)) as [|Hk1]; [by eexists|].
  rewrite Hkout. cbn [bind].
  destruct (decide (kout <> k)) as [|Hk2]; [by eexists|].
  rewrite Htout, Htin. cbn [bind].
  assert (kin = k) as -> by (destruct (decide (kin = k)); [done|contradiction]).
  assert (kout = k) as -> by (destruct (decide (kout = k)); [done|contradiction]).
  eexists. split; [done|]. intros d [= <-]. exists tin, tout.
  split; [|split; [|done]].
  - eapply list_elem_of_lookup_2. apply lookup_zip_Some. by split.
  - eapply list_elem_of_lookup_2. apply lookup_zip_Some. by split.
Qed.

End AnalysisRecordFacts.

Lemma map_replicate_const {A B : Type} (f : A -> B) (n : nat) (x : A) :
  map f (replicate n x) = replicate n (f x).
Proof. induction n as [|n IH]; simpl; [done|]. by rewrite IH. Qed.

(** X14. When the tags of the output spikes follow the time order and
    every output neuron belongs to a bit group, the matrix of
    [calculate_output_matrix] has one row per sample and one cell per
    bit group, and cell [(k, j)] holds the number of output spikes of
    sample [k] on the neurons of group [j], divided by
    [multiplicity * burst_size]. *)
Theorem calculate_output_matrix_ordered (self : Analysis.t)
  (output_params : OutputParameters) :
  Analysis.output_times self <> [] ->
  same_shape (Analysis.output_times self) (Analysis.output_indices self) ->
  tags_int32 (Analysis.output_indices self) ->
  tags_follow_time (input_events (Analysis.output_times self) (Analysis.output_indices self)) ->
  grouped self ->
  let d := Z.of_nat (multiplicity (Analysis.topology_params self))
           * out_burst_size output_params in
  exists rows,
    NetworkAnalysis.calculate_output_matrix self output_params = Ok rows
    /\ length rows = (NetworkAnalysis.output_shape self).1
    /\ forall k j, (k < (NetworkAnalysis.output_shape self).1)%nat ->
         (j < (NetworkAnalysis.output_shape self).2)%nat ->
         exists row, rows !! k = Some row
                     /\ row !! j = Some (NetworkAnalysis.np_divide (spec_count self k j) d).
Proof.
  intros Hne Hshape Htags Hfollow Hgroups d.
  unfold NetworkAnalysis.calculate_output_matrix.
  rewrite (count_matrix_ordered self Hne Hshape Htags Hfollow Hgroups).
  cbn [bind]. fold d. eexists. split; [done|].
  unfold spec_counts. destruct (NetworkAnalysis.output_shape self) as [N n].
  cbn [fst snd]. split; [by rewrite !length_map, length_seq|].
  intros k j Hk Hj. eexists. rewrite !lookup_map.
  rewrite lookup_seq_lt by done. cbn [option_map]. split; [done|].
  rewrite !lookup_map. by rewrite lookup_seq_lt.
Qed.

Lemma calculate_output_matrix_ordered_witness :
  exists rows,
    NetworkAnalysis.calculate_output_matrix ex_ordered_analysis {| out_burst_size := 1 |}
    = Ok rows
    /\ length rows = 2%nat.
Proof.
  destruct (calculate_output_matrix_ordered ex_ordered_analysis {| out_burst_size := 1 |})
    as (rows & Hok & Hlen & _).
  - discriminate.
  - repeat constructor.
  - repeat constructor; unfold int32; lia.
  - intros e1 e2 H1 H2. simpl in H1, H2.
    apply elem_of_cons in H1 as [->|H1]; [|apply list_elem_of_singleton in H1 as ->];
      (apply elem_of_cons in H2 as [->|H2]; [|apply list_elem_of_singleton in H2 as ->]);
      simpl; lia.
  - intros i Hi. simpl in Hi. assert (i = 0%nat) as -> by lia. simpl. lia.
  - exists rows. split; [exact Hok|exact Hlen].
Defined.

(** X15. An analysis record whose output neurons have no spike at all:
    every latency is infinite and every cell of the output matrix is
    [0 / (multiplicity * burst_size)], which is [nan] when that divisor
    is zero. *)
Theorem analysis_without_output_spikes (self : Analysis.t)
  (output_params : OutputParameters) (n : nat) fin :
  (0 < n)%nat ->
  Analysis.output_times self = replicate n [] ->
  NetworkInstance.flatten (Analysis.input_times self) (Analysis.input_indices self) true
  = Ok fin ->
  let d := Z.of_nat (multiplicity (Analysis.topology_params self))
           * out_burst_size output_params in
  NetworkAnalysis.calculate_latencies self
  = Ok (replicate (n_samples (Analysis.data_params self)) NetworkAnalysis.Infinite)
  /\ NetworkAnalysis.calculate_output_matrix self output_params
     = Ok (replicate (NetworkAnalysis.output_shape self).1
             (replicate (NetworkAnalysis.output_shape self).2
                (NetworkAnalysis.np_divide 0 d)))
  /\ (d = 0 -> NetworkAnalysis.np_divide 0 d = NetworkAnalysis.CellNaN).
Proof.
  intros Hn Hout Hin d. split; [by eapply calculate_latencies_no_output|]. split.
  - unfold NetworkAnalysis.calculate_output_matrix.
    rewrite (count_matrix_no_output self n Hn Hout). cbn [bind]. fold d.
    by rewrite !map_replicate_const.
  - intros ->. done.
Qed.

Lemma analysis_without_output_spikes_witness :
  NetworkAnalysis.calculate_latencies
    {| Analysis.input_times := [[100; 120]];
       Analysis.input_indices := [[0; 1]];
       Analysis.output_times := [[]];
       Analysis.output_indices := [[]];
       Analysis.input_params := Examples.ex_input_params;
       Analysis.data_params := Examples.ex_data_params;
       Analysis.topology_params := Examples.ex_topology_params;
       Analysis.meta_data := EmptyString;
       Analysis.mat_in := MList [];
       Analysis.mat_out := MList [] |}
  = Ok [NetworkAnalysis.Infinite; NetworkAnalysis.Infinite].
Proof.
  refine (proj1 (analysis_without_output_spikes _ {| out_burst_size := 0 |} 1
                   ([100; 120], [0; 1], [0; 0]%nat) _ _ _)).
  - lia.
  - reflexivity.
  - reflexivity.
Defined.

(** X16. [calculate_latencies] returns for well-shaped spikes whatever
    the order of their tags: one entry per sample, and a finite entry
    for sample [k] is the time of an output spike tagged [k] minus the
    time of an input spike tagged [k]. *)
Theorem calculate_latencies_sound (self : Analysis.t) :
  Analysis.input_times self <> [] ->
  same_shape (Analysis.input_times self) (Analysis.input_indices self) ->
  tags_int32 (Analysis.input_indices self) ->
  Analysis.output_times self <> [] ->
  same_shape (Analysis.output_times self) (Analysis.output_indices self) ->
  tags_int32 (Analysis.output_indices self) ->
  exists latencies,
    NetworkAnalysis.calculate_latencies self = Ok latencies
    /\ length latencies = n_samples (Analysis.data_params self)
    /\ forall k d, latencies !! k = Some (NetworkAnalysis.Finite d) ->
         exists tin tout,
           (tin, Z.of_nat k)
             ∈ input_events (Analysis.input_times self) (Analysis.input_indices self)
           /\ (tout, Z.of_nat k)
                ∈ input_events (Analysis.output_times self) (Analysis.output_indices self)
           /\ d = tout - tin.
Proof.
  intros HneI HshI HtagI HneO HshO HtagO. unfold NetworkAnalysis.calculate_latencies.
  destruct (flatten_by_sample _ _ HneI HshI HtagI)
    as (tIn & kIn & nIn & -> & HlenI & _ & HpermI).
  destruct (flatten_by_sample _ _ HneO HshO HtagO)
    as (tOut & kOut & nOut & -> & HlenO & _ & HpermO).
  cbn [bind fst snd].
  destruct (mapM_Forall2
              (fun k => NetworkAnalysis.sample_latency tIn kIn tOut kOut (Z.of_nat k))
              (fun k lat => forall d, lat = NetworkAnalysis.Finite d ->
                 exists tin tout, (tin, Z.of_nat k) ∈ zip tIn kIn
                                  /\ (tout, Z.of_nat k) ∈ zip tOut kOut /\ d = tout - tin)
              (seq 0 (n_samples (Analysis.data_params self))))
    as (latencies & -> & Hall).
  { intros k. by apply sample_latency_sound. }
  exists latencies. split; [done|].
  split; [by rewrite <- (Forall2_length _ _ _ Hall), length_seq|].
  intros k d Hk.
  destruct (Forall2_lookup_r _ _ _ _ _ Hall Hk) as (k' & Hk' & Hlat).
  apply lookup_seq in Hk' as [-> _]. simpl in Hlat.
  destruct (Hlat d eq_refl) as (tin & tout & Hin & Hout & ->).
  exists tin, tout. by rewrite <- HpermI, <- HpermO.
Qed.

Lemma calculate_latencies_sound_witness :
  exists latencies,
    NetworkAnalysis.calculate_latencies Examples.ex_jitter_analysis = Ok latencies
    /\ length latencies = 2%nat.
Proof.
  destruct (calculate_latencies_sound Examples.ex_jitter_analysis)
    as (latencies & Hok & Hlen & _).
  - discriminate.
  - repeat constructor.
  - repeat constructor; unfold int32; lia.
  - discriminate.
  - repeat constructor.
  - repeat constructor; unfold int32; lia.
  - exists latencies. split; [exact Hok|exact Hlen].
Defined.

(** X17. [calculate_output_matrix] returns for well-shaped output spikes
    whatever the order of their tags, provided every output neuron
    belongs to a bit group: a matrix with one row per sample and one
    cell per bit group. *)
Theorem calculate_output_matrix_shape (self : Analysis.t)
  (output_params : OutputParameters) :
  Analysis.output_times self <> [] ->
  same_shape (Analysis.output_times self) (Analysis.output_indices self) ->
  tags_int32 (Analysis.output_indices self) ->
  grouped self ->
  exists rows,
    NetworkAnalysis.calculate_output_matrix self output_params = Ok rows
    /\ length rows = (NetworkAnalysis.output_shape self).1
    /\ Forall (fun row => length row = (NetworkAnalysis.output_shape self).2) rows.
Proof.
  intros Hne Hshape Htags Hgroups.
  unfold NetworkAnalysis.calculate_output_matrix, NetworkAnalysis.count_matrix.
  destruct (flatten_by_sample_sorted _ _ Hne Hshape Htags)
    as (flat & sorted & Hflat & Hperm & -> & _ & _).
  cbn [bind fst snd]. unfold grouped in Hgroups.
  set (s := multiplicity (Analysis.topology_params self)) in *.
  destruct (NetworkAnalysis.output_shape self) as [N n]. cbn [fst snd] in *.
  assert (Hbound : Forall (fun e => (NetworkInstance.fs_neuron e / s < n)%nat) sorted).
  { rewrite Hperm. eapply Forall_impl.
    - by eapply flatten_rows_neuron_bound.
    - intros e He. by apply Hgroups. }
  destruct (mapM_Forall2
              (fun k =>
                 NetworkAnalysis.count_row (map NetworkInstance.fs_neuron sorted) s
                   (seq (Bisect.bisect_left (map NetworkInstance.fs_tag sorted) (Z.of_nat k))
                        (Bisect.bisect_right (map NetworkInstance.fs_tag sorted) (Z.of_nat k)
                         - Bisect.bisect_left (map NetworkInstance.fs_tag sorted) (Z.of_nat k)))
                   (replicate n 0))
              (fun _ row => length row = n) (seq 0 N)) as (counts & -> & Hall).
  { intros k.
    pose proof (bisect_left_bound (map NetworkInstance.fs_tag sorted) (Z.of_nat k)) as Hl.
    pose proof (bisect_right_bound (map NetworkInstance.fs_tag sorted) (Z.of_nat k)) as Hr.
    rewrite length_map in Hl, Hr.
    rewrite count_row_block.
    - eexists. split; [done|]. by rewrite length_imap, length_replicate.
    - lia.
    - rewrite length_replicate. rewrite Forall_forall in Hbound |- *.
      intros e [i [He _]]%elem_of_take. rewrite lookup_drop in He.
      apply Hbound. by eapply list_elem_of_lookup_2. }
  cbn [bind]. eexists. split; [done|].
  pose proof (Forall2_length _ _ _ Hall) as Hlen. rewrite length_seq in Hlen.
  split; [by rewrite length_map|].
  apply Forall_forall. intros row Hrow.
  apply list_elem_of_lookup in Hrow as [i Hi]. rewrite lookup_map in Hi.
  destruct (counts !! i) as [crow|] eqn:Hc; [|done]. simpl in Hi. simplify_eq.
  destruct (Forall2_lookup_r _ _ _ _ _ Hall Hc) as (k & _ & Hk).
  by rewrite length_map.
Qed.

Lemma calculate_output_matrix_shape_witness :
  exists rows,
    NetworkAnalysis.calculate_output_matrix Examples.ex_jitter_analysis
      {| out_burst_size := 1 |} = Ok rows
    /\ length rows = 2%nat.
Proof.
  destruct (calculate_output_matrix_shape Examples.ex_jitter_analysis
              {| out_burst_size := 1 |}) as (rows & Hok & Hlen & _).
  - discriminate.
  - repeat constructor.
  - repeat constructor; unfold int32; lia.
  - intros i Hi. simpl in Hi. assert (i = 0%nat) as -> by lia. simpl. lia.
  - exists rows. split; [exact Hok|exact Hlen].
Defined.

(** ** [draw]: the literal ["key"] *)

Section DrawFacts.
Import TopologyParams NetworkBuilder.
Context (normal : nat -> Q -> Q -> Q).
Context (clamp_parameters : gmap string Q -> gmap string Q).

Lemma params_key_listed (t : TopologyParameters) (key : string) :
  is_Some (params t !! key) -> key ∈ map fst (map_to_list (params t)).
Proof.
  intros [v Hv]. apply list_elem_of_In, in_map_iff. exists (key, v).
  split; [done|]. by apply list_elem_of_In, elem_of_map_to_list.
Qed.

Lemma draw_loop_key_error t res pos keys :
  res !! "key" = None ->
  (exists key, key ∈ keys /\ exists sigma, param_noise t !! key = Some sigma /\ (0 < sigma)%Q) ->
  draw_loop normal t (res, pos) keys = Raise KeyError.
Proof.
  intros Hres. induction keys as [|key keys IH]; intros (k & Hk & sigma & Hn & Hpos).
  - by apply elem_of_nil in Hk.
  - cbn [draw_loop]. unfold draw_step.
    destruct (param_noise t !! key) as [sigma'|] eqn:Hn'.
    + destruct (Qlt_le_dec 0 sigma') as [Hpos'|Hle].
      * by rewrite Hres.
      * cbn [bind]. apply IH. exists k. split; [|by exists sigma].
        apply elem_of_cons in Hk as [->|Hk]; [|done].
        rewrite Hn in Hn'. simplify_eq. exfalso. by eapply Qlt_not_le.
    + cbn [bind]. apply IH. exists k. split; [|by exists sigma].
      apply elem_of_cons in Hk as [->|Hk]; [|done]. congruence.
Qed.

Lemma draw_loop_key_only t res pos keys :
  is_Some (res !! "key") ->
  exists res' pos',
    draw_loop normal t (res, pos) keys = Ok (res', pos')
    /\ (forall k, k <> "key" -> res' !! k = res !! k)
    /\ is_Some (res' !! "key")
    /\ (pos <= pos' <= pos + length keys)%nat.
Proof.
  revert res pos. induction keys as [|key keys IH]; intros res pos Hkey.
  - exists res, pos. simpl. split; [done|]. split; [done|]. split; [done|lia].
  - cbn [draw_loop]. unfold draw_step.
    destruct (param_noise t !! key) as [sigma|] eqn:Hn.
    + destruct (Qlt_le_dec 0 sigma) as [Hpos|Hle].
      * destruct Hkey as [mu Hmu]. rewrite Hmu. cbn [bind].
        destruct (IH (<["key" := normal pos mu sigma]> res) (S pos))
          as (res' & pos' & -> & Hother & Hkey' & Hpos').
        { rewrite lookup_insert_eq. by eexists. }
        exists res', pos'. split; [done|]. split; [|split; [done|simpl; lia]].
        intros k Hk. rewrite Hother by done. by rewrite lookup_insert_ne.
      * cbn [bind]. destruct (IH res pos Hkey) as (res' & pos' & -> & Hother & Hkey' & Hpos').
        exists res', pos'. split; [done|]. split; [done|]. split; [done|simpl; lia].
    + cbn [bind]. destruct (IH res pos Hkey) as (res' & pos' & -> & Hother & Hkey' & Hpos').
      exists res', pos'. split; [done|]. split; [done|]. split; [done|simpl; lia].
Qed.

End DrawFacts.

(** X18. [draw] reads and writes the entry named ["key"] instead of the
    entry of the parameter it visits.  So when a positive standard
    deviation is configured for some neuron parameter and the parameters
    have no entry of that literal name, [draw] raises [KeyError]. *)
Theorem draw_key_error (normal : nat -> Q -> Q -> Q)
  (clamp_parameters : gmap string Q -> gmap string Q)
  (t : TopologyParameters) (pos : nat) :
  params t !! "key" = None -> (exists key, noisy t key) ->
  TopologyParams.draw normal clamp_parameters t pos = Raise KeyError.
Proof.
  intros Hkey (key & Hin & sigma & Hn & Hpos). unfold TopologyParams.draw.
  rewrite (draw_loop_key_error normal t (params t) pos); [done|done|].
  exists key. split; [by apply params_key_listed|by exists sigma].
Qed.

Lemma draw_key_error_witness :
  TopologyParams.draw (fun _ mu _ => mu) (fun p => p) ex_noisy_params 0 = Raise KeyError.
Proof.
  apply (draw_key_error (fun _ mu _ => mu) (fun p => p) ex_noisy_params 0).
  - reflexivity.
  - exists "cm". split; [by eexists|]. exists (1 # 10)%Q. split; [reflexivity|reflexivity].
Defined.

(** X19. When the parameters do have an entry named ["key"], [draw]
    returns, and no other parameter is perturbed, whatever noise is
    configured: before clamping, the drawn parameters agree with the
    configured ones in every entry but ["key"].  The generator advances
    by at most one value per parameter. *)
Theorem draw_perturbs_key_only (normal : nat -> Q -> Q -> Q)
  (clamp_parameters : gmap string Q -> gmap string Q)
  (t : TopologyParameters) (pos : nat) :
  is_Some (params t !! "key") ->
  exists res pos',
    TopologyParams.draw normal clamp_parameters t pos = Ok (clamp_parameters res, pos')
    /\ (forall k, k <> "key" -> res !! k = params t !! k)
    /\ is_Some (res !! "key")
    /\ (pos <= pos' <= pos + size (params t))%nat.
Proof.
  intros Hkey. unfold TopologyParams.draw.
  destruct (draw_loop_key_only normal t (params t) pos
              (map fst (map_to_list (params t))) Hkey)
    as (res & pos' & -> & Hother & Hkey' & Hpos).
  cbn [bind fst snd]. exists res, pos'. split; [done|]. split; [done|]. split; [done|].
  rewrite length_map, length_map_to_list in Hpos. done.
Qed.

Lemma draw_perturbs_key_only_witness :
  exists res pos',
    TopologyParams.draw (fun _ mu sigma => (mu + sigma)%Q) (fun p => p) ex_key_params 0
    = Ok (res, pos')
    /\ res !! "cm" = Some (1 # 5)%Q.
Proof.
  destruct (draw_perturbs_key_only (fun _ mu sigma => (mu + sigma)%Q) (fun p => p)
              ex_key_params 0) as (res & pos' & Hok & Hother & _).
  - by eexists.
  - exists res, pos'. split; [exact Hok|]. rewrite Hother; [reflexivity|discriminate].
Defined.

(** X20. [build_topology] draws the parameters of every output neuron
    with [draw]: with at least one output neuron, a positive standard
    deviation for some neuron parameter and no parameter named ["key"],
    it raises [KeyError] and builds no network. *)
Theorem build_topology_key_error (normal : nat -> Q -> Q -> Q)
  (clamp_parameters : gmap string Q -> gmap string Q) (mem : nat -> nat -> Z)
  (data_params : DataParameters) (t : TopologyParameters) (pos : nat) :
  params t !! "key" = None -> (exists key, noisy t key) ->
  (0 < n_bits_out data_params * multiplicity t)%nat ->
  NetworkBuilder.build_topology normal clamp_parameters mem data_params t pos
  = Raise KeyError.
Proof.
  intros Hkey Hnoisy Hcount. unfold NetworkBuilder.build_topology.
  destruct (n_bits_out data_params * multiplicity t)%nat as [|count]; [lia|].
  cbn [NetworkBuilder.draw_params].
  assert (Hdraw : TopologyParams.draw normal clamp_parameters t pos = Raise KeyError).
  { unfold TopologyParams.draw.
    destruct Hnoisy as (key & Hin & sigma & Hn & Hpos).
    rewrite (draw_loop_key_error normal t (params t) pos); [done|done|].
    exists key. split; [by apply params_key_listed|by exists sigma]. }
  by rewrite Hdraw.
Qed.

Lemma build_topology_key_error_witness :
  NetworkBuilder.build_topology (fun _ mu _ => mu) (fun p => p) (fun _ _ => 1)
    Examples.ex_data_params ex_noisy_params 0
  = Raise KeyError.
Proof.
  apply (build_topology_key_error (fun _ mu _ => mu) (fun p => p) (fun _ _ => 1)
           Examples.ex_data_params ex_noisy_params 0).
  - reflexivity.
  - exists "cm". split; [by eexists|]. exists (1 # 10)%Q. split; [reflexivity|reflexivity].
  - simpl. lia.
Defined.

(** ** [_restore_alternatives] *)

Section RestoreFacts.
Import TopologyParams.

Lemma restore_alternatives_cases (sanitised original : gmap string Q) :
  _restore_alternatives sanitised original = sanitised
  \/ (exists g, original !! "g_leak" = Some g /\ original !! "tau_m" = None
                /\ sanitised !! "g_leak" = None /\ is_Some (sanitised !! "tau_m")
                /\ _restore_alternatives sanitised original
                   = delete "tau_m" (<["g_leak" := g]> sanitised))
  \/ (exists tau, original !! "tau_m" = Some tau /\ original !! "g_leak" = None
                  /\ sanitised !! "tau_m" = None /\ is_Some (sanitised !! "g_leak")
                  /\ _restore_alternatives sanitised original
                     = delete "g_leak" (<["tau_m" := tau]> sanitised)).
Proof.
  unfold _restore_alternatives. case_bool_decide as Hboth; [by left|].
  destruct (original !! "g_leak") as [g|] eqn:Hog;
    destruct (original !! "tau_m") as [tau|] eqn:Hot;
    destruct (sanitised !! "g_leak") as [sg|] eqn:Hsg;
    destruct (sanitised !! "tau_m") as [st|] eqn:Hst;
    try (exfalso; apply Hboth; (left + right); split; by eexists);
    try rewrite Hsg; try rewrite Hst; try (by left).
  - right. left. exists g. repeat split; by eauto.
  - right. right. exists tau. repeat split; by eauto.
Qed.

End RestoreFacts.

(** X21. [_restore_alternatives] touches the entries ["g_leak"] and
    ["tau_m"] only.  When the user gave exactly one of the two and the
    defaults left exactly the other one, the user's entry is put back
    with the user's value and the other one is removed.  The result
    never holds both entries unless the defaults did, and restoring a
    second time changes nothing. *)
Theorem restore_alternatives_spec (sanitised original : gmap string Q) :
  let restored := TopologyParams._restore_alternatives sanitised original in
  (forall k, k <> "g_leak" -> k <> "tau_m" -> restored !! k = sanitised !! k)
  /\ (forall g, original !! "g_leak" = Some g -> original !! "tau_m" = None ->
       sanitised !! "g_leak" = None -> is_Some (sanitised !! "tau_m") ->
       restored !! "g_leak" = Some g /\ restored !! "tau_m" = None)
  /\ (forall tau, original !! "tau_m" = Some tau -> original !! "g_leak" = None ->
       sanitised !! "tau_m" = None -> is_Some (sanitised !! "g_leak") ->
       restored !! "tau_m" = Some tau /\ restored !! "g_leak" = None)
  /\ (is_Some (restored !! "g_leak") -> is_Some (restored !! "tau_m") ->
       is_Some (sanitised !! "g_leak") /\ is_Some (sanitised !! "tau_m"))
  /\ TopologyParams._restore_alternatives restored original = restored.
Proof.
  intros restored.
  destruct (restore_alternatives_cases sanitised original)
    as [Hsame|[(g & Hog & Hot & Hsg & Hst & Hswap)|(tau & Hot & Hog & Hst & Hsg & Hswap)]];
    fold restored in Hsame || fold restored in Hswap.
  - rewrite Hsame. split; [done|]. split.
    { intros g Hog Hot Hsg [st Hst]. exfalso.
      assert (restored = delete "tau_m" (<["g_leak" := g]> sanitised)) as Hr.
      { unfold restored, TopologyParams._restore_alternatives.
        rewrite bool_decide_false.
        - by rewrite Hog, Hst, Hot.
        - rewrite Hot, Hsg. intros [[_ []]|[[] _]]; done. }
      rewrite Hsame in Hr. apply (f_equal (fun m => m !! "tau_m")) in Hr.
      rewrite lookup_delete_eq, Hst in Hr. done. }
    split.
    { intros tau Hot Hog Hst [sg Hsg]. exfalso.
      assert (restored = delete "g_leak" (<["tau_m" := tau]> sanitised)) as Hr.
      { unfold restored, TopologyParams._restore_alternatives.
        rewrite bool_decide_false.
        - by rewrite Hog, Hot, Hsg.
        - rewrite Hog, Hst. intros [[[] _]|[_ []]]; done. }
      rewrite Hsame in Hr. apply (f_equal (fun m => m !! "g_leak")) in Hr.
      rewrite lookup_delete_eq, Hsg in Hr. done. }
    split; [done|]. rewrite <- Hsame at 1. fold restored. by rewrite Hsame.
  - assert (Hrg : restored !! "g_leak" = Some g).
    { by rewrite Hswap, lookup_delete_ne, lookup_insert_eq. }
    assert (Hrt : restored !! "tau_m" = None).
    { by rewrite Hswap, lookup_delete_eq. }
    split.
    { intros k Hk1 Hk2. by rewrite Hswap, lookup_delete_ne, lookup_insert_ne. }
    split; [intros g' Hg' _ _ _; by simplify_eq|].
    split; [intros tau Htau; by simplify_eq|].
    split; [intros _ [? Hc]; by rewrite Hrt in Hc|].
    unfold TopologyParams._restore_alternatives.
    rewrite Hog, Hot, Hrt. by case_bool_decide.
  - assert (Hrt : restored !! "tau_m" = Some tau).
    { by rewrite Hswap, lookup_delete_ne, lookup_insert_eq. }
    assert (Hrg : restored !! "g_leak" = None).
    { by rewrite Hswap, lookup_delete_eq. }
    split.
    { intros k Hk1 Hk2. by rewrite Hswap, lookup_delete_ne, lookup_insert_ne. }
    split; [intros g Hg; by simplify_eq|].
    split; [intros tau' Htau' _ _ _; by simplify_eq|].
    split; [intros [? Hc]; by rewrite Hrg in Hc|].
    unfold TopologyParams._restore_alternatives.
    rewrite Hog, Hot, Hrg. by case_bool_decide.
Qed.

Lemma restore_alternatives_spec_witness :
  TopologyParams._restore_alternatives {["tau_m" := 10 # 1; "cm" := 1 # 5]}
    {["g_leak" := 1 # 20]} !! "g_leak" = Some (1 # 20)%Q
  /\ TopologyParams._restore_alternatives {["tau_m" := 10 # 1; "cm" := 1 # 5]}
       {["g_leak" := 1 # 20]} !! "tau_m" = None.
Proof.
  destruct (restore_alternatives_spec {["tau_m" := 10 # 1; "cm" := 1 # 5]}
              {["g_leak" := 1 # 20]}) as (_ & Hg & _).
  apply (Hg (1 # 20)%Q).
  - reflexivity.
  - reflexivity.
  - reflexivity.
  - by eexists.
Defined.

(** ** [build_spike_train] *)

Section SpikeTrainOfOneBit.
Import InputParams.
Context (normal : nat -> Z -> Z -> Z).
Context (uniform : nat -> Q).

Lemma burst_steps_bounds (self : InputParameters) (p : Q) (offs : Z)
  (range : list nat) (res : list Z) (pos : nat) :
  let st := foldl (burst_step normal uniform self p offs) (res, pos) range in
  (length st.1 <= length res + length range)%nat
  /\ (pos + length range <= st.2 <= pos + 2 * length range)%nat.
Proof.
  revert res pos. induction range as [|i range IH]; intros res pos; [simpl; lia|].
  cbn [foldl].
  destruct (burst_step normal uniform self p offs (res, pos) i) as [res1 pos1] eqn:Hstep.
  assert (Hone : (length res1 <= length res + 1)%nat /\ (pos + 1 <= pos1 <= pos + 2)%nat).
  { unfold burst_step in Hstep.
    destruct (Qle_bool p (uniform pos)); [case_decide|]; simplify_eq;
      rewrite ?length_app; simpl; lia. }
  specialize (IH res1 pos1). cbv zeta in IH |- *. simpl. lia.
Qed.

Lemma burst_steps_all (self : InputParameters) (p : Q) (offs : Z)
  (n a : nat) (res : list Z) (pos : nat) :
  (forall q, Qle_bool p (uniform q) = true) -> ~ 0 < sigma_t self ->
  foldl (burst_step normal uniform self p offs) (res, pos) (seq a n)
  = (res ++ map (fun i => offs + Z.of_nat i * isi self) (seq a n), (pos + n)%nat).
Proof.
  intros Hp Hsigma. revert a res pos.
  induction n as [|n IH]; intros a res pos.
  - simpl. rewrite app_nil_r. f_equal. lia.
  - cbn [seq foldl map]. unfold burst_step at 2. rewrite Hp, decide_False by done.
    rewrite IH, <- (assoc_L (++)). cbn [app]. rewrite Z.add_0_r. f_equal. lia.
Qed.

Lemma burst_steps_none (self : InputParameters) (p : Q) (offs : Z)
  (range : list nat) (res : list Z) (pos : nat) :
  (forall q, Qle_bool p (uniform q) = false) ->
  foldl (burst_step normal uniform self p offs) (res, pos) range
  = (res, (pos + length range)%nat).
Proof.
  intros Hp. revert pos. induction range as [|i range IH]; intros pos.
  - simpl. f_equal. lia.
  - cbn [foldl]. unfold burst_step at 2. rewrite Hp, IH. simpl. f_equal. lia.
Qed.

Lemma stable_sort_sorted {A : Type} (leb : A -> A -> bool) (l : list A) :
  Sorted (fun a b => leb a b = true) l -> Numpy.stable_sort leb l = l.
Proof.
  induction 1 as [|x l _ IH Hhd]; [done|].
  unfold Numpy.stable_sort in *. cbn [foldr]. rewrite IH.
  destruct Hhd as [|y l' Hxy]; [done|]. simpl. by rewrite Hxy.
Qed.

Lemma equidistant_sorted (offs step : Z) (n a : nat) :
  0 <= step ->
  Sorted (fun x y => (x <=? y) = true)
         (map (fun i => offs + Z.of_nat i * step) (seq a n)).
Proof.
  intros Hstep. revert a. induction n as [|n IH]; intros a; [constructor|].
  cbn [seq map]. constructor; [apply IH|].
  destruct n as [|n]; [constructor|]. cbn [seq map]. constructor.
  apply Z.leb_le. nia.
Qed.

End SpikeTrainOfOneBit.

(** X22. [build_spike_train] returns an ascending spike train with at
    most [burst_size] spikes, whatever the bit value and the noise; it
    consumes at least [burst_size] and at most [2 * burst_size + 1]
    values of the random generator. *)
Theorem build_spike_train_sorted (normal : nat -> Z -> Z -> Z) (uniform : nat -> Q)
  (self : InputParameters) (value offs : Z) (pos : nat) :
  let r := InputParams.build_spike_train normal uniform self value offs pos in
  Sorted Z.le r.1
  /\ (length r.1 <= burst_size self)%nat
  /\ (pos + burst_size self <= r.2 <= pos + 2 * burst_size self + 1)%nat.
Proof.
  unfold InputParams.build_spike_train.
  set (start := if decide (0 < sigma_t_offs self)
                then (normal pos offs (sigma_t_offs self), S pos) else (offs, pos)).
  assert (Hstart : (pos <= start.2 <= pos + 1)%nat).
  { unfold start. case_decide; simpl; lia. }
  destruct start as [offs' pos0]. cbn [snd] in Hstart.
  set (p := if decide (value = 1) then p0 self else (1 - p1 self)%Q).
  pose proof (burst_steps_bounds normal uniform self p offs' (seq 0 (burst_size self))
                [] pos0) as Hb.
  cbv zeta in Hb.
  destruct (foldl _ _ _) as [res pos1]. cbn [fst snd] in *.
  rewrite length_seq in Hb. simpl in Hb. split; [|split].
  - assert (Htotal : forall x y : Z, (x <=? y) = true \/ (y <=? x) = true).
    { intros x y. rewrite !Z.leb_le. lia. }
    pose proof (stable_sort_Sorted Z.leb Htotal res) as Hs.
    induction Hs as [|x l _ IH Hhd]; constructor; [done|].
    destruct Hhd as [|y l' Hxy]; constructor. by apply Z.leb_le.
  - rewrite (Permutation_length (stable_sort_perm Z.leb res)). lia.
  - lia.
Qed.

(** X23. Without jitter ([sigma_t <= 0], [sigma_t_offs <= 0]), with a
    non-negative inter-spike interval and a generator whose uniform
    values lie in [[0, 1)]: a one that loses no spike ([p0 <= 0]) is
    encoded as exactly [burst_size] spikes at [offs + i * isi], and
    any other value, when no spike is inserted at random ([p1 <= 0]),
    as no spike at all.  Either way [burst_size] generator values are
    consumed. *)
Theorem build_spike_train_noise_free (normal : nat -> Z -> Z -> Z) (uniform : nat -> Q)
  (self : InputParameters) (value offs : Z) (pos : nat) :
  (forall q, (0 <= uniform q)%Q /\ (uniform q < 1)%Q) ->
  ~ 0 < sigma_t self -> ~ 0 < sigma_t_offs self -> 0 <= isi self ->
  (value = 1 -> (p0 self <= 0)%Q ->
   InputParams.build_spike_train normal uniform self value offs pos
   = (map (fun i => offs + Z.of_nat i * isi self) (seq 0 (burst_size self)),
      (pos + burst_size self)%nat))
  /\ (value <> 1 -> (p1 self <= 0)%Q ->
      InputParams.build_spike_train normal uniform self value offs pos
      = ([], (pos + burst_size self)%nat)).
Proof.
  intros Hu Hsigma Hoffs Hisi. unfold InputParams.build_spike_train.
  rewrite (decide_False (P := 0 < sigma_t_offs self)) by done. split.
  - intros -> Hp0. rewrite decide_True by done.
    rewrite burst_steps_all; [|intros q; apply Qle_bool_iff|done].
    + cbn [app]. f_equal. apply stable_sort_sorted. by apply equidistant_sorted.
    + eapply Qle_trans; [exact Hp0|apply Hu].
  - intros Hvalue Hp1. rewrite decide_False by done.
    rewrite burst_steps_none; [by rewrite length_seq|].
    intros q. destruct (Qle_bool (1 - p1 self) (uniform q)) eqn:Hle; [|done].
    exfalso. apply Qle_bool_iff in Hle.
    destruct (Hu q) as [_ Hlt].
    apply (Qlt_irrefl 1). eapply Qle_lt_trans; [|exact Hlt].
    eapply Qle_trans; [|exact Hle].
    destruct (p1 self) as [a b]. unfold Qle, Qminus, Qplus, Qopp in *. simpl in *. lia.
Qed.

Lemma build_spike_train_noise_free_witness :
  InputParams.build_spike_train (fun _ mu _ => mu) (fun _ => 1 # 2)
    {| burst_size := 3; time_window := 100; isi := 2; sigma_t := 0;
       sigma_t_offs := 0; p0 := 0; p1 := 0 |} 1 50 7
  = ([50; 52; 54], 10%nat).
Proof.
  refine (proj1 (build_spike_train_noise_free (fun _ mu _ => mu) (fun _ => 1 # 2)
                   {| burst_size := 3; time_window := 100; isi := 2; sigma_t := 0;
                      sigma_t_offs := 0; p0 := 0; p1 := 0 |} 1 50 7 _ _ _ _) _ _).
  - intros _. split; [discriminate|reflexivity].
  - simpl. lia.
  - simpl. lia.
  - simpl. lia.
  - reflexivity.
  - simpl. discriminate.
Defined.

(** ** [build_spike_trains]: the tags *)

Lemma build_spike_trains_returns_witness :
  exists input_times input_indices pos',
    NetworkBuilder.build_spike_trains (fun _ mu _ => mu) (fun _ => 1 # 2)
      {| nd_shape := (2%nat, 1%nat); nd_at := fun _ _ => 1 |} 0
      Examples.ex_topology_params [Examples.ex_input_params] 10 0
    = Ok (input_times, input_indices, [2], pos')
    /\ length input_times = 1%nat.
Proof.
  destruct (build_spike_trains_returns (fun _ mu _ => mu) (fun _ => 1 # 2)
              {| nd_shape := (2%nat, 1%nat); nd_at := fun _ _ => 1 |} 0
              Examples.ex_topology_params [Examples.ex_input_params] 10 0)
    as (input_times & input_indices & pos' & Hok & Hlen & _).
  - simpl. lia.
  - simpl. lia.
  - exists input_times, input_indices, pos'. split; [exact Hok|exact Hlen].
Defined.

Section SpikeTrainTags.
Import NetworkBuilder.
Context (normal : nat -> Z -> Z -> Z).
Context (uniform : nat -> Q).

Lemma Sorted_app_replicate (ks : list Z) (n : nat) (x : Z) :
  Sorted Z.le ks -> Forall (fun k => k <= x) ks -> Sorted Z.le (ks ++ replicate n x).
Proof.
  intros Hs Hle. induction Hs as [|k ks Hs IH Hhd]; simpl.
  - induction n as [|n IHn]; simpl; [constructor|]. constructor; [done|].
    destruct n; simpl; constructor. lia.
  - inversion Hle as [|? ? Hk Hks]; subst. constructor; [by apply IH|].
    destruct Hhd as [|k' ks' Hkk']; simpl; [|by constructor].
    destruct n; simpl; constructor. done.
Qed.

Lemma tagged_below_mono (b b' : Z) times indices :
  b <= b' -> tagged_below b times indices -> tagged_below b' times indices.
Proof.
  intros Hb [Hshape Htags]. split; [done|].
  eapply Forall_impl; [exact Htags|]. intros ks [Hs Hks]. split; [done|].
  eapply Forall_impl; [exact Hks|]. intros k ?. simpl in *. lia.
Qed.

Lemma emit_tagged mat s p sIdx t l st ij :
  0 <= sIdx ->
  tagged_below (sIdx + 1) (tr_times st) (tr_indices st) ->
  tagged_below (sIdx + 1) (tr_times (emit normal uniform mat s p sIdx t l st ij))
                          (tr_indices (emit normal uniform mat s p sIdx t l st ij)).
Proof.
  intros Hs [Hshape Htags]. unfold emit. destruct ij as [i j].
  destruct (InputParams.build_spike_train _ _ _ _ _ _) as [train pos']. simpl. split.
  - apply Forall2_alter; [done|]. intros ts ks _ _ Hlen.
    by rewrite !length_app, length_replicate, Hlen.
  - apply Forall_alter; [done|]. intros ks _ [Hsorted Hks]. split.
    + apply Sorted_app_replicate; [done|].
      eapply Forall_impl; [exact Hks|]. intros k ?. simpl in *. lia.
    + apply Forall_app. split; [done|]. apply Forall_replicate. lia.
Qed.

Lemma sample_step_tagged mat s p tr sIdx t l :
  0 <= sIdx ->
  tagged_below sIdx (tr_times tr) (tr_indices tr) ->
  let st := sample_step normal uniform mat s p (tr, sIdx, t) l in
  st.1.2 = sIdx + 1
  /\ tagged_below (sIdx + 1) (tr_times st.1.1) (tr_indices st.1.1).
Proof.
  intros Hs Htag. unfold sample_step. simpl. split; [done|].
  apply (tagged_below_mono sIdx (sIdx + 1)) in Htag; [|lia].
  generalize (list_prod (seq 0 (nd_shape mat).2) (seq 0 s)). intros ijs.
  revert tr Htag. induction ijs as [|ij ijs IH]; intros tr Htag; simpl; [done|].
  apply IH. by apply emit_tagged.
Qed.

Lemma samples_tagged mat s p (ls : list nat) tr sIdx t :
  0 <= sIdx ->
  tagged_below sIdx (tr_times tr) (tr_indices tr) ->
  let st := foldl (sample_step normal uniform mat s p) (tr, sIdx, t) ls in
  st.1.2 = sIdx + Z.of_nat (length ls)
  /\ tagged_below st.1.2 (tr_times st.1.1) (tr_indices st.1.1).
Proof.
  revert tr sIdx t. induction ls as [|l ls IH]; intros tr sIdx t Hs Htag.
  - simpl. split; [lia|done].
  - cbn [foldl].
    pose proof (sample_step_tagged mat s p tr sIdx t l Hs Htag) as Hstep.
    destruct (sample_step normal uniform mat s p (tr, sIdx, t) l) as [[tr1 sIdx1] t1].
    cbv zeta in Hstep. cbn [fst snd] in Hstep. destruct Hstep as [-> Htag1].
    destruct (IH tr1 (sIdx + 1) t1) as [Hidx Hfinal]; [lia|done|].
    cbv zeta. split; [|done]. rewrite Hidx. cbn [length]. lia.
Qed.

Lemma block_step_tagged mat s delay p tr sIdx t :
  0 <= sIdx ->
  tagged_below sIdx (tr_times tr) (tr_indices tr) ->
  let st := block_step normal uniform mat s delay (tr, sIdx, t) p in
  st.1.2 = sIdx + Z.of_nat (nd_shape mat).1
  /\ tagged_below st.1.2 (tr_times st.1.1) (tr_indices st.1.1).
Proof.
  intros Hs Htag. unfold block_step.
  pose proof (samples_tagged mat s p (seq 0 (nd_shape mat).1) tr sIdx t Hs Htag) as Hb.
  destruct (foldl (sample_step normal uniform mat s p) (tr, sIdx, t) _)
    as [[tr1 sIdx1] t1].
  cbv zeta in Hb |- *. cbn [fst snd] in Hb |- *. rewrite length_seq in Hb. done.
Qed.

Lemma blocks_tagged mat s delay (ps : list InputParameters) tr sIdx t :
  0 <= sIdx ->
  tagged_below sIdx (tr_times tr) (tr_indices tr) ->
  let st := foldl (block_step normal uniform mat s delay) (tr, sIdx, t) ps in
  st.1.2 = sIdx + Z.of_nat (nd_shape mat).1 * Z.of_nat (length ps)
  /\ tagged_below st.1.2 (tr_times st.1.1) (tr_indices st.1.1).
Proof.
  revert tr sIdx t. induction ps as [|p ps IH]; intros tr sIdx t Hs Htag.
  - simpl. split; [lia|done].
  - cbn [foldl].
    pose proof (block_step_tagged mat s delay p tr sIdx t Hs Htag) as Hb.
    destruct (block_step normal uniform mat s delay (tr, sIdx, t) p) as [[tr1 sIdx1] t1].
    cbv zeta in Hb. cbn [fst snd] in Hb. destruct Hb as [-> Htag1].
    destruct (IH tr1 (sIdx + Z.of_nat (nd_shape mat).1) t1) as [Hidx Hfinal]; [lia|done|].
    cbv zeta. split; [|done]. rewrite Hidx. cbn [length]. lia.
Qed.

End SpikeTrainTags.

(** X25. For a matrix with [N > 0] rows and a builder with at least one
    input neuron, the tags [build_spike_trains] returns go with the
    spike times: every input neuron has as many tags as spikes, its
    tags are non-decreasing, and every tag lies in
    [[0, N * len(input_params))], below the last boundary of the
    temporal split. *)
Theorem build_spike_trains_tags
  (normal : nat -> Z -> Z -> Z) (uniform : nat -> Q)
  (mat : ndarray) (time_offs : Z) (topology_params : TopologyParameters)
  (input_params : list InputParameters) (input_params_delay : Z) (pos : nat) :
  (0 < (nd_shape mat).1)%nat ->
  (0 < multiplicity topology_params * (nd_shape mat).2)%nat ->
  exists input_times input_indices input_split pos',
    NetworkBuilder.build_spike_trains normal uniform mat time_offs topology_params
      input_params input_params_delay pos
    = Ok (input_times, input_indices, input_split, pos')
    /\ Forall2 (fun ts ks => length ts = length ks) input_times input_indices
    /\ Forall (fun ks =>
                 Sorted Z.le ks
                 /\ Forall (fun k => 0 <= k < Z.of_nat (nd_shape mat).1
                                              * Z.of_nat (length input_params)) ks)
         input_indices
    /\ (forall b, b ∈ input_split ->
          b <= Z.of_nat (nd_shape mat).1 * Z.of_nat (length input_params)).
Proof.
  intros HN Hsm. unfold NetworkBuilder.build_spike_trains.
  set (init := {| NetworkBuilder.tr_times :=
                    replicate (multiplicity topology_params * (nd_shape mat).2) [];
                  NetworkBuilder.tr_indices :=
                    replicate (multiplicity topology_params * (nd_shape mat).2) [];
                  NetworkBuilder.tr_pos := pos |}).
  pose proof (blocks_tagged normal uniform mat (multiplicity topology_params)
                input_params_delay input_params init 0 0) as Htag.
  pose proof (blocks_length normal uniform mat (multiplicity topology_params)
                input_params_delay (init, 0, 0) input_params) as Hlen.
  destruct (foldl _ _ input_params) as [[tr sIdx] t].
  cbv zeta in Htag. cbn [fst snd] in Htag, Hlen.
  destruct Htag as [-> [Hshape Htags]]; [lia| |].
  { split.
    - unfold init. simpl. generalize (multiplicity topology_params * (nd_shape mat).2)%nat.
      intros n. induction n; simpl; by constructor.
    - unfold init. simpl. apply Forall_replicate. split; constructor. }
  unfold init in Hlen. simpl in Hlen. rewrite length_replicate in Hlen.
  destruct (offset_times_earliest (NetworkBuilder.tr_times tr) time_offs)
    as (shifted & -> & Hfin & _).
  { intros Hnil. rewrite Hnil in Hlen. simpl in Hlen. lia. }
  cbn [bind]. rewrite py_range_blocks by done. cbn [bind].
  eexists _, _, _, _. split; [done|]. split; [|split].
  - clear -Hfin Hshape. revert shifted Hfin.
    induction Hshape as [|ts ks tss kss Hl _ IH]; intros shifted Hfin.
    + apply Forall2_nil_inv_l in Hfin as ->. constructor.
    + apply Forall2_cons_inv_l in Hfin as (xs & xss & Hrow & Hrest & ->).
      constructor; [|by apply IH]. by rewrite <- (Forall2_length _ _ _ Hrow).
  - eapply Forall_impl; [exact Htags|]. intros ks [Hsorted Hks]. split; [done|].
    eapply Forall_impl; [exact Hks|]. intros k ?. simpl in *. lia.
  - intros b Hb. apply list_elem_of_In, in_map_iff in Hb as (i & <- & Hi).
    apply in_seq in Hi. nia.
Qed.

Lemma build_spike_trains_tags_witness :
  exists input_times input_indices input_split pos',
    NetworkBuilder.build_spike_trains (fun _ mu _ => mu) (fun _ => 1 # 2)
      {| nd_shape := (2%nat, 1%nat); nd_at := fun _ _ => 1 |} 0
      Examples.ex_topology_params [Examples.ex_input_params] 10 0
    = Ok (input_times, input_indices, input_split, pos')
    /\ Forall2 (fun ts ks => length ts = length ks) input_times input_indices.
Proof.
  destruct (build_spike_trains_tags (fun _ mu _ => mu) (fun _ => 1 # 2)
              {| nd_shape := (2%nat, 1%nat); nd_at := fun _ _ => 1 |} 0
              Examples.ex_topology_params [Examples.ex_input_params] 10 0)
    as (input_times & input_indices & input_split & pos' & Hok & Hshape & _).
  - simpl. lia.
  - simpl. lia.
  - exists input_times, input_indices, input_split, pos'. split; [exact Hok|exact Hshape].
Defined.

(** ** [build_topology]: the connections refer to existing neurons *)

(** X26. Without parameter noise, every connection [build_topology]
    creates leads from a neuron of the source population (population 0,
    neuron index below [m * s]) to a neuron of the output population
    (population 1, neuron index below [n * s]), so the connections
    refer to the two populations of the network only. *)
Theorem build_topology_endpoints
  (normal : nat -> Q -> Q -> Q) (clamp_parameters : gmap string Q -> gmap string Q)
  (mem : nat -> nat -> Z) (data_params : DataParameters)
  (t : TopologyParameters) (pos : nat) :
  noise_free t ->
  let m := n_bits_in data_params in
  let n := n_bits_out data_params in
  let s := multiplicity t in
  exists net pos',
    NetworkBuilder.build_topology normal clamp_parameters mem data_params t pos
    = Ok (net, pos')
    /\ length (NetworkBuilder.net_populations net) = 2%nat
    /\ Forall (fun c => exists a b, endpoints c = ((0%nat, a), (1%nat, b))
                                    /\ (a < m * s)%nat /\ (b < n * s)%nat)
         (NetworkBuilder.net_connections net)
    /\ Forall (connection_below (length (NetworkBuilder.net_populations net)))
         (NetworkBuilder.net_connections net).
Proof.
  intros Hfree m n s. unfold NetworkBuilder.build_topology.
  rewrite (draw_params_noise_free normal clamp_parameters) by done. cbn [bind fst snd].
  fold m n s.
  match goal with
  | |- context [foldl _ (?net0, _) _] =>
      destruct (connect_steps normal mem t s (list_prod (seq 0 m) (seq 0 n)) net0 pos)
        as (bundles & Hfold & Hbundles & _)
  end.
  rewrite Hfold. eexists _, _. split; [done|]. cbn [NetworkBuilder.net_connections
    NetworkBuilder.net_populations NetworkBuilder.add_population app length].
  split; [done|].
  assert (Hall : Forall (fun c => exists a b, endpoints c = ((0%nat, a), (1%nat, b))
                                   /\ (a < m * s)%nat /\ (b < n * s)%nat)
                        (concat bundles)).
  { apply Forall_concat. apply Forall_forall. intros cs Hcs.
    apply list_elem_of_lookup in Hcs as [q Hq].
    destruct (Forall2_lookup_r _ _ _ _ _ Hbundles Hq) as ([i j] & Hij & Hb).
    apply list_elem_of_lookup_2, list_elem_of_In, in_prod_iff in Hij as [Hi Hj].
    apply in_seq in Hi, Hj. unfold bundle_of in Hb. cbn [fst snd] in Hb.
    destruct (decide (mem i j <> 0)) as [_|_]; [|subst cs; constructor].
    apply Forall_forall. intros c Hc.
    assert (Hend : endpoints c ∈ replica_pairs s i j).
    { rewrite <- Hb. apply list_elem_of_In, in_map. by apply list_elem_of_In. }
    unfold replica_pairs in Hend.
    apply list_elem_of_In, in_map_iff in Hend as ([k l] & Hkl & Hin).
    apply in_prod_iff in Hin as [Hk Hl]. apply in_seq in Hk, Hl.
    exists (i * s + k)%nat, (j * s + l)%nat. split; [by rewrite <- Hkl|].
    cbn [fst snd] in *. split; nia. }
  split; [exact Hall|].
  eapply Forall_impl; [exact Hall|].
  intros c (a & b & Hend & _). unfold connection_below.
  unfold endpoints in Hend. destruct c as [[[src tar] wgt] dly].
  cbn [fst snd] in *. simplify_eq. cbn [fst]. lia.
Qed.

Lemma build_topology_endpoints_witness :
  exists net pos',
    NetworkBuilder.build_topology (fun _ mu _ => mu) (fun p => p) (fun _ _ => 1)
      Examples.ex_data_params Examples.ex_jitter_weight 0
    = Ok (net, pos')
    /\ Forall (connection_below 2) (NetworkBuilder.net_connections net).
Proof.
  destruct (build_topology_endpoints (fun _ mu _ => mu) (fun p => p) (fun _ _ => 1)
              Examples.ex_data_params Examples.ex_jitter_weight 0)
    as (net & pos' & Hok & Hpop & _ & Hclosed).
  - intros key sigma _ Hn. simpl in Hn. by rewrite lookup_empty in Hn.
  - exists net, pos'. split; [exact Hok|]. by rewrite Hpop in Hclosed.
Defined.
